(** * woz-to-zwo: the content script of the WhatsOnZwift workout exporter

    A shallow embedding of [content.js] (functions [parseDuration],
    [parseSegment], [generateZWO] and [getWorkoutName], and the click
    handler of the download button) and the properties of its classifier,
    its serializer and its handler.

    Modelling conventions.
    - A JavaScript string is a [list ascii]: its code units, restricted to
      the range 0..255.  [txt "abc"] turns a literal into such a list.
    - A JavaScript regular expression is a term of [Regex.re]; matching is
      the backtracking search of the language, written as the ordered list
      of all successes (first element = the match the engine reports).
    - A JavaScript number is a [num]: [NaN], an infinity, or an exact
      decimal [mant * 10 ^ expo].  Arithmetic on decimals is exact: the
      rounding and the overflow of IEEE doubles are outside the model.
    - Code that can raise (a property read on [undefined]) returns a
      [result]; [try]/[catch] is [try_catch]. *)

From Stdlib Require Import Ascii String ZArith QArith Qround Lia Bool.
From Stdlib Require Import DecimalString DecimalN List.
Import ListNotations.

Local Open Scope list_scope.
Local Open Scope Z_scope.

(** ** Strings *)

Module JsString.

Definition str := list ascii.

Definition txt (s : string) : str := list_ascii_of_string s.
Arguments txt s%_string_scope.

Definition nl : ascii := ascii_of_nat 10.
Definition dq : ascii := ascii_of_nat 34.

Definition code (c : ascii) : nat := nat_of_ascii c.

Definition ascii_eqb (a b : ascii) : bool := Ascii.eqb a b.

Fixpoint str_eqb (a b : str) : bool :=
  match a, b with
  | [], [] => true
  | x :: a', y :: b' => ascii_eqb x y && str_eqb a' b'
  | _, _ => false
  end.

(** [\d] *)
Definition is_digit (c : ascii) : bool :=
  (48 <=? code c)%nat && (code c <=? 57)%nat.

(** [\s] and the characters [trim] strips, among the code units below 256:
    tab, line feed, vertical tab, form feed, carriage return, space and
    the no-break space. *)
Definition is_space (c : ascii) : bool :=
  let n := code c in
  ((9 <=? n)%nat && (n <=? 13)%nat) || (n =? 32)%nat || (n =? 160)%nat.

(** [[\d.]] *)
Definition is_digit_or_dot (c : ascii) : bool :=
  is_digit c || (code c =? 46)%nat.

(** Canonicalisation of the [i] flag on ASCII letters. *)
Definition upcase (c : ascii) : ascii :=
  let n := code c in
  if (97 <=? n)%nat && (n <=? 122)%nat then ascii_of_nat (n - 32) else c.

Fixpoint drop_while (p : ascii -> bool) (s : str) : str :=
  match s with
  | c :: s' => if p c then drop_while p s' else s
  | [] => []
  end.

Fixpoint take_while (p : ascii -> bool) (s : str) : str :=
  match s with
  | c :: s' => if p c then c :: take_while p s' else []
  | [] => []
  end.

(** Every character. *)
Definition all_ascii : list ascii := map ascii_of_nat (seq 0 256).

(** [s] is empty or starts outside the class [p]. *)
Definition head_not (p : ascii -> bool) (s : str) : bool :=
  match s with
  | [] => true
  | y :: _ => negb (p y)
  end.

(** [String.prototype.trim] *)
Definition trim (s : str) : str :=
  rev (drop_while is_space (rev (drop_while is_space s))).

Fixpoint starts_with (p s : str) : bool :=
  match p, s with
  | [], _ => true
  | x :: p', y :: s' => ascii_eqb x y && starts_with p' s'
  | _ :: _, [] => false
  end.

(** [String.prototype.includes] *)
Fixpoint includes (s p : str) : bool :=
  starts_with p s ||
  match s with
  | [] => false
  | _ :: s' => includes s' p
  end.

(** [String.prototype.replace] with a string pattern: the first occurrence
    only.  The replacement strings of the script hold no [$]. *)
Fixpoint replace_first (s p r : str) : str :=
  if starts_with p s then r ++ skipn (length p) s
  else match s with
       | [] => []
       | c :: s' => c :: replace_first s' p r
       end.

(** [Array.prototype.join] *)
Fixpoint join (sep : str) (parts : list str) : str :=
  match parts with
  | [] => []
  | [p] => p
  | p :: ps => p ++ sep ++ join sep ps
  end.

End JsString.
Import JsString.

(** ** Regular expressions *)

Module Regex.

(** The fragment of the regular-expression syntax the script uses.  The
    quantifiers [*] and [+] are only ever applied to a character class
    ([\s], [\d], [[\d.]]); [?] is applied to a character and to a
    non-capturing group.  All quantifiers are greedy. *)
Inductive re : Type :=
| Chr (c : ascii)              (* a literal character *)
| Cls (p : ascii -> bool)      (* a character class *)
| Seq (r1 r2 : re)             (* r1 r2 *)
| Alt (r1 r2 : re)             (* r1|r2 *)
| Star (p : ascii -> bool)     (* class* *)
| Plus (p : ascii -> bool)     (* class+ *)
| Opt (r : re)                 (* r? *)
| Grp (n : nat) (r : re)       (* the n-th capturing group *)
| Eps.

(** Captures: group number and captured text, innermost-last. *)
Definition caps := list (nat * str).

(** A literal word, character by character. *)
Fixpoint Lit (w : str) : re :=
  match w with
  | [] => Eps
  | c :: w' => Seq (Chr c) (Lit w')
  end.

Definition chr_match (icase : bool) (c x : ascii) : bool :=
  if icase then ascii_eqb (upcase c) (upcase x) else ascii_eqb c x.

(** What remains of [s] after the literal word [w] at its head. *)
Fixpoint lit_rest (icase : bool) (w s : str) : option str :=
  match w with
  | [] => Some s
  | c :: w' =>
      match s with
      | x :: s' => if chr_match icase c x then lit_rest icase w' s' else None
      | [] => None
      end
  end.

(** All the ways [class*] can match at the head of [s], longest first:
    the remaining inputs. *)
Fixpoint star_cls (p : ascii -> bool) (s : str) : list str :=
  match s with
  | x :: s' => if p x then star_cls p s' ++ [s] else [s]
  | [] => [[]]
  end.

(** [matches icase r s]: every way [r] matches at the head of [s], in the
    order the backtracking matcher tries them; each success is the
    captures made and the input that remains. *)
Fixpoint matches (icase : bool) (r : re) (s : str) : list (caps * str) :=
  match r with
  | Chr c =>
      match s with
      | x :: s' => if chr_match icase c x then [([], s')] else []
      | [] => []
      end
  | Cls p =>
      match s with
      | x :: s' => if p x then [([], s')] else []
      | [] => []
      end
  | Seq r1 r2 =>
      flat_map (fun m1 : caps * str =>
                  map (fun m2 : caps * str => (fst m1 ++ fst m2, snd m2))
                      (matches icase r2 (snd m1)))
               (matches icase r1 s)
  | Alt r1 r2 => matches icase r1 s ++ matches icase r2 s
  | Star p => map (fun s' => ([], s')) (star_cls p s)
  | Plus p =>
      match s with
      | x :: s' => if p x then map (fun s'' => ([], s'')) (star_cls p s') else []
      | [] => []
      end
  | Opt r1 => matches icase r1 s ++ [([], s)]
  | Grp n r1 =>
      map (fun m : caps * str =>
             ((n, firstn (length s - length (snd m)) s) :: fst m, snd m))
          (matches icase r1 s)
  | Eps => [([], s)]
  end.

(** [r] matches no input that starts in the class [p]. *)
Definition rejects (icase : bool) (r : re) (p : ascii -> bool) : Prop :=
  forall x t, p x = true -> matches icase r (x :: t) = [].

(** A regular expression literal: [/^body/i] has [anchored] and [icase]
    set.  ([^] only ever stands at the head of a pattern in the script.) *)
Record regex : Type := mkRegex {
  anchored : bool;
  icase : bool;
  body : re
}.

(** The first match at the head of [s]. *)
Definition match_here (r : regex) (s : str) : option (caps * str) :=
  hd_error (matches (icase r) (body r) s).

(** The leftmost match in [s]: the text skipped, the captures, the rest. *)
Fixpoint search (r : regex) (s : str) : option (str * caps * str) :=
  match match_here r s with
  | Some (c, rest) => Some ([], c, rest)
  | None =>
      match s with
      | [] => None
      | x :: s' =>
          match search r s' with
          | Some (pre, c, rest) => Some (x :: pre, c, rest)
          | None => None
          end
      end
  end.

(** [String.prototype.match] for a regex without the [g] flag: the
    captures of the leftmost match, or [None] for [null]. *)
Definition exec (r : regex) (s : str) : option caps :=
  if anchored r then
    match match_here r s with
    | Some (c, _) => Some c
    | None => None
    end
  else
    match search r s with
    | Some (_, c, _) => Some c
    | None => None
    end.

(** [m[n]] of a match result: [None] is [undefined]. *)
Fixpoint group (n : nat) (c : caps) : option str :=
  match c with
  | [] => None
  | (k, w) :: c' => if (k =? n)%nat then Some w else group n c'
  end.

(** [String.prototype.replace] with a [g]-flagged, unanchored regex and a
    replacement string: [skip] counts the characters of the current match
    still to be dropped. *)
Fixpoint replace_all (r : regex) (rep : str) (skip : nat) (s : str) : str :=
  match skip with
  | S k =>
      match s with
      | [] => []
      | _ :: s' => replace_all r rep k s'
      end
  | O =>
      match match_here r s with
      | Some (_, rest) =>
          match s with
          | [] => rep
          | x :: s' =>
              match (length s - length rest)%nat with
              | O => rep ++ x :: replace_all r rep 0 s'
              | S k => rep ++ replace_all r rep k s'
              end
          end
      | None =>
          match s with
          | [] => []
          | x :: s' => x :: replace_all r rep 0 s'
          end
      end
  end.

(** [String.prototype.split] with a regex separator that has no capturing
    group: [cur] is the current part, reversed; the end of the input is
    never tried as a separator. *)
Fixpoint split_go (r : regex) (skip : nat) (cur : str) (s : str) : list str :=
  match s with
  | [] => [rev cur]
  | x :: s' =>
      match skip with
      | S k => split_go r k cur s'
      | O =>
          match match_here r s with
          | Some (_, rest) =>
              match (length s - length rest)%nat with
              | O =>
                  match cur with
                  | [] => split_go r 0 [x] s'
                  | _ :: _ => rev cur :: split_go r 0 [x] s'
                  end
              | S k => rev cur :: split_go r k [] s'
              end
          | None => split_go r 0 (x :: cur) s'
          end
      end
  end.

Definition split (r : regex) (s : str) : list str :=
  match s with
  | [] => match match_here r [] with Some _ => [] | None => [[]] end
  | _ :: _ => split_go r 0 [] s
  end.

End Regex.
Import Regex.

(** ** Numbers *)

Module JsNumber.

(** An exact decimal: [mant * 10 ^ expo]. *)
Record dec : Type := mkDec { mant : Z; expo : Z }.

Inductive num : Type :=
| NaN
| Inf (neg : bool)
| Fin (d : dec).

Definition of_Z (z : Z) : num := Fin (mkDec z 0).

(** The rational a decimal stands for. *)
Definition dec_to_Q (d : dec) : Q :=
  if 0 <=? expo d then inject_Z (mant d * 10 ^ expo d)
  else Qmake (mant d) (Z.to_pos (10 ^ (- expo d))).

Definition dec_add (a b : dec) : dec :=
  let e := Z.min (expo a) (expo b) in
  mkDec (mant a * 10 ^ (expo a - e) + mant b * 10 ^ (expo b - e)) e.

Definition dec_mul (a b : dec) : dec :=
  mkDec (mant a * mant b) (expo a + expo b).

(** [x + y] *)
Definition add (x y : num) : num :=
  match x, y with
  | NaN, _ | _, NaN => NaN
  | Inf a, Inf b => if Bool.eqb a b then Inf a else NaN
  | Inf a, Fin _ => Inf a
  | Fin _, Inf b => Inf b
  | Fin a, Fin b => Fin (dec_add a b)
  end.

(** [x * y] *)
Definition mul (x y : num) : num :=
  match x, y with
  | NaN, _ | _, NaN => NaN
  | Inf a, Inf b => Inf (xorb a b)
  | Inf a, Fin d | Fin d, Inf a =>
      if mant d =? 0 then NaN else Inf (xorb a (mant d <? 0))
  | Fin a, Fin b => Fin (dec_mul a b)
  end.

(** [x / 100]: on a decimal, two places down. *)
Definition div100 (x : num) : num :=
  match x with
  | NaN => NaN
  | Inf a => Inf a
  | Fin d => Fin (mkDec (mant d) (expo d - 2))
  end.

(** [isNaN(x)] *)
Definition isNaN (x : num) : bool :=
  match x with NaN => true | _ => false end.

(** [x > 0] *)
Definition gt0 (x : num) : bool :=
  match x with
  | NaN => false
  | Inf a => negb a
  | Fin d => 0 <? mant d
  end.

(** [x < 0] *)
Definition lt0 (x : num) : bool :=
  match x with
  | NaN => false
  | Inf a => a
  | Fin d => mant d <? 0
  end.

Definition is_zero (x : num) : bool :=
  match x with
  | Fin d => mant d =? 0
  | _ => false
  end.

(** floor (d + 1/2): the integer nearest to [d], ties towards +infinity. *)
Definition round_half_up (d : dec) : Z :=
  if 0 <=? expo d then mant d * 10 ^ expo d
  else (2 * mant d + 10 ^ (- expo d)) / (2 * 10 ^ (- expo d)).

(** [Math.round(x)] *)
Definition Math_round (x : num) : num :=
  match x with
  | Fin d => of_Z (round_half_up d)
  | _ => x
  end.

Definition digit_val (c : ascii) : Z := Z.of_nat (code c - 48).

Definition digits_val (ds : str) : Z :=
  fold_left (fun acc c => 10 * acc + digit_val c) ds 0.

Definition is_char (k : nat) (c : ascii) : bool := (code c =? k)%nat.

(** An optional sign: whether it is a minus, and what follows it. *)
Definition read_sign (s : str) : bool * str :=
  match s with
  | c :: t =>
      if is_char 45 c then (true, t)
      else if is_char 43 c then (false, t)
      else (false, s)
  | [] => (false, s)
  end.

Definition signed (neg : bool) (z : Z) : Z := if neg then - z else z.

(** The exponent part [e[+-]digits] at the head of [s], 0 when there is
    none or it is incomplete. *)
Definition read_exponent (s : str) : Z :=
  match s with
  | c :: t =>
      if is_char 101 c || is_char 69 c then
        let (neg, t') := read_sign t in
        match take_while is_digit t' with
        | [] => 0
        | ds => signed neg (digits_val ds)
        end
      else 0
  | [] => 0
  end.

(** [parseFloat(s)]: leading white space is skipped, then the longest
    prefix that is a decimal literal is read. *)
Definition parseFloat (s : str) : num :=
  let (neg, s2) := read_sign (drop_while is_space s) in
  if starts_with (txt "Infinity") s2 then Inf neg
  else
    let ip := take_while is_digit s2 in
    let s3 := drop_while is_digit s2 in
    let fp := match s3 with
              | c :: t => if is_char 46 c then take_while is_digit t else []
              | [] => []
              end in
    let s4 := match s3 with
              | c :: t => if is_char 46 c then drop_while is_digit t else s3
              | [] => s3
              end in
    match ip ++ fp with
    | [] => NaN
    | ds => Fin (mkDec (signed neg (digits_val ds))
                       (read_exponent s4 - Z.of_nat (length fp)))
    end.

(** [parseInt(s, 10)] *)
Definition parseInt (s : str) : num :=
  let (neg, s2) := read_sign (drop_while is_space s) in
  match take_while is_digit s2 with
  | [] => NaN
  | ds => of_Z (signed neg (digits_val ds))
  end.

(** The decimal digits of a natural number. *)
Definition digits_of (n : Z) : str :=
  list_ascii_of_string (NilZero.string_of_uint (N.to_uint (Z.to_N n))).

Definition zero_char : ascii := ascii_of_nat 48.

Definition zeros (k : nat) : str := repeat zero_char k.

Definition strip_trailing_zeros (ds : str) : str :=
  rev (drop_while (is_char 48) (rev ds)).

(** [Number::toString] of a positive decimal: with [s] the digits of the
    mantissa without trailing zeros, [k] their number and [n] the position
    of the decimal point. *)
Definition pos_to_string (d : dec) : str :=
  let all := digits_of (mant d) in
  let s := strip_trailing_zeros all in
  let k := Z.of_nat (length s) in
  let n := Z.of_nat (length all) + expo d in
  if (k <=? n) && (n <=? 21) then s ++ zeros (Z.to_nat (n - k))
  else if (0 <? n) && (n <=? 21) then
    firstn (Z.to_nat n) s ++ txt "." ++ skipn (Z.to_nat n) s
  else if (-6 <? n) && (n <=? 0) then
    txt "0." ++ zeros (Z.to_nat (- n)) ++ s
  else
    let e := (if 0 <=? n - 1 then txt "e+" else txt "e-")
             ++ digits_of (Z.abs (n - 1)) in
    match s with
    | [c] => c :: e
    | c :: s' => c :: txt "." ++ s' ++ e
    | [] => e
    end.

Definition dec_neg (d : dec) : dec := mkDec (- mant d) (expo d).

(** [Number::toString(x)] *)
Definition to_string (x : num) : str :=
  match x with
  | NaN => txt "NaN"
  | Inf false => txt "Infinity"
  | Inf true => txt "-Infinity"
  | Fin d =>
      if mant d =? 0 then txt "0"
      else if mant d <? 0 then txt "-" ++ pos_to_string (dec_neg d)
      else pos_to_string d
  end.

(** [d >= 10 ^ 21] *)
Definition ge_1e21 (d : dec) : bool :=
  if 0 <=? expo d then 10 ^ 21 <=? mant d * 10 ^ expo d
  else 10 ^ (21 - expo d) <=? mant d.

(** The fixed notation with two fraction digits of a decimal [d >= 0]. *)
Definition fixed2 (d : dec) : str :=
  let m := digits_of (round_half_up (mkDec (mant d) (expo d + 2))) in
  let m' := zeros (3 - length m) ++ m in
  firstn (length m' - 2) m' ++ txt "." ++ skipn (length m' - 2) m'.

(** [x.toFixed(2)] *)
Definition toFixed2 (x : num) : str :=
  match x with
  | Fin d =>
      let s := if mant d <? 0 then txt "-" else [] in
      let a := if mant d <? 0 then dec_neg d else d in
      if ge_1e21 a then s ++ to_string (Fin a) else s ++ fixed2 a
  | _ => to_string x
  end.

End JsNumber.
Import JsNumber.

(** ** Values, exceptions and the data model of [content.js] *)

Module Js.

(** A property value of a segment object. *)
Inductive jsv : Type :=
| Undefined
| Null
| Num (n : num).

(** [if (v)] *)
Definition truthy (v : jsv) : bool :=
  match v with
  | Num n => negb (isNaN n) && negb (is_zero n)
  | _ => false
  end.

(** [`${v}`] *)
Definition show (v : jsv) : str :=
  match v with
  | Undefined => txt "undefined"
  | Null => txt "null"
  | Num n => to_string n
  end.

(** [a || b] *)
Definition or_else (a b : jsv) : jsv := if truthy a then a else b.

(** The outcome of code that can raise. *)
Inductive result (A : Type) : Type :=
| Ok (a : A)
| TypeError.
Arguments Ok {A} a.
Arguments TypeError {A}.

Definition bind {A B : Type} (m : result A) (f : A -> result B) : result B :=
  match m with
  | Ok a => f a
  | TypeError => TypeError
  end.

(** [try { m } catch (error) { h }] *)
Definition try_catch {A : Type} (m : result A) (h : A) : result A :=
  match m with
  | Ok a => Ok a
  | TypeError => Ok h
  end.

(** [v.toFixed(2)]: raises on [undefined] and [null]. *)
Definition toFixed (v : jsv) : result str :=
  match v with
  | Num n => Ok (toFixed2 n)
  | _ => TypeError
  end.

(** A segment object: its [type] and the properties the script reads or
    writes; a property the object lacks is [Undefined]. *)
Record segment : Type := mkSegment {
  type : str;
  duration : jsv;
  power : jsv;
  powerLow : jsv;
  powerHigh : jsv;
  cadence : jsv;
  repeat : jsv;
  onDuration : jsv;
  onPower : jsv;
  offDuration : jsv;
  offPower : jsv;
  onCadence : jsv;
  offCadence : jsv;
  flatRoad : jsv
}.

(** The object with only [type] set. *)
Definition object (t : str) : segment :=
  mkSegment t Undefined Undefined Undefined Undefined Undefined Undefined
            Undefined Undefined Undefined Undefined Undefined Undefined
            Undefined.

(** What [parseSegment] reads of a DOM element: its [innerText] ([None]
    where the platform has none), its [textContent], and the [data-value]
    attributes of its [span[data-value]] descendants in document order. *)
Record element : Type := mkElement {
  innerText : option str;
  textContent : option str;
  spans : list str
}.

(** [spans[i].dataset.value]: raises when there is no such span. *)
Definition span_value (sp : list str) (i : nat) : result str :=
  match nth_error sp i with
  | Some v => Ok v
  | None => TypeError
  end.

(** [a || b] on a string that may be absent. *)
Definition or_str (a : option str) (b : str) : str :=
  match a with
  | Some (c :: s) => c :: s
  | _ => b
  end.

(** [m && m[1]] as a condition, with the captured text. *)
Definition capture (n : nat) (m : option caps) : option str :=
  match m with
  | Some c =>
      match group n c with
      | Some (x :: w) => Some (x :: w)
      | _ => None
      end
  | None => None
  end.

(** [m[n]] as an argument of [parseInt] and [parseFloat]: [undefined]
    reads as the text "undefined". *)
Definition group_text (n : nat) (c : caps) : str :=
  match group n c with
  | Some w => w
  | None => txt "undefined"
  end.

End Js.
Import Js.

(** ** The regular expressions of [content.js] *)

Module Patterns.

Notation "r1 ;; r2" := (Seq r1 r2) (at level 61, right associativity).

Definition word (s : string) : re := Lit (txt s).

Definition ws_star : re := Star is_space.
Definition ws_plus : re := Plus is_space.
Definition digits : re := Plus is_digit.
Definition number : re := Plus is_digit_or_dot.

(** [[\d.]+\s*min(?:\s+\d+sec)?|\d+\s*sec] *)
Definition dur : re :=
  Alt (number ;; ws_star ;; word "min" ;;
       Opt (ws_plus ;; digits ;; word "sec"))
      (digits ;; ws_star ;; word "sec").

(** [/([\d.]+)\s*min/i] *)
Definition re_min : regex :=
  mkRegex false true (Grp 1 number ;; ws_star ;; word "min").

(** [/([\d.]+)\s*sec/i] *)
Definition re_sec : regex :=
  mkRegex false true (Grp 1 number ;; ws_star ;; word "sec").

(** [/(\d+)\s*rpm/i] *)
Definition re_rpm : regex :=
  mkRegex false true (Grp 1 digits ;; ws_star ;; word "rpm").

(** [/^([\d.]+)\s*(min|sec)\s+free\s+ride/i] *)
Definition re_freeRide : regex :=
  mkRegex true true
    (Grp 1 number ;; ws_star ;; Grp 2 (Alt (word "min") (word "sec")) ;;
     ws_plus ;; word "free" ;; ws_plus ;; word "ride").

(** [/^([\d.]+\s*min(?:\s+\d+sec)?|\d+\s*sec)\s+@\s+\d+rpm,\s+from\s+/i] *)
Definition re_rampCadence : regex :=
  mkRegex true true
    (Grp 1 dur ;; ws_plus ;; word "@" ;; ws_plus ;; digits ;; word "rpm," ;;
     ws_plus ;; word "from" ;; ws_plus).

(** [/^([\d.]+\s*min(?:\s+\d+sec)?|\d+\s*sec)\s+from\s+/i] *)
Definition re_ramp : regex :=
  mkRegex true true (Grp 1 dur ;; ws_plus ;; word "from" ;; ws_plus).

(** [/^([\d.]+\s*min(?:\s+\d+sec)?|\d+\s*sec)\s+@\s+/i] *)
Definition re_steady : regex :=
  mkRegex true true (Grp 1 dur ;; ws_plus ;; word "@" ;; ws_plus).

(** [/^(\d+)x\s+([\d.]+\s*min(?:\s+\d+sec)?|\d+\s*sec)\s+@/i] *)
Definition re_interval : regex :=
  mkRegex true true
    (Grp 1 digits ;; word "x" ;; ws_plus ;; Grp 2 dur ;; ws_plus ;; word "@").

(** [/@\s+(\d+)\s*rpm/i] *)
Definition re_onCadence : regex :=
  mkRegex false true
    (word "@" ;; ws_plus ;; Grp 1 digits ;; ws_star ;; word "rpm").

(** [/<br\s*\/?>|\n/gi] *)
Definition re_br : regex :=
  mkRegex false true
    (Alt (word "<br" ;; ws_star ;; Opt (word "/") ;; word ">") (Chr nl)).

(** [/,\s*/] *)
Definition re_comma : regex :=
  mkRegex false false (word "," ;; ws_star).

(** [/([\d.]+\s*min(?:\s+\d+sec)?|\d+\s*sec)/i] *)
Definition re_offDuration : regex := mkRegex false true (Grp 1 dur).

(** [/^([\d.]+\s*min(?:\s+\d+sec)?|\d+\s*sec)/i] *)
Definition re_duration : regex := mkRegex true true (Grp 1 dur).

End Patterns.
Import Patterns.

(** ** [content.js] *)

Module Content.

(** The value [parseDuration] computes before its final check
    (lines 13-34): [duration]. *)
Definition rawDuration (s : str) : num :=
  if includes s (txt "min") && includes s (txt "sec") then
    let minMatch := exec re_min s in
    let secMatch := exec re_sec s in
    let minutes := match capture 1 minMatch with
                   | Some w => parseFloat w
                   | None => of_Z 0
                   end in
    let seconds := match capture 1 secMatch with
                   | Some w => parseFloat w
                   | None => of_Z 0
                   end in
    add (mul minutes (of_Z 60)) seconds
  else
    let minMatch := exec re_min s in
    let secMatch := exec re_sec s in
    match capture 1 minMatch with
    | Some w => mul (parseFloat w) (of_Z 60)
    | None =>
        match capture 1 secMatch with
        | Some w => parseFloat w
        | None => of_Z 0
        end
    end.

(** [parseDuration(durationStr)]; [None] is [null] or [undefined]. *)
Definition parseDuration (durationStr : option str) : num :=
  match durationStr with
  | None | Some [] => of_Z 0
  | Some s =>
      let duration := rawDuration s in
      if isNaN duration || lt0 duration then of_Z 0
      else Math_round duration
  end.

(** [{ type: 'FreeRide', duration, flatRoad: 1 }] *)
Definition FreeRide (d : num) : segment :=
  mkSegment (txt "FreeRide") (Num d) Undefined Undefined Undefined Undefined
            Undefined Undefined Undefined Undefined Undefined Undefined
            Undefined (Num (of_Z 1)).

(** [{ type: 'Ramp', duration, powerLow, powerHigh, cadence }] *)
Definition Ramp (d lo hi : num) (cad : jsv) : segment :=
  mkSegment (txt "Ramp") (Num d) Undefined (Num lo) (Num hi) cad
            Undefined Undefined Undefined Undefined Undefined Undefined
            Undefined Undefined.

(** [{ type: 'SteadyState', duration, power, cadence }] *)
Definition SteadyState (d p : num) (cad : jsv) : segment :=
  mkSegment (txt "SteadyState") (Num d) (Num p) Undefined Undefined cad
            Undefined Undefined Undefined Undefined Undefined Undefined
            Undefined Undefined.

(** [{ type: 'IntervalsT', repeat, onDuration, onPower, offDuration,
       offPower, onCadence, offCadence }] *)
Definition IntervalsT (rep ond onp offd offp : num) (onc offc : jsv)
  : segment :=
  mkSegment (txt "IntervalsT") Undefined Undefined Undefined Undefined
            Undefined (Num rep) (Num ond) (Num onp) (Num offd) (Num offp)
            onc offc Undefined.

(** Line 45: [(element.innerText || element.textContent || '').trim()] *)
Definition text_of (e : element) : str :=
  trim (or_str (innerText e) (or_str (textContent e) [])).

(** Lines 49-50: the cadence found anywhere in the text. *)
Definition cadence_of (text : str) : jsv :=
  match exec re_rpm text with
  | Some m => Num (parseInt (group_text 1 m))
  | None => Null
  end.

(** Lines 52-60: the Free Ride rule. *)
Definition rule_freeRide (text : str) : option segment :=
  match exec re_freeRide text with
  | Some m =>
      let durationStr := group_text 1 m ++ group_text 2 m in
      let duration := parseDuration (Some durationStr) in
      if gt0 duration then Some (FreeRide duration) else None
  | None => None
  end.

(** Lines 63-64: the two Ramp patterns, the one with a cadence first. *)
Definition rampMatch (text : str) : option caps :=
  match exec re_rampCadence text with
  | Some m => Some m
  | None => exec re_ramp text
  end.

(** Lines 66-78: the Ramp rule; what it raises is caught and logged. *)
Definition rule_ramp (text : str) (sp : list str) (cad : jsv)
  : result (option segment) :=
  match rampMatch text with
  | Some m =>
      if (length sp =? 2)%nat then
        try_catch
          (let duration := parseDuration (group 1 m) in
           bind (span_value sp 0) (fun v0 =>
           let powerLow := div100 (parseFloat v0) in
           bind (span_value sp 1) (fun v1 =>
           let powerHigh := div100 (parseFloat v1) in
           if gt0 duration && negb (isNaN powerLow) && negb (isNaN powerHigh)
           then Ok (Some (Ramp duration powerLow powerHigh cad))
           else Ok None)))
          None
      else Ok None
  | None => Ok None
  end.

(** Lines 81-89: the Steady State rule. *)
Definition rule_steady (text : str) (sp : list str) (cad : jsv)
  : result (option segment) :=
  match exec re_steady text with
  | Some m =>
      if (length sp =? 1)%nat then
        let duration := parseDuration (group 1 m) in
        bind (span_value sp 0) (fun v0 =>
        let power := div100 (parseFloat v0) in
        if gt0 duration && negb (isNaN power)
        then Ok (Some (SteadyState duration power cad))
        else Ok None)
      else Ok None
  | None => Ok None
  end.

(** Lines 106-112: the text after the first comma, [<br>] or line break,
    when there is one. *)
Definition off_text (text : str) : option str :=
  let normalizedText := replace_all re_br (txt ",") 0 text in
  let parts := split re_comma normalizedText in
  if (1 <? length parts)%nat then Some (join (txt ",") (tl parts))
  else None.

(** Lines 92-131: the Intervals rule; what it raises is caught and
    logged. *)
Definition rule_intervals (text : str) (sp : list str)
  : result (option segment) :=
  match exec re_interval text with
  | Some m =>
      if (length sp =? 2)%nat then
        try_catch
          (let repeat := parseInt (group_text 1 m) in
           let onDuration := parseDuration (group 2 m) in
           bind (span_value sp 0) (fun v0 =>
           let onPower := div100 (parseFloat v0) in
           bind (span_value sp 1) (fun v1 =>
           let offPower := div100 (parseFloat v1) in
           let onCadence :=
             match exec re_onCadence text with
             | Some c => Num (parseInt (group_text 1 c))
             | None => Null
             end in
           let offDuration :=
             match off_text text with
             | Some offText =>
                 match exec re_offDuration offText with
                 | Some d => parseDuration (group 1 d)
                 | None => of_Z 0
                 end
             | None => of_Z 0
             end in
           let offCadence :=
             match off_text text with
             | Some offText =>
                 match exec re_rpm offText with
                 | Some c => Num (parseInt (group_text 1 c))
                 | None => Null
                 end
             | None => Null
             end in
           if negb (isNaN repeat) && gt0 onDuration && negb (isNaN onPower)
              && gt0 offDuration && negb (isNaN offPower)
           then Ok (Some (IntervalsT repeat onDuration onPower offDuration
                                     offPower onCadence offCadence))
           else Ok None)))
          None
      else Ok None
  | None => Ok None
  end.

(** Lines 135-144: the fallback for a single span. *)
Definition rule_fallback (text : str) (sp : list str) (cad : jsv)
  : result (option segment) :=
  if (length sp =? 1)%nat then
    match exec re_duration text with
    | Some m =>
        let duration := parseDuration (group 1 m) in
        bind (span_value sp 0) (fun v0 =>
        let power := div100 (parseFloat v0) in
        if gt0 duration && negb (isNaN power)
        then Ok (Some (SteadyState duration power cad))
        else Ok None)
    | None => Ok None
    end
  else Ok None.

(** [r1] returns its segment; otherwise control reaches [r2]. *)
Definition or_next (r1 r2 : result (option segment))
  : result (option segment) :=
  match r1 with
  | Ok None => r2
  | _ => r1
  end.

(** [parseSegment(element)]: [Ok None] is the [null] it returns for a
    fragment it cannot classify. *)
Definition parseSegment (e : element) : result (option segment) :=
  let text := text_of e in
  let sp := spans e in
  let cad := cadence_of text in
  or_next (Ok (rule_freeRide text))
 (or_next (rule_ramp text sp cad)
 (or_next (rule_steady text sp cad)
 (or_next (rule_intervals text sp)
          (rule_fallback text sp cad)))).

(** [name="value"] *)
Definition attr (name : string) (value : str) : str :=
  txt name ++ txt "=" ++ [dq] ++ value ++ [dq].

(** [if (v) { xml += ` name="${v}"` }] *)
Definition opt_attr (name : string) (v : jsv) : str :=
  if truthy v then txt " " ++ attr name (show v) else [].

(** Lines 150-157: the document up to the first segment. *)
Definition header (workoutName href : str) : str :=
  [nl] ++ txt "    <workout_file>" ++ [nl]
  ++ txt "        <author>WhatsOnZwift Exporter</author>" ++ [nl]
  ++ txt "        <name>" ++ workoutName ++ txt "</name>" ++ [nl]
  ++ txt "        <description>Workout exported from WhatsOnZwift: " ++ href
  ++ txt "</description>" ++ [nl]
  ++ txt "        <sportType>bike</sportType>" ++ [nl]
  ++ txt "        <tags/>" ++ [nl]
  ++ txt "        <workout>" ++ [nl].

(** Lines 226-227 *)
Definition footer : str :=
  txt "    </workout>" ++ [nl] ++ txt "</workout_file>".

(** Lines 161-174: the tag of the element at [index] of [n]. *)
Definition tag_at (n index : nat) (seg : segment) : str :=
  if (index =? 0)%nat then txt "Warmup"
  else if (index =? n - 1)%nat && (1 <? n)%nat then txt "Cooldown"
  else type seg.

(** Lines 168-179: [segmentToProcess.originalType || segmentToProcess.type];
    [originalType] is set only where the tag is overridden. *)
Definition original_type (n index : nat) (seg : segment) : str :=
  if (index =? 0)%nat || ((index =? n - 1)%nat && (1 <? n)%nat) then
    match type seg with
    | [] => tag_at n index seg
    | c :: t => c :: t
    end
  else type seg.

(** Lines 159-224: the body of the [forEach] callback, on the document
    built so far. *)
Definition emit (n : nat) (xml : str) (index : nat) (seg : segment)
  : result str :=
  let tag := tag_at n index seg in
  let xml1 := xml ++ txt "        <" ++ tag ++ txt " " in
  let originalType := original_type n index seg in
  bind
    (if str_eqb originalType (txt "Ramp") then
       bind (toFixed (powerLow seg)) (fun lo =>
       bind (toFixed (powerHigh seg)) (fun hi =>
       Ok (xml1 ++ attr "Duration" (show (duration seg)) ++ txt " "
                ++ attr "PowerLow" lo ++ txt " " ++ attr "PowerHigh" hi
                ++ opt_attr "Cadence" (cadence seg))))
     else if str_eqb originalType (txt "SteadyState") then
       bind (toFixed (power seg)) (fun p =>
       Ok (xml1 ++ attr "Duration" (show (duration seg)) ++ txt " "
                ++ attr "Power" p
                ++ opt_attr "Cadence" (cadence seg)))
     else if str_eqb originalType (txt "IntervalsT") then
       bind (toFixed (onPower seg)) (fun onp =>
       bind (toFixed (offPower seg)) (fun offp =>
       Ok (xml1 ++ attr "Repeat" (show (repeat seg)) ++ txt " "
                ++ attr "OnDuration" (show (onDuration seg)) ++ txt " "
                ++ attr "OnPower" onp ++ txt " "
                ++ attr "OffDuration" (show (offDuration seg)) ++ txt " "
                ++ attr "OffPower" offp
                ++ opt_attr "OnCadence" (onCadence seg)
                ++ opt_attr "OffCadence" (offCadence seg))))
     else if str_eqb originalType (txt "FreeRide") then
       Ok (xml1 ++ attr "Duration" (show (duration seg)) ++ txt " "
                ++ attr "FlatRoad" (show (or_else (flatRoad seg)
                                                  (Num (of_Z 1))))
                ++ opt_attr "Cadence" (cadence seg))
     else if truthy (duration seg) then
       Ok (xml1 ++ attr "Duration" (show (duration seg)) ++ txt " "
                ++ attr "Power" (txt "0.50")
                ++ opt_attr "Cadence" (cadence seg))
     else
       Ok (replace_first xml1 (txt "<" ++ tag ++ txt " ")
                         (txt "<SteadyState ")
           ++ attr "Duration" (txt "60") ++ txt " "
           ++ attr "Power" (txt "0.50")))
    (fun xml2 => Ok (xml2 ++ txt " />" ++ [nl])).

(** [segments.forEach(...)] from [index] on. *)
Fixpoint emit_all (n : nat) (xml : str) (index : nat) (segs : list segment)
  : result str :=
  match segs with
  | [] => Ok xml
  | seg :: rest =>
      bind (emit n xml index seg) (fun xml' =>
      emit_all n xml' (S index) rest)
  end.

(** [generateZWO(workoutName, segments)]; [href] is
    [window.location.href]. *)
Definition generateZWO (workoutName href : str) (segments : list segment)
  : result str :=
  bind (emit_all (length segments) (header workoutName href) 0 segments)
       (fun xml => Ok (xml ++ footer)).

End Content.
Import Content.

(** ** What the specification says, for comparison with the code *)

Module Spec.

(** The four kinds the classifier produces. *)
Definition known_kind (t : str) : bool :=
  str_eqb t (txt "Ramp") || str_eqb t (txt "SteadyState")
  || str_eqb t (txt "IntervalsT") || str_eqb t (txt "FreeRide").

(** The tag the position of a segment gives it: "lead" for the first,
    "trail" for the last of more than one, the intrinsic kind otherwise. *)
Definition boundary_tag (n i : nat) (seg : segment) : str :=
  match i with
  | O => txt "Warmup"
  | S _ => if (S i =? n)%nat then txt "Cooldown" else type seg
  end.

(** The attributes of a segment, a function of the segment alone. *)
Definition attributes (seg : segment) : result str :=
  if str_eqb (type seg) (txt "Ramp") then
    bind (toFixed (powerLow seg)) (fun lo =>
    bind (toFixed (powerHigh seg)) (fun hi =>
    Ok (attr "Duration" (show (duration seg)) ++ txt " "
        ++ attr "PowerLow" lo ++ txt " " ++ attr "PowerHigh" hi
        ++ opt_attr "Cadence" (cadence seg))))
  else if str_eqb (type seg) (txt "SteadyState") then
    bind (toFixed (power seg)) (fun p =>
    Ok (attr "Duration" (show (duration seg)) ++ txt " " ++ attr "Power" p
        ++ opt_attr "Cadence" (cadence seg)))
  else if str_eqb (type seg) (txt "IntervalsT") then
    bind (toFixed (onPower seg)) (fun onp =>
    bind (toFixed (offPower seg)) (fun offp =>
    Ok (attr "Repeat" (show (repeat seg)) ++ txt " "
        ++ attr "OnDuration" (show (onDuration seg)) ++ txt " "
        ++ attr "OnPower" onp ++ txt " "
        ++ attr "OffDuration" (show (offDuration seg)) ++ txt " "
        ++ attr "OffPower" offp
        ++ opt_attr "OnCadence" (onCadence seg)
        ++ opt_attr "OffCadence" (offCadence seg))))
  else if str_eqb (type seg) (txt "FreeRide") then
    Ok (attr "Duration" (show (duration seg)) ++ txt " "
        ++ attr "FlatRoad" (show (or_else (flatRoad seg) (Num (of_Z 1))))
        ++ opt_attr "Cadence" (cadence seg))
  else if truthy (duration seg) then
    Ok (attr "Duration" (show (duration seg)) ++ txt " "
        ++ attr "Power" (txt "0.50") ++ opt_attr "Cadence" (cadence seg))
  else
    Ok (attr "Duration" (txt "60") ++ txt " " ++ attr "Power" (txt "0.50")).

(** A segment of no known kind and without a duration: the serializer's
    last-resort default. *)
Definition last_resort (seg : segment) : bool :=
  negb (known_kind (type seg)) && negb (truthy (duration seg)).

Definition element_line (tag attrs : str) : str :=
  txt "        <" ++ tag ++ txt " " ++ attrs ++ txt " />" ++ [nl].

(** The elements for the segments at positions [i], [i+1], ... of [n]. *)
Fixpoint body_lines (n i : nat) (segs : list segment) : result str :=
  match segs with
  | [] => Ok []
  | seg :: rest =>
      bind (attributes seg) (fun a =>
      bind (body_lines n (S i) rest) (fun b =>
      Ok (element_line (boundary_tag n i seg) a ++ b)))
  end.

(** The document: skeleton around one element per segment. *)
Definition serialize (name href : str) (segs : list segment) : result str :=
  bind (body_lines (length segs) 0 segs) (fun b =>
  Ok (header name href ++ b ++ footer)).

(** Standard XML escaping of text content. *)
Fixpoint xml_escape (s : str) : str :=
  match s with
  | [] => []
  | c :: s' =>
      (if is_char 38 c then txt "&amp;"
       else if is_char 60 c then txt "&lt;"
       else if is_char 62 c then txt "&gt;"
       else [c]) ++ xml_escape s'
  end.

(** A property that holds a number above zero. *)
Definition above_zero (v : jsv) : bool :=
  match v with Num n => gt0 n | _ => false end.

(** A property that holds a number other than NaN. *)
Definition a_number (v : jsv) : bool :=
  match v with Num n => negb (isNaN n) | _ => false end.

(** A segment whose derived numbers passed validation. *)
Definition validated (seg : segment) : bool :=
  if str_eqb (type seg) (txt "FreeRide") then above_zero (duration seg)
  else if str_eqb (type seg) (txt "Ramp") then
    above_zero (duration seg) && a_number (powerLow seg)
    && a_number (powerHigh seg)
  else if str_eqb (type seg) (txt "SteadyState") then
    above_zero (duration seg) && a_number (power seg)
  else if str_eqb (type seg) (txt "IntervalsT") then
    a_number (repeat seg) && above_zero (onDuration seg)
    && a_number (onPower seg) && above_zero (offDuration seg)
    && a_number (offPower seg)
  else false.

(** A cadence of 0 read as no cadence at all. *)
Definition clear_zero (v : jsv) : jsv :=
  match v with
  | Num n => if is_zero n then Undefined else v
  | _ => v
  end.

Definition without_zero_cadence (seg : segment) : segment :=
  mkSegment (type seg) (duration seg) (power seg) (powerLow seg)
            (powerHigh seg) (clear_zero (cadence seg)) (repeat seg)
            (onDuration seg) (onPower seg) (offDuration seg) (offPower seg)
            (clear_zero (onCadence seg)) (clear_zero (offCadence seg))
            (flatRoad seg).

(** A FreeRide segment that carries a cadence. *)
Definition FreeRide_with_cadence (d : num) (cad : jsv) : segment :=
  mkSegment (txt "FreeRide") (Num d) Undefined Undefined Undefined cad
            Undefined Undefined Undefined Undefined Undefined Undefined
            Undefined (Num (of_Z 1)).

(** Digits, a dot and exactly two digits, after an optional minus. *)
Definition two_decimals (s : str) : bool :=
  let s' := match s with
            | c :: t => if is_char 45 c then t else s
            | [] => s
            end in
  match rev s' with
  | c2 :: c1 :: dot :: ip =>
      is_digit c2 && is_digit c1 && is_char 46 dot
      && negb (length ip =? 0)%nat && forallb is_digit ip
  | _ => false
  end.

(** The magnitudes [toFixed] writes in fixed notation. *)
Definition below_1e21 (x : num) : bool :=
  match x with
  | Fin d => negb (ge_1e21 (if mant d <? 0 then dec_neg d else d))
  | _ => false
  end.





(** What a rule or the classifier hands back: nothing, or a validated
    segment. *)
Definition validated_result (r : option segment) : bool :=
  match r with
  | Some seg => validated seg
  | None => true
  end.

(** The "on" half of an interval fragment: the text before the first
    comma, [<br>] or line break. *)
Definition on_half (text : str) : str :=
  hd [] (split re_comma (replace_all re_br (txt ",") 0 text)).


(** [u] is the word [w], in any mix of upper and lower case. *)
Definition reads_as (w : string) (u : str) : Prop :=
  Forall2 (fun c x => chr_match true c x = true) (txt w) u.

(** [s] holds no character [c]. *)
Definition lacks (c : ascii) (s : str) : bool :=
  forallb (fun x => negb (ascii_eqb c x)) s.

End Spec.
Import Spec.

(** ** [content.js]: the download button

    The workout name, the file name and the click handler (lines 250-252
    and 282-342).  Of the page the handler reads the FTP button, the
    [.textbar] elements, the heading and the address; of what it does the
    model keeps the click on the FTP button, the alerts and the call of
    [downloadFile], not the label of the button nor the console.
    [reformat] stands for the round trip through [DOMParser] and
    [XMLSerializer] of line 330, which does not raise: a document that is
    not well formed comes back as an error document. *)

Module Page.

(** The class [[a-z0-9_\-\s\.]] of line 331, as it is written. *)
Definition name_class (c : ascii) : bool :=
  ((97 <=? code c)%nat && (code c <=? 122)%nat) || is_digit c
  || is_char 95 c || is_char 45 c || is_space c || is_char 46 c.

(** A class under the [i] flag: a character is in it when it canonicalises
    to what a member of the class canonicalises to.  (Among the code units
    below 256 only the letters a-z canonicalise to a character of the
    class above other than themselves.) *)
Definition cls_i (p : ascii -> bool) (x : ascii) : bool :=
  existsb (fun m => p m && ascii_eqb (upcase m) (upcase x)) all_ascii.

(** [/[^a-z0-9_\-\s\.]/gi] *)
Definition re_unsafe : regex :=
  mkRegex false true (Cls (fun x => negb (cls_i name_class x))).

(** [/\s+/g] *)
Definition re_spaces : regex := mkRegex false false ws_plus.

(** Lines 250-252: [heading] is what
    [document.querySelector("h4.flaticon-bike")] finds. *)
Definition getWorkoutName (heading : option element) : str :=
  or_str match heading with
         | Some h => option_map trim (innerText h)
         | None => None
         end
         (txt "Zwift Workout").

(** Line 331: [safeFilename]. *)
Definition safeFilename (workoutName : str) : str :=
  replace_all re_spaces (txt "_") 0
    (replace_all re_unsafe (txt "_") 0 workoutName)
  ++ txt ".zwo".

(** Lines 301-312: the callback of [segmentElements.forEach], on
    [parsedSegments] and [parseWarnings]. *)
Definition parse_step (st : list segment * nat) (el : element)
  : list segment * nat :=
  let (parsedSegments, parseWarnings) := st in
  match parseSegment el with
  | Ok (Some segment) => (parsedSegments ++ [segment], parseWarnings)
  | Ok None => (parsedSegments, S parseWarnings)
  | TypeError => (parsedSegments, S parseWarnings)
  end.

(** Lines 298-313 *)
Definition parse_elements (segmentElements : list element)
  : list segment * nat :=
  fold_left parse_step segmentElements ([], 0%nat).

(** What the click handler reads of the page. *)
Record page : Type := mkPage {
  ftpButton : option element;
  textbars : list element;
  heading : option element;
  href : str
}.

(** What the click handler does that the user sees: the click on the FTP
    button (line 284), the alerts of lines 292, 316, 323 and 335, and the
    call [downloadFile(filename, content)] of line 332. *)
Inductive event : Type :=
| ClickFtp
| AlertNoSegments
| AlertNothingParsed
| AlertSkipped (parseWarnings : nat)
| AlertError
| Download (filename content : str).

(** Line 283: the FTP button still asks for the FTP. *)
Definition asks_for_ftp (button : option element) : bool :=
  match button with
  | Some b =>
      match innerText b with
      | Some t => includes t (txt "ENTER FTP")
      | None => false
      end
  | None => false
  end.

(** Lines 282-342: the click handler of the download button. *)
Definition on_click (reformat : str -> str) (p : page) : list event :=
  if asks_for_ftp (ftpButton p) then [ClickFtp]
  else
    match textbars p with
    | [] => [AlertNoSegments]
    | _ :: _ =>
        let (parsedSegments, parseWarnings) := parse_elements (textbars p) in
        match parsedSegments with
        | [] => [AlertNothingParsed]
        | _ :: _ =>
            (if (0 <? parseWarnings)%nat then [AlertSkipped parseWarnings]
             else [])
            ++ let workoutName := getWorkoutName (heading p) in
               match generateZWO workoutName (href p) parsedSegments with
               | Ok zwoContent =>
                   [Download (safeFilename workoutName) (reformat zwoContent)]
               | TypeError => [AlertError]
               end
        end
    end.

End Page.
Import Page.

(** ** Shapes of names and texts, for the statements below *)

Module Shape.

Definition is_letter (c : ascii) : bool :=
  ((65 <=? code c)%nat && (code c <=? 90)%nat)
  || ((97 <=? code c)%nat && (code c <=? 122)%nat).

(** A letter, a digit, [_], [-] or [.]. *)
Definition filename_char (c : ascii) : bool :=
  is_letter c || is_digit c || is_char 95 c || is_char 45 c || is_char 46 c.

(** What becomes of a character that is not white space in a file name. *)
Definition sanitize (c : ascii) : ascii :=
  if filename_char c then c else "_"%char.

Definition no_space (s : str) : bool :=
  forallb (fun c => negb (is_space c)) s.

(** The segments the classifier returns for the elements of a list, in
    the order of the list. *)
Definition classified (els : list element) : list segment :=
  flat_map (fun el => match parseSegment el with
                      | Ok (Some seg) => [seg]
                      | _ => []
                      end) els.

(** The number of elements the classifier returns no segment for. *)
Definition unparsed (els : list element) : nat :=
  length (filter (fun el => match parseSegment el with
                            | Ok (Some _) => false
                            | _ => true
                            end) els).


(** A property that holds a whole number, zero or more. *)
Definition count (v : jsv) : bool :=
  match v with
  | Num (Fin d) => (expo d =? 0) && (0 <=? mant d)
  | _ => false
  end.

Definition count_or_null (v : jsv) : bool :=
  match v with
  | Null => true
  | _ => count v
  end.


(** [u] is the word [w], in any mix of upper and lower case. *)
Fixpoint spelled (w u : str) : bool :=
  match w, u with
  | [], [] => true
  | c :: w', x :: u' => chr_match true c x && spelled w' u'
  | _, _ => false
  end.

(** A non-empty run of characters of a class. *)
Definition a_run (p : ascii -> bool) (w : str) : bool :=
  negb (length w =? 0)%nat && forallb p w.

(** The duration phrases: a number and "min"; a number, "min", a whole
    number and "sec"; a whole number and "sec". *)
Inductive phrase : Type :=
| Minutes (d w0 u : str)
| MinutesSeconds (d w0 u w1 s u2 : str)
| Seconds (s w0 u : str).

Definition phrase_text (p : phrase) : str :=
  match p with
  | Minutes d w0 u => d ++ w0 ++ u
  | MinutesSeconds d w0 u w1 s u2 => d ++ w0 ++ u ++ w1 ++ s ++ u2
  | Seconds s w0 u => s ++ w0 ++ u
  end.

Definition phrase_ok (p : phrase) : bool :=
  match p with
  | Minutes d w0 u =>
      a_run is_digit_or_dot d && forallb is_space w0
      && spelled (txt "min") u
  | MinutesSeconds d w0 u w1 s u2 =>
      a_run is_digit_or_dot d && forallb is_space w0
      && spelled (txt "min") u
      && a_run is_space w1 && a_run is_digit s && spelled (txt "sec") u2
  | Seconds s w0 u =>
      a_run is_digit s && forallb is_space w0 && spelled (txt "sec") u
  end.

(** What stands between the duration phrase and "from" in the text of a
    ramp: white space, or white space, "@", white space, a whole number,
    "rpm," and white space. *)
Inductive lead : Type :=
| Plain (w1 : str)
| Cadenced (w1 w2 n r w3 : str).

Definition lead_text (l : lead) : str :=
  match l with
  | Plain w1 => w1
  | Cadenced w1 w2 n r w3 => w1 ++ txt "@" ++ w2 ++ n ++ r ++ w3
  end.

Definition lead_ok (l : lead) : bool :=
  match l with
  | Plain w1 => a_run is_space w1
  | Cadenced w1 w2 n r w3 =>
      a_run is_space w1 && a_run is_space w2 && a_run is_digit n
      && spelled (txt "rpm,") r && a_run is_space w3
  end.

(** White space, a digit, a dot, or the first letter of "min", of "sec"
    or the "x" of a repetition, in either case. *)
Definition unit_start (c : ascii) : bool :=
  is_space c || is_digit_or_dot c
  || chr_match true "m" c || chr_match true "s" c || chr_match true "x" c.












End Shape.
Import Shape.

(** * Properties *)

(** ** The serializer *)

Lemma tag_at_boundary n i seg : tag_at n i seg = boundary_tag n i seg.
Proof.
  unfold tag_at, boundary_tag.
  destruct i as [|i]; [reflexivity|].
  change (S i =? 0)%nat with false. cbv iota.
  destruct (Nat.eqb_spec (S (S i)) n) as [E|E].
  - subst n. replace (S (S i) - 1)%nat with (S i) by lia.
    rewrite Nat.eqb_refl. reflexivity.
  - destruct (Nat.eqb_spec (S i) (n - 1)) as [E'|E']; [|reflexivity].
    exfalso. apply E. lia.
Qed.

Lemma original_type_dispatch n i seg k :
  str_eqb [] k = false ->
  str_eqb (txt "Warmup") k = false ->
  str_eqb (txt "Cooldown") k = false ->
  str_eqb (original_type n i seg) k = str_eqb (type seg) k.
Proof.
  intros H0 H1 H2. unfold original_type, tag_at.
  destruct (i =? 0)%nat; cbv beta iota delta [orb].
  - destruct (type seg); [now rewrite H0, H1 | reflexivity].
  - destruct ((i =? n - 1)%nat && (1 <? n)%nat).
    + destruct (type seg); [now rewrite H0, H2 | reflexivity].
    + reflexivity.
Qed.
Lemma str_eqb_refl s : str_eqb s s = true.
Proof.
  induction s as [|c s IH]; simpl; [reflexivity|].
  unfold ascii_eqb. now rewrite Ascii.eqb_refl.
Qed.

Lemma str_eqb_eq a b : str_eqb a b = true -> a = b.
Proof.
  revert b. induction a as [|x a IH]; destruct b as [|y b]; simpl;
    try discriminate; [reflexivity|].
  intros H. apply andb_true_iff in H as [H1 H2].
  apply Ascii.eqb_eq in H1. subst y. f_equal. now apply IH.
Qed.

Lemma emit_attributes n xml i seg :
  last_resort seg = false ->
  emit n xml i seg =
  bind (attributes seg) (fun a =>
  Ok (xml ++ element_line (boundary_tag n i seg) a)).
Proof.
  intros LR. unfold emit, attributes, element_line.
  rewrite (original_type_dispatch n i seg (txt "Ramp")) by reflexivity.
  rewrite (original_type_dispatch n i seg (txt "SteadyState")) by reflexivity.
  rewrite (original_type_dispatch n i seg (txt "IntervalsT")) by reflexivity.
  rewrite (original_type_dispatch n i seg (txt "FreeRide")).
 2-4: reflexivity.
  rewrite tag_at_boundary.
  unfold last_resort, known_kind in LR.
  destruct (str_eqb (type seg) (txt "Ramp")).
  { destruct (toFixed (powerLow seg)); [|reflexivity].
    destruct (toFixed (powerHigh seg)); [|reflexivity].
    cbn [bind]. now rewrite <- !app_assoc. }
  destruct (str_eqb (type seg) (txt "SteadyState")).
  { destruct (toFixed (power seg)); [|reflexivity].
    cbn [bind]. now rewrite <- !app_assoc. }
  destruct (str_eqb (type seg) (txt "IntervalsT")).
  { destruct (toFixed (onPower seg)); [|reflexivity].
    destruct (toFixed (offPower seg)); [|reflexivity].
    cbn [bind]. now rewrite <- !app_assoc. }
  destruct (str_eqb (type seg) (txt "FreeRide")).
  { cbn [bind]. now rewrite <- !app_assoc. }
  simpl in LR. destruct (truthy (duration seg)); [|discriminate].
  cbn [bind]. now rewrite <- !app_assoc.
Qed.

Lemma emit_all_body_lines n segs : forall xml i,
  Forall (fun seg => last_resort seg = false) segs ->
  emit_all n xml i segs =
  bind (body_lines n i segs) (fun b => Ok (xml ++ b)).
Proof.
  induction segs as [|seg rest IH]; intros xml i HF; simpl.
  - now rewrite app_nil_r.
  - inversion HF as [|? ? Hseg Hrest]; subst.
    rewrite emit_attributes by assumption.
    destruct (attributes seg) as [a|]; [|reflexivity]. cbn [bind].
    rewrite IH by assumption.
    destruct (body_lines n (S i) rest) as [b|]; [|reflexivity]. cbn [bind].
    now rewrite <- app_assoc.
Qed.

Lemma generateZWO_serialize name href segs :
  Forall (fun seg => last_resort seg = false) segs ->
  generateZWO name href segs = serialize name href segs.
Proof.
  intros HF. unfold generateZWO, serialize.
  rewrite emit_all_body_lines by assumption.
  destruct (body_lines (length segs) 0 segs) as [b|]; [|reflexivity].
  cbn [bind]. now rewrite <- app_assoc.
Qed.




Lemma truthy_clear_zero v : truthy (clear_zero v) = truthy v.
Proof.
  destruct v as [| |n]; try reflexivity.
  unfold clear_zero. destruct (is_zero n) eqn:E; [|reflexivity].
  simpl. rewrite E. now rewrite andb_false_r.
Qed.

Lemma opt_attr_clear_zero name v :
  opt_attr name (clear_zero v) = opt_attr name v.
Proof.
  unfold opt_attr. rewrite truthy_clear_zero.
  destruct (truthy v) eqn:E; [|reflexivity].
  destruct v as [| |n]; try discriminate.
  unfold clear_zero. simpl in E.
  destruct (is_zero n); [|reflexivity].
  now rewrite andb_false_r in E.
Qed.

Lemma emit_without_zero_cadence n xml i seg :
  emit n xml i (without_zero_cadence seg) = emit n xml i seg.
Proof.
  unfold emit, original_type, tag_at. cbn [without_zero_cadence type
    duration power powerLow powerHigh cadence repeat onDuration onPower
    offDuration offPower onCadence offCadence flatRoad].
  now rewrite !opt_attr_clear_zero.
Qed.

Lemma emit_all_without_zero_cadence n segs : forall xml i,
  emit_all n xml i (map without_zero_cadence segs) = emit_all n xml i segs.
Proof.
  induction segs as [|seg rest IH]; intros xml i; [reflexivity|].
  cbn [map emit_all]. rewrite emit_without_zero_cadence.
  destruct (emit n xml i seg); [|reflexivity]. cbn [bind]. apply IH.
Qed.

Lemma generateZWO_without_zero_cadence name href segs :
  generateZWO name href (map without_zero_cadence segs)
  = generateZWO name href segs.
Proof.
  unfold generateZWO. rewrite length_map.
  now rewrite emit_all_without_zero_cadence.
Qed.

(** *** Decimal digits and [toFixed(2)] *)

Lemma digit_not_minus c : is_digit c = true -> is_char 45 c = false.
Proof.
  unfold is_digit, is_char. intros H.
  apply andb_true_iff in H as [H1 H2].
  apply Nat.leb_le in H1. apply Nat.eqb_neq. lia.
Qed.

Lemma uint_digits d :
  forallb is_digit (list_ascii_of_string (NilEmpty.string_of_uint d)) = true.
Proof.
  induction d; simpl; try reflexivity; assumption.
Qed.

Lemma digits_of_digits n : forallb is_digit (digits_of n) = true.
Proof.
  unfold digits_of, NilZero.string_of_uint.
  destruct (N.to_uint (Z.to_N n)); try reflexivity; apply uint_digits.
Qed.


Lemma zeros_digits k : forallb is_digit (zeros k) = true.
Proof.
  induction k as [|k IH]; [reflexivity|]. simpl. exact IH.
Qed.

Lemma forallb_firstn {A} (p : A -> bool) l k :
  forallb p l = true -> forallb p (firstn k l) = true.
Proof.
  revert k. induction l as [|x l IH]; intros [|k] H; simpl in *;
    try reflexivity.
  apply andb_true_iff in H as [H1 H2]. rewrite H1. now apply IH.
Qed.

Lemma forallb_skipn {A} (p : A -> bool) l k :
  forallb p l = true -> forallb p (skipn k l) = true.
Proof.
  revert k. induction l as [|x l IH]; intros [|k] H; simpl in *;
    try reflexivity; try assumption.
  apply andb_true_iff in H as [H1 H2]. now apply IH.
Qed.

Lemma forallb_rev {A} (p : A -> bool) l :
  forallb p l = true -> forallb p (rev l) = true.
Proof.
  intros H. apply forallb_forall. intros x Hx.
  apply in_rev in Hx. rewrite forallb_forall in H. now apply H.
Qed.

Lemma two_decimals_intro (neg : bool) a b1 b2 :
  a <> [] -> forallb is_digit a = true ->
  is_digit b1 = true -> is_digit b2 = true ->
  two_decimals ((if neg then txt "-" else []) ++ a ++ txt "." ++ [b1; b2])
  = true.
Proof.
  intros Ha Hd H1 H2. destruct a as [|c a]; [congruence|].
  assert (Hc : is_digit c = true)
    by (simpl in Hd; now apply andb_true_iff in Hd as [? _]).
  assert (R : rev ((c :: a) ++ txt "." ++ [b1; b2])
              = b2 :: b1 :: "."%char :: rev (c :: a)).
  { rewrite rev_app_distr. reflexivity. }
  assert (K : match rev ((c :: a) ++ txt "." ++ [b1; b2]) with
              | c2 :: c1 :: dot :: ip =>
                  is_digit c2 && is_digit c1 && is_char 46 dot
                  && negb (length ip =? 0)%nat && forallb is_digit ip
              | _ => false
              end = true).
  { rewrite R, H1, H2, (forallb_rev _ _ Hd), length_rev. reflexivity. }
  unfold two_decimals. destruct neg.
  - exact K.
  - change ([] ++ (c :: a) ++ txt "." ++ [b1; b2])
      with (c :: (a ++ txt "." ++ [b1; b2])) at 1.
    cbv iota beta. rewrite (digit_not_minus c Hc). exact K.
Qed.

Lemma fixed2_shape d :
  exists a b1 b2,
    fixed2 d = a ++ txt "." ++ [b1; b2] /\ a <> []
    /\ forallb is_digit a = true
    /\ is_digit b1 = true /\ is_digit b2 = true.
Proof.
  unfold fixed2.
  set (m := digits_of _).
  set (m' := zeros (3 - length m) ++ m).
  assert (Hd : forallb is_digit m' = true).
  { unfold m'. rewrite forallb_app, zeros_digits. apply digits_of_digits. }
  assert (Hl : (3 <= length m')%nat).
  { unfold m'. rewrite length_app. unfold zeros. rewrite repeat_length. lia. }
  assert (L1 : length (firstn (length m' - 2) m') = (length m' - 2)%nat)
    by (rewrite length_firstn; lia).
  assert (L2 : length (skipn (length m' - 2) m') = 2%nat)
    by (rewrite length_skipn; lia).
  assert (D2 : forallb is_digit (skipn (length m' - 2) m') = true)
    by now apply forallb_skipn.
  destruct (skipn (length m' - 2) m') as [|b1 [|b2 [|? ?]]];
    try discriminate L2.
  simpl in D2. apply andb_true_iff in D2 as [D21 D22].
  apply andb_true_iff in D22 as [D22 _].
  exists (firstn (length m' - 2) m'), b1, b2.
  repeat split; try assumption.
  - intros E. rewrite E in L1. simpl in L1. lia.
  - now apply forallb_firstn.
Qed.

Lemma toFixed2_two_decimals x :
  below_1e21 x = true -> two_decimals (toFixed2 x) = true.
Proof.
  destruct x as [| |d]; try discriminate. unfold below_1e21, toFixed2.
  intros H. apply negb_true_iff in H. rewrite H.
  destruct (fixed2_shape (if mant d <? 0 then dec_neg d else d))
    as (a & b1 & b2 & E & Ha & Hd & H1 & H2).
  rewrite E. now apply two_decimals_intro.
Qed.

Lemma emit_known n xml i seg a :
  known_kind (type seg) = true ->
  attributes seg = Ok a ->
  emit n xml i seg = Ok (xml ++ element_line (boundary_tag n i seg) a).
Proof.
  intros K A. rewrite emit_attributes.
  - now rewrite A.
  - unfold last_resort. now rewrite K.
Qed.

(** C9 (as amended).  A cadence of 0 is written like no cadence at all:
    clearing every zero [cadence], [onCadence] and [offCadence] leaves
    the document unchanged, and no attribute is written for a zero.  The
    power attributes are the [toFixed(2)] of the power fields, which for a
    finite power of magnitude below 10^21 is digits, a dot and exactly two
    digits, whatever the precision of the input. *)
Theorem C9_zero_cadence_and_power_format :
  (forall name href segs,
      generateZWO name href (map without_zero_cadence segs)
      = generateZWO name href segs)
  /\ (forall name x, is_zero x = true -> opt_attr name (Num x) = [])
  /\ (forall n xml i d p cad,
        emit n xml i (SteadyState d p cad)
        = Ok (xml ++ element_line (boundary_tag n i (SteadyState d p cad))
                (attr "Duration" (to_string d) ++ txt " "
                 ++ attr "Power" (toFixed2 p) ++ opt_attr "Cadence" cad)))
  /\ (forall n xml i d lo hi cad,
        emit n xml i (Ramp d lo hi cad)
        = Ok (xml ++ element_line (boundary_tag n i (Ramp d lo hi cad))
                (attr "Duration" (to_string d) ++ txt " "
                 ++ attr "PowerLow" (toFixed2 lo) ++ txt " "
                 ++ attr "PowerHigh" (toFixed2 hi)
                 ++ opt_attr "Cadence" cad)))
  /\ (forall n xml i r d1 p1 d2 p2 c1 c2,
        emit n xml i (IntervalsT r d1 p1 d2 p2 c1 c2)
        = Ok (xml ++ element_line
                (boundary_tag n i (IntervalsT r d1 p1 d2 p2 c1 c2))
                (attr "Repeat" (to_string r) ++ txt " "
                 ++ attr "OnDuration" (to_string d1) ++ txt " "
                 ++ attr "OnPower" (toFixed2 p1) ++ txt " "
                 ++ attr "OffDuration" (to_string d2) ++ txt " "
                 ++ attr "OffPower" (toFixed2 p2)
                 ++ opt_attr "OnCadence" c1 ++ opt_attr "OffCadence" c2)))
  /\ (forall x, below_1e21 x = true -> two_decimals (toFixed2 x) = true)
  /\ two_decimals (txt "0.50") = true.
Proof.
  split; [exact generateZWO_without_zero_cadence|].
  split.
  { intros name x Hx. unfold opt_attr. simpl. rewrite Hx.
    now rewrite andb_false_r. }
  split; [intros; now apply emit_known|].
  split; [intros; now apply emit_known|].
  split; [intros; now apply emit_known|].
  split; [exact toFixed2_two_decimals | reflexivity].
Qed.

Lemma C9_witness :
  below_1e21 (div100 (parseFloat (txt "80.123456789"))) = true
  /\ two_decimals (toFixed2 (div100 (parseFloat (txt "80.123456789"))))
     = true.
Proof.
  split; [reflexivity|].
  apply (proj1 (proj2 (proj2 (proj2 (proj2 (proj2
           C9_zero_cadence_and_power_format)))))).
  reflexivity.
Defined.

(** C9, as stated, fails on its second sentence: a power of 10^21 is
    written in exponent notation, and the power the classifier derives
    from an annotation that reads Infinity is written as that word. *)
Lemma C9_counterexample :
  toFixed2 (Fin (mkDec 1 21)) = txt "1e+21"
  /\ two_decimals (toFixed2 (Fin (mkDec 1 21))) = false
  /\ generateZWO (txt "W") (txt "h")
       [SteadyState (of_Z 600) (Fin (mkDec 1 21)) Null]
     = Ok (header (txt "W") (txt "h")
           ++ element_line (txt "Warmup")
                (attr "Duration" (txt "600") ++ txt " "
                 ++ attr "Power" (txt "1e+21"))
           ++ footer)
  /\ parseSegment (mkElement None (Some (txt "10min @ max")) [txt "Infinity"])
     = Ok (Some (SteadyState (of_Z 600) (Inf false) Null))
  /\ toFixed2 (Inf false) = txt "Infinity"
  /\ two_decimals (toFixed2 (Inf false)) = false.
Proof.
  repeat split; vm_compute; reflexivity.
Qed.

(** ** The document skeleton *)

(** C8 fails on the code: the workout name and the page address are
    embedded as they are.  With the name "Sweet & Sour" the document holds
    the bare ampersand and not its escaped form. *)
Theorem C8_name_embedded_verbatim :
  exists xml,
    generateZWO (txt "Sweet & Sour")
                (txt "https://whatsonzwift.com/w?a=1&b=2")
                [FreeRide (of_Z 600)] = Ok xml
    /\ xml = header (txt "Sweet & Sour")
                    (txt "https://whatsonzwift.com/w?a=1&b=2")
             ++ element_line (txt "Warmup")
                  (attr "Duration" (txt "600") ++ txt " "
                   ++ attr "FlatRoad" (txt "1"))
             ++ footer
    /\ includes xml (txt "<name>Sweet & Sour</name>") = true
    /\ includes xml (txt "&amp;") = false
    /\ xml_escape (txt "Sweet & Sour") = txt "Sweet &amp; Sour".
Proof.
  eexists. split; [vm_compute; reflexivity|].
  repeat split; vm_compute; reflexivity.
Qed.

(** ** The classifier: what each rule returns *)

Lemma length_1 {A} (l : list A) :
  (length l =? 1)%nat = true -> exists v, l = [v].
Proof.
  destruct l as [|v [|? ?]]; try discriminate. now exists v.
Qed.

Lemma length_2 {A} (l : list A) :
  (length l =? 2)%nat = true -> exists v0 v1, l = [v0; v1].
Proof.
  destruct l as [|v0 [|v1 [|? ?]]]; try discriminate. now exists v0, v1.
Qed.

Lemma rule_freeRide_returns text seg :
  rule_freeRide text = Some seg ->
  exists d, seg = FreeRide d /\ gt0 d = true.
Proof.
  unfold rule_freeRide. destruct (exec re_freeRide text) as [m|]; [|discriminate].
  cbv zeta. destruct (gt0 _) eqn:G; [|discriminate].
  intros H. injection H as <-. eauto.
Qed.

Lemma rule_ramp_returns text sp cad :
  exists r, rule_ramp text sp cad = Ok r /\
    forall seg, r = Some seg ->
      exists d lo hi, seg = Ramp d lo hi cad /\ gt0 d = true
                      /\ isNaN lo = false /\ isNaN hi = false.
Proof.
  unfold rule_ramp. destruct (rampMatch text) as [m|];
    [|exists None; split; [reflexivity|discriminate]].
  destruct (length sp =? 2)%nat eqn:L;
    [|exists None; split; [reflexivity|discriminate]].
  apply length_2 in L as (v0 & v1 & ->).
  cbn [span_value nth_error bind]. cbv zeta.
  destruct (gt0 _ && _ && _) eqn:C;
    [|exists None; split; [reflexivity|discriminate]].
  eexists. split; [reflexivity|]. intros seg H. injection H as <-.
  apply andb_true_iff in C as [C C3]. apply andb_true_iff in C as [C1 C2].
  apply negb_true_iff in C2, C3. eauto 8.
Qed.

Lemma rule_steady_returns text sp cad :
  exists r, rule_steady text sp cad = Ok r /\
    forall seg, r = Some seg ->
      exists d p, seg = SteadyState d p cad /\ gt0 d = true
                  /\ isNaN p = false.
Proof.
  unfold rule_steady. destruct (exec re_steady text) as [m|];
    [|exists None; split; [reflexivity|discriminate]].
  destruct (length sp =? 1)%nat eqn:L;
    [|exists None; split; [reflexivity|discriminate]].
  apply length_1 in L as (v0 & ->).
  cbn [span_value nth_error bind]. cbv zeta.
  destruct (gt0 _ && _) eqn:C;
    [|exists None; split; [reflexivity|discriminate]].
  eexists. split; [reflexivity|]. intros seg H. injection H as <-.
  apply andb_true_iff in C as [C1 C2].
  apply negb_true_iff in C2. eauto 8.
Qed.

Lemma rule_intervals_returns text sp :
  exists r, rule_intervals text sp = Ok r /\
    forall seg, r = Some seg ->
      exists rep d1 p1 d2 p2 c1 c2,
        seg = IntervalsT rep d1 p1 d2 p2 c1 c2
        /\ isNaN rep = false /\ gt0 d1 = true /\ isNaN p1 = false
        /\ gt0 d2 = true /\ isNaN p2 = false.
Proof.
  unfold rule_intervals. destruct (exec re_interval text) as [m|];
    [|exists None; split; [reflexivity|discriminate]].
  destruct (length sp =? 2)%nat eqn:L;
    [|exists None; split; [reflexivity|discriminate]].
  apply length_2 in L as (v0 & v1 & ->).
  cbn [span_value nth_error bind]. cbv zeta.
  destruct (negb _ && _ && _ && _ && _) eqn:C;
    [|exists None; split; [reflexivity|discriminate]].
  eexists. split; [reflexivity|]. intros seg H. injection H as <-.
  apply andb_true_iff in C as [C C5]. apply andb_true_iff in C as [C C4].
  apply andb_true_iff in C as [C C3]. apply andb_true_iff in C as [C1 C2].
  apply negb_true_iff in C1, C3, C5.
  do 7 eexists. split; [reflexivity|]. auto.
Qed.

Lemma rule_fallback_returns text sp cad :
  exists r, rule_fallback text sp cad = Ok r /\
    forall seg, r = Some seg ->
      exists d p, seg = SteadyState d p cad /\ gt0 d = true
                  /\ isNaN p = false.
Proof.
  unfold rule_fallback.
  destruct (length sp =? 1)%nat eqn:L;
    [|exists None; split; [reflexivity|discriminate]].
  destruct (exec re_duration text) as [m|];
    [|exists None; split; [reflexivity|discriminate]].
  apply length_1 in L as (v0 & ->).
  cbn [span_value nth_error bind]. cbv zeta.
  destruct (gt0 _ && _) eqn:C;
    [|exists None; split; [reflexivity|discriminate]].
  eexists. split; [reflexivity|]. intros seg H. injection H as <-.
  apply andb_true_iff in C as [C1 C2].
  apply negb_true_iff in C2. eauto 8.
Qed.

(** The classifier returns what the first rule that returns a segment
    returns, and [null] when none does. *)
Lemma parseSegment_cases e :
  let text := text_of e in
  let sp := spans e in
  let cad := cadence_of text in
  (exists seg, rule_freeRide text = Some seg
               /\ parseSegment e = Ok (Some seg))
  \/ (rule_freeRide text = None /\
      ((exists seg, rule_ramp text sp cad = Ok (Some seg)
                    /\ parseSegment e = Ok (Some seg))
       \/ (rule_ramp text sp cad = Ok None /\
           ((exists seg, rule_steady text sp cad = Ok (Some seg)
                         /\ parseSegment e = Ok (Some seg))
            \/ (rule_steady text sp cad = Ok None /\
                ((exists seg, rule_intervals text sp = Ok (Some seg)
                              /\ parseSegment e = Ok (Some seg))
                 \/ (rule_intervals text sp = Ok None /\
                     parseSegment e = rule_fallback text sp cad))))))).
Proof.
  intros text sp cad. unfold parseSegment. fold text. fold sp. fold cad.
  destruct (rule_freeRide text) as [s|]; [left; eauto|right; split; [reflexivity|]].
  destruct (rule_ramp_returns text sp cad) as ([s|] & -> & _);
    [left; eauto|right; split; [reflexivity|]].
  destruct (rule_steady_returns text sp cad) as ([s|] & -> & _);
    [left; eauto|right; split; [reflexivity|]].
  destruct (rule_intervals_returns text sp) as ([s|] & -> & _);
    [left; eauto|right; split; [reflexivity|]].
  reflexivity.
Qed.

Lemma isNaN_div100 x : isNaN (div100 x) = isNaN x.
Proof. now destruct x. Qed.

(** C5.  Classification never raises: for every element the classifier
    returns normally, with [null] or with a segment whose derived numbers
    were validated (durations above zero, powers and repeat not NaN).  The
    same holds of every rule taken alone, so a rule whose pattern matches
    but whose numbers are invalid hands control to the next rule; two
    fragments show the fall-through ending in [null]. *)
Theorem C5_classification_total_and_validated :
  (forall e, exists r, parseSegment e = Ok r /\ validated_result r = true)
  /\ (forall text, validated_result (rule_freeRide text) = true)
  /\ (forall text sp cad, exists r,
        rule_ramp text sp cad = Ok r /\ validated_result r = true)
  /\ (forall text sp cad, exists r,
        rule_steady text sp cad = Ok r /\ validated_result r = true)
  /\ (forall text sp, exists r,
        rule_intervals text sp = Ok r /\ validated_result r = true)
  /\ (forall text sp cad, exists r,
        rule_fallback text sp cad = Ok r /\ validated_result r = true)
  /\ (exists m, exec re_steady (txt "10min @ 80% FTP") = Some m)
  /\ parseSegment (mkElement None (Some (txt "10min @ 80% FTP")) [txt "abc"])
     = Ok None
  /\ (exists m, rampMatch (txt "0min from 60 to 85% FTP") = Some m)
  /\ parseSegment (mkElement None (Some (txt "0min from 60 to 85% FTP"))
                             [txt "60"; txt "85"])
     = Ok None.
Proof.
  assert (F : forall text, validated_result (rule_freeRide text) = true).
  { intros text. destruct (rule_freeRide text) as [seg|] eqn:E; [|reflexivity].
    apply rule_freeRide_returns in E as (d & -> & G). simpl.
    unfold validated, above_zero. simpl. exact G. }
  assert (R : forall text sp cad, exists r,
        rule_ramp text sp cad = Ok r /\ validated_result r = true).
  { intros text sp cad.
    destruct (rule_ramp_returns text sp cad) as (r & E & V).
    exists r. split; [exact E|]. destruct r as [seg|]; [|reflexivity].
    destruct (V seg eq_refl) as (d & lo & hi & -> & G & N1 & N2).
    unfold validated_result, validated, above_zero, a_number. simpl.
    now rewrite G, N1, N2. }
  assert (S1 : forall text sp cad, exists r,
        rule_steady text sp cad = Ok r /\ validated_result r = true).
  { intros text sp cad.
    destruct (rule_steady_returns text sp cad) as (r & E & V).
    exists r. split; [exact E|]. destruct r as [seg|]; [|reflexivity].
    destruct (V seg eq_refl) as (d & p & -> & G & N1).
    unfold validated_result, validated, above_zero, a_number. simpl.
    now rewrite G, N1. }
  assert (I : forall text sp, exists r,
        rule_intervals text sp = Ok r /\ validated_result r = true).
  { intros text sp.
    destruct (rule_intervals_returns text sp) as (r & E & V).
    exists r. split; [exact E|]. destruct r as [seg|]; [|reflexivity].
    destruct (V seg eq_refl)
      as (rep & d1 & p1 & d2 & p2 & c1 & c2 & -> & N0 & G1 & N1 & G2 & N2).
    unfold validated_result, validated, above_zero, a_number. simpl.
    now rewrite N0, G1, N1, G2, N2. }
  assert (B : forall text sp cad, exists r,
        rule_fallback text sp cad = Ok r /\ validated_result r = true).
  { intros text sp cad.
    destruct (rule_fallback_returns text sp cad) as (r & E & V).
    exists r. split; [exact E|]. destruct r as [seg|]; [|reflexivity].
    destruct (V seg eq_refl) as (d & p & -> & G & N1).
    unfold validated_result, validated, above_zero, a_number. simpl.
    now rewrite G, N1. }
  split.
  { intros e.
    destruct (parseSegment_cases e)
      as [(seg & E & ->)|(_ & [(seg & E & ->)|(_ & [(seg & E & ->)|
          (_ & [(seg & E & ->)|(_ & ->)])])])].
    - exists (Some seg). split; [reflexivity|]. rewrite <- E. apply F.
    - exists (Some seg). split; [reflexivity|].
      destruct (R (text_of e) (spans e) (cadence_of (text_of e)))
        as (r & E' & V). rewrite E in E'. now injection E' as <-.
    - exists (Some seg). split; [reflexivity|].
      destruct (S1 (text_of e) (spans e) (cadence_of (text_of e)))
        as (r & E' & V). rewrite E in E'. now injection E' as <-.
    - exists (Some seg). split; [reflexivity|].
      destruct (I (text_of e) (spans e)) as (r & E' & V).
      rewrite E in E'. now injection E' as <-.
    - apply B. }
  split; [exact F|]. split; [exact R|]. split; [exact S1|].
  split; [exact I|]. split; [exact B|].
  split; [eexists; vm_compute; reflexivity|].
  split; [vm_compute; reflexivity|].
  split; [eexists; vm_compute; reflexivity|].
  vm_compute; reflexivity.
Qed.

Lemma parseSegment_kind e seg :
  parseSegment e = Ok (Some seg) ->
  (exists d, seg = FreeRide d /\ gt0 d = true)
  \/ type seg = txt "Ramp" \/ type seg = txt "SteadyState"
  \/ type seg = txt "IntervalsT".
Proof.
  intros H.
  destruct (parseSegment_cases e)
    as [(s & E & P)|(_ & [(s & E & P)|(_ & [(s & E & P)|
        (_ & [(s & E & P)|(_ & P)])])])];
    rewrite P in H.
  - injection H as <-. left. now apply rule_freeRide_returns in E.
  - injection H as <-.
    destruct (rule_ramp_returns (text_of e) (spans e) (cadence_of (text_of e)))
      as (r & E' & V). rewrite E in E'. injection E' as <-.
    destruct (V s eq_refl) as (d & lo & hi & -> & _). auto.
  - injection H as <-.
    destruct (rule_steady_returns (text_of e) (spans e)
                (cadence_of (text_of e))) as (r & E' & V).
    rewrite E in E'. injection E' as <-.
    destruct (V s eq_refl) as (d & p & -> & _). auto.
  - injection H as <-.
    destruct (rule_intervals_returns (text_of e) (spans e)) as (r & E' & V).
    rewrite E in E'. injection E' as <-.
    destruct (V s eq_refl) as (? & ? & ? & ? & ? & ? & ? & -> & _). auto.
  - destruct (rule_fallback_returns (text_of e) (spans e)
                (cadence_of (text_of e))) as (r & E' & V).
    rewrite H in E'. injection E' as <-.
    destruct (V seg eq_refl) as (d & p & -> & _). auto.
Qed.



(** C2 fails on the code: the on-cadence is searched in the whole text.
    In the fragment of the repository's test "Intervals with only Off
    Cadence" the only cadence marker stands after the first comma; the
    "on" half has none, and yet the segment returned has onCadence = 80
    where the test expects [null]. *)
Theorem C2_on_cadence_searched_in_whole_text :
  let text := txt "3x 2min @ 95% FTP, 1min @ 80rpm, 50% FTP" in
  on_half text = txt "3x 2min @ 95% FTP"
  /\ cadence_of (on_half text) = Null
  /\ off_text text = Some (txt "1min @ 80rpm,50% FTP")
  /\ parseSegment (mkElement None (Some text) [txt "95"; txt "50"])
     = Ok (Some (IntervalsT (of_Z 3) (of_Z 120) (div100 (of_Z 95))
                            (of_Z 60) (div100 (of_Z 50))
                            (Num (of_Z 80)) (Num (of_Z 80)))).
Proof.
  repeat split; vm_compute; reflexivity.
Qed.

(** ** Characters *)

Lemma all_ascii_complete x : In x all_ascii.
Proof.
  unfold all_ascii. rewrite <- (ascii_nat_embedding x).
  apply in_map, in_seq. pose proof (nat_ascii_bounded x). lia.
Qed.

Lemma ascii_forall (f : ascii -> bool) :
  forallb f all_ascii = true -> forall x, f x = true.
Proof.
  intros H x. rewrite forallb_forall in H. apply H, all_ascii_complete.
Qed.

Lemma ascii_forall2 (f : ascii -> ascii -> bool) :
  forallb (fun c => forallb (f c) all_ascii) all_ascii = true ->
  forall c x, f c x = true.
Proof.
  intros H c x. apply (ascii_forall (f c)).
  exact (ascii_forall (fun c => forallb (f c) all_ascii) H c).
Qed.

Lemma implb_true a b : implb a b = true -> a = true -> b = true.
Proof. now destruct a, b. Qed.

Lemma implb_false a b : implb a (negb b) = true -> a = true -> b = false.
Proof. now destruct a, b. Qed.

Lemma digit_is_digit_or_dot x : is_digit x = true -> is_digit_or_dot x = true.
Proof. unfold is_digit_or_dot. now intros ->. Qed.

Lemma digit_or_dot_not_space x :
  is_digit_or_dot x = true -> is_space x = false.
Proof.
  apply implb_false. revert x. apply ascii_forall. vm_compute. reflexivity.
Qed.

Lemma space_not_digit_or_dot x :
  is_space x = true -> is_digit_or_dot x = false.
Proof.
  apply implb_false. revert x. apply ascii_forall. vm_compute. reflexivity.
Qed.

Lemma space_not_digit x : is_space x = true -> is_digit x = false.
Proof.
  apply implb_false. revert x. apply ascii_forall. vm_compute. reflexivity.
Qed.

Lemma upcase_class y :
  is_space (upcase y) = is_space y /\ is_digit (upcase y) = is_digit y
  /\ is_digit_or_dot (upcase y) = is_digit_or_dot y.
Proof.
  assert (H : forall y,
             Bool.eqb (is_space (upcase y)) (is_space y)
             && Bool.eqb (is_digit (upcase y)) (is_digit y)
             && Bool.eqb (is_digit_or_dot (upcase y)) (is_digit_or_dot y)
             = true).
  { apply ascii_forall. vm_compute. reflexivity. }
  specialize (H y).
  apply andb_true_iff in H as [H H3]. apply andb_true_iff in H as [H1 H2].
  apply Bool.eqb_prop in H1, H2, H3. auto.
Qed.

(** What matches a literal is in the classes the literal is in, with or
    without the [i] flag: the classes of the script hold no letters. *)
Lemma chr_match_class ci c x :
  chr_match ci c x = true ->
  is_space x = is_space c /\ is_digit x = is_digit c
  /\ is_digit_or_dot x = is_digit_or_dot c.
Proof.
  unfold chr_match, ascii_eqb. destruct ci; intros H;
    apply Ascii.eqb_eq in H.
  - destruct (upcase_class c) as (A1 & A2 & A3).
    destruct (upcase_class x) as (B1 & B2 & B3).
    rewrite <- A1, <- A2, <- A3, <- B1, <- B2, <- B3, H. auto.
  - subst x. auto.
Qed.

Lemma chr_not_digit_or_dot ci c x :
  is_digit_or_dot c = false -> is_digit_or_dot x = true ->
  chr_match ci c x = false.
Proof.
  intros Hc Hx. destruct (chr_match ci c x) eqn:E; [|reflexivity].
  apply chr_match_class in E as (_ & _ & E). congruence.
Qed.

Lemma chr_not_space ci c x :
  is_space c = false -> is_space x = true -> chr_match ci c x = false.
Proof.
  intros Hc Hx. destruct (chr_match ci c x) eqn:E; [|reflexivity].
  apply chr_match_class in E as (E & _). congruence.
Qed.

Lemma chr_not_digit ci c x :
  is_digit c = false -> is_digit x = true -> chr_match ci c x = false.
Proof.
  intros Hc Hx. destruct (chr_match ci c x) eqn:E; [|reflexivity].
  apply chr_match_class in E as (_ & E & _). congruence.
Qed.

(** Under the [i] flag, the characters matching [c] match [c'] exactly
    when [c] does. *)
Lemma chr_match_other c c' x :
  chr_match true c x = true -> chr_match true c' x = chr_match true c' c.
Proof.
  unfold chr_match, ascii_eqb. intros H. apply Ascii.eqb_eq in H.
  now rewrite H.
Qed.

(** ** The matcher: general facts *)

Lemma pair_eta_map {A B} (l : list (A * B)) :
  map (fun m => (fst m, snd m)) l = l.
Proof.
  induction l as [|[a b] l IH]; [reflexivity|]. simpl. now rewrite IH.
Qed.

Lemma flat_map_map {A B C} (g : B -> list C) (h : A -> B) l :
  flat_map g (map h l) = flat_map (fun x => g (h x)) l.
Proof.
  induction l as [|x l IH]; [reflexivity|]. simpl. now rewrite IH.
Qed.

Lemma flat_map_nil {A B} (f : A -> list B) l :
  (forall x, In x l -> f x = []) -> flat_map f l = [].
Proof.
  induction l as [|x l IH]; intros H; [reflexivity|]. simpl.
  rewrite (H x (or_introl eq_refl)). apply IH.
  intros y Hy. apply H. now right.
Qed.

Lemma matches_seq ci r1 r2 s :
  matches ci (r1 ;; r2) s
  = flat_map (fun m1 : caps * str =>
                map (fun m2 : caps * str => (fst m1 ++ fst m2, snd m2))
                    (matches ci r2 (snd m1)))
             (matches ci r1 s).
Proof. reflexivity. Qed.

Lemma matches_grp ci n r s :
  matches ci (Grp n r) s
  = map (fun m : caps * str =>
           ((n, firstn (length s - length (snd m)) s) :: fst m, snd m))
        (matches ci r s).
Proof. reflexivity. Qed.

Lemma matches_alt ci r1 r2 s :
  matches ci (Alt r1 r2) s = matches ci r1 s ++ matches ci r2 s.
Proof. reflexivity. Qed.

Lemma matches_opt ci r s :
  matches ci (Opt r) s = matches ci r s ++ [([], s)].
Proof. reflexivity. Qed.

(** A sub-pattern without captures in front of [r2]. *)
Lemma matches_seq_plain ci r1 r2 s :
  (forall m, In m (matches ci r1 s) -> fst m = []) ->
  matches ci (r1 ;; r2) s
  = flat_map (fun m1 => matches ci r2 (snd m1)) (matches ci r1 s).
Proof.
  intros H. rewrite matches_seq.
  induction (matches ci r1 s) as [|m l IH]; [reflexivity|].
  cbn [flat_map]. rewrite (H m (or_introl eq_refl)). cbn [app].
  rewrite pair_eta_map. f_equal. apply IH.
  intros m' Hm'. apply H. now right.
Qed.

Lemma firstn_app_exact {A} (w t : list A) :
  firstn (length (w ++ t) - length t) (w ++ t) = w.
Proof.
  rewrite length_app, Nat.add_sub.
  rewrite firstn_app, Nat.sub_diag, firstn_all. cbn [firstn].
  apply app_nil_r.
Qed.

(** *** Literal words *)

Lemma matches_Lit ci w : forall s,
  matches ci (Lit w) s
  = match lit_rest ci w s with
    | Some rest => [([], rest)]
    | None => []
    end.
Proof.
  induction w as [|c w IH]; intros s; [reflexivity|].
  cbn [Lit lit_rest]. rewrite matches_seq. cbn [matches].
  destruct s as [|x s]; [reflexivity|].
  destruct (chr_match ci c x); [|reflexivity].
  cbn [flat_map fst snd app]. rewrite app_nil_r, pair_eta_map. apply IH.
Qed.

Lemma matches_seq_Lit ci w r s :
  matches ci (Lit w ;; r) s
  = match lit_rest ci w s with
    | Some rest => matches ci r rest
    | None => []
    end.
Proof.
  rewrite matches_seq, matches_Lit.
  destruct (lit_rest ci w s); [|reflexivity].
  cbn [flat_map fst snd app]. now rewrite app_nil_r, pair_eta_map.
Qed.


Lemma lit_rest_intro ci w : forall u rest,
  Forall2 (fun c x => chr_match ci c x = true) w u ->
  lit_rest ci w (u ++ rest) = Some rest.
Proof.
  induction w as [|c w IH]; intros u rest F; inversion F; subst.
  - reflexivity.
  - cbn [lit_rest app]. rewrite H1. now apply IH.
Qed.

(** *** Greedy runs of a class *)

Lemma star_cls_munch {A} p (f : str -> list A) w t :
  forallb p w = true -> head_not p t = true ->
  (forall x t', p x = true -> f (x :: t') = []) ->
  flat_map f (star_cls p (w ++ t)) = f t.
Proof.
  intros Hw Ht Hf. induction w as [|x w IH].
  - cbn [app]. destruct t as [|y t]; cbn [star_cls].
    + cbn [flat_map]. apply app_nil_r.
    + cbn [head_not] in Ht. apply negb_true_iff in Ht. rewrite Ht.
      cbn [flat_map]. apply app_nil_r.
  - cbn [forallb] in Hw. apply andb_true_iff in Hw as [Hx Hw].
    cbn [app star_cls]. rewrite Hx. rewrite flat_map_app, IH by assumption.
    cbn [flat_map]. rewrite (Hf x _ Hx). now rewrite !app_nil_r.
Qed.

Lemma star_cls_In p s s1 :
  In s1 (star_cls p s) -> exists w, s = w ++ s1 /\ forallb p w = true.
Proof.
  revert s1. induction s as [|x s IH]; intros s1 H.
  - destruct H as [<-|[]]. now exists [].
  - cbn [star_cls] in H. destruct (p x) eqn:E.
    + apply in_app_or in H as [H|[<-|[]]].
      * apply IH in H as (w & -> & Hw). exists (x :: w).
        split; [reflexivity|]. cbn. now rewrite E.
      * now exists [].
    + destruct H as [<-|[]]. now exists [].
Qed.

Lemma seq_star_munch ci p r w t :
  forallb p w = true -> head_not p t = true -> rejects ci r p ->
  matches ci (Star p ;; r) (w ++ t) = matches ci r t.
Proof.
  intros Hw Ht Hr. rewrite matches_seq. cbn [matches].
  rewrite flat_map_map. cbn [fst snd app].
  rewrite (star_cls_munch p _ w t Hw Ht).
  - apply pair_eta_map.
  - intros x t' Hx. now rewrite (Hr x t' Hx).
Qed.

Lemma seq_plus_munch ci p r w t :
  w <> [] -> forallb p w = true -> head_not p t = true -> rejects ci r p ->
  matches ci (Plus p ;; r) (w ++ t) = matches ci r t.
Proof.
  intros Hne Hw Ht Hr. destruct w as [|x w]; [congruence|].
  cbn [forallb] in Hw. apply andb_true_iff in Hw as [Hx Hw].
  rewrite matches_seq. cbn [matches app]. rewrite Hx.
  rewrite flat_map_map. cbn [fst snd app].
  rewrite (star_cls_munch p _ w t Hw Ht).
  - apply pair_eta_map.
  - intros y t' Hy. now rewrite (Hr y t' Hy).
Qed.

Lemma seq_plus_fail ci p r t :
  head_not p t = true -> matches ci (Plus p ;; r) t = [].
Proof.
  intros Ht. rewrite matches_seq. cbn [matches].
  destruct t as [|y t]; [reflexivity|].
  cbn [head_not] in Ht. apply negb_true_iff in Ht. now rewrite Ht.
Qed.

Lemma seq_grp_plus_munch ci n p r w t :
  w <> [] -> forallb p w = true -> head_not p t = true -> rejects ci r p ->
  matches ci (Grp n (Plus p) ;; r) (w ++ t)
  = map (fun m => ((n, w) :: fst m, snd m)) (matches ci r t).
Proof.
  intros Hne Hw Ht Hr. destruct w as [|x w]; [congruence|].
  cbn [forallb] in Hw. apply andb_true_iff in Hw as [Hx Hw].
  rewrite matches_seq, matches_grp. cbn [matches app]. rewrite Hx.
  rewrite !flat_map_map. cbn [fst snd app].
  change (x :: w ++ t) with ((x :: w) ++ t).
  rewrite (star_cls_munch p _ w t Hw Ht).
  - now rewrite firstn_app_exact.
  - intros y t' Hy. now rewrite (Hr y t' Hy).
Qed.

Lemma seq_grp_plus_fail ci n p r t :
  head_not p t = true -> matches ci (Grp n (Plus p) ;; r) t = [].
Proof.
  intros Ht. rewrite matches_seq, matches_grp. cbn [matches].
  destruct t as [|y t]; [reflexivity|].
  cbn [head_not] in Ht. apply negb_true_iff in Ht. now rewrite Ht.
Qed.

(** A run of [p] inside a run of the wider class [q]: no match when the
    rest rejects [q] and fails after the whole run. *)
Lemma seq_plus_none ci (p q : ascii -> bool) r w t :
  (forall x, p x = true -> q x = true) ->
  forallb q w = true -> head_not p t = true -> rejects ci r q ->
  matches ci r t = [] ->
  matches ci (Plus p ;; r) (w ++ t) = [].
Proof.
  intros Hpq Hw Ht Hr Hend.
  assert (K : forall w, forallb q w = true ->
            flat_map (fun s' => map (fun m2 : caps * str => (fst m2, snd m2))
                                    (matches ci r s'))
                     (star_cls p (w ++ t)) = []).
  { clear w Hw. induction w as [|x w IH]; intros Hw.
    - cbn [app]. destruct t as [|y t]; cbn [star_cls].
      + cbn [flat_map]. now rewrite Hend.
      + cbn [head_not] in Ht. apply negb_true_iff in Ht. rewrite Ht.
        cbn [flat_map]. now rewrite Hend.
    - cbn [forallb] in Hw. apply andb_true_iff in Hw as [Hx Hw].
      cbn [app star_cls]. destruct (p x).
      + rewrite flat_map_app, IH by assumption. cbn [flat_map app].
        now rewrite (Hr x _ Hx).
      + cbn [flat_map]. now rewrite (Hr x _ Hx). }
  rewrite matches_seq. cbn [matches].
  destruct w as [|x w].
  - cbn [app]. destruct t as [|y t]; [reflexivity|].
    cbn [head_not] in Ht. apply negb_true_iff in Ht. now rewrite Ht.
  - cbn [forallb] in Hw. apply andb_true_iff in Hw as [Hx Hw].
    cbn [app]. destruct (p x); [|reflexivity].
    rewrite flat_map_map. cbn [fst snd app]. now apply K.
Qed.

Lemma matches_grp_seq_nil ci n r1 r2 s :
  matches ci (r1 ;; r2) s = [] -> matches ci (Grp n r1 ;; r2) s = [].
Proof.
  rewrite !matches_seq, matches_grp, flat_map_map. cbn [fst snd].
  induction (matches ci r1 s) as [|m l IH]; [reflexivity|].
  cbn [flat_map]. intros H. apply app_eq_nil in H as [H1 H2].
  apply map_eq_nil in H1. rewrite H1. cbn [map app]. now apply IH.
Qed.

(** *** Membership: what a success says about the input *)

Lemma In_seq ci r1 r2 s c rest :
  In (c, rest) (matches ci (r1 ;; r2) s) ->
  exists c1 s1 c2,
    In (c1, s1) (matches ci r1 s) /\ In (c2, rest) (matches ci r2 s1)
    /\ c = c1 ++ c2.
Proof.
  rewrite matches_seq. intros H.
  apply in_flat_map in H as ([c1 s1] & H1 & H2).
  apply in_map_iff in H2 as ([c2 s2] & E & H2). cbn [fst snd] in E, H2.
  injection E as <- <-. eauto 6.
Qed.


Lemma In_plus ci p s c rest :
  In (c, rest) (matches ci (Plus p) s) ->
  c = [] /\ exists w, s = w ++ rest /\ w <> [] /\ forallb p w = true.
Proof.
  cbn [matches]. destruct s as [|x s]; [intros []|].
  destruct (p x) eqn:E; [|intros []].
  intros H. apply in_map_iff in H as (s1 & E1 & H).
  injection E1 as <- <-. split; [reflexivity|].
  apply star_cls_In in H as (w & -> & Hw). exists (x :: w).
  split; [reflexivity|]. split; [discriminate|]. cbn. now rewrite E.
Qed.

Lemma In_Lit ci w s c rest :
  In (c, rest) (matches ci (Lit w) s) ->
  c = [] /\ lit_rest ci w s = Some rest.
Proof.
  rewrite matches_Lit. destruct (lit_rest ci w s); [|intros []].
  intros [E|[]]. injection E as <- <-. auto.
Qed.

Lemma In_grp ci n r s c rest :
  In (c, rest) (matches ci (Grp n r) s) ->
  exists c1, In (c1, rest) (matches ci r s)
             /\ c = (n, firstn (length s - length rest) s) :: c1.
Proof.
  rewrite matches_grp. intros H.
  apply in_map_iff in H as ([c1 s1] & E & H). cbn [fst snd] in E.
  injection E as <- <-. eauto.
Qed.

Lemma hd_error_In {A} (l : list A) x : hd_error l = Some x -> In x l.
Proof. destruct l; [discriminate|]. intros [= ->]. now left. Qed.

Lemma hd_error_map {A B} (f : A -> B) l :
  hd_error (map f l) = option_map f (hd_error l).
Proof. now destruct l. Qed.

(** *** Searching *)

Lemma search_found r s pre c rest :
  search r s = Some (pre, c, rest) ->
  exists s', s = pre ++ s' /\ match_here r s' = Some (c, rest).
Proof.
  revert pre. induction s as [|x s IH]; intros pre H; cbn [search] in H.
  - destruct (match_here r []) as [[c0 r0]|] eqn:E; [|discriminate].
    injection H as <- <- <-. now exists [].
  - destruct (match_here r (x :: s)) as [[c0 r0]|] eqn:E.
    + injection H as <- <- <-. now exists (x :: s).
    + destruct (search r s) as [[[pre' c'] rest']|]; [|discriminate].
      injection H as <- <- <-.
      destruct (IH pre' eq_refl) as (s' & -> & M). now exists s'.
Qed.

Lemma exec_found r s c :
  exec r s = Some c ->
  exists pre s' rest, s = pre ++ s' /\ match_here r s' = Some (c, rest).
Proof.
  unfold exec. destruct (anchored r).
  - destruct (match_here r s) as [[c0 r0]|] eqn:E; [|discriminate].
    intros [= <-]. now exists [], s, r0.
  - destruct (search r s) as [[[pre c0] rest]|] eqn:E; [|discriminate].
    intros [= <-]. apply search_found in E as (s' & -> & M). eauto.
Qed.

Lemma exec_here r s c rest :
  match_here r s = Some (c, rest) -> exec r s = Some c.
Proof.
  intros H. unfold exec. destruct (anchored r); [now rewrite H|].
  destruct s; cbn [search]; now rewrite H.
Qed.

Lemma exec_anchored_none r s :
  anchored r = true -> match_here r s = None -> exec r s = None.
Proof. intros A H. unfold exec. now rewrite A, H. Qed.

Lemma exec_skip r x s :
  anchored r = false -> match_here r (x :: s) = None ->
  exec r (x :: s) = exec r s.
Proof.
  intros A H. unfold exec. rewrite A. cbn [search]. rewrite H.
  now destruct (search r s) as [[[? ?] ?]|].
Qed.

Lemma exec_nil r :
  anchored r = false -> match_here r [] = None -> exec r [] = None.
Proof. intros A H. unfold exec. rewrite A. cbn [search]. now rewrite H. Qed.

(** Nothing is found inside [w] when no suffix of [w ++ t] that starts in
    [w] matches. *)
Lemma exec_skip_all r w t :
  anchored r = false ->
  (forall w1 x w2, w = w1 ++ x :: w2 -> match_here r (x :: w2 ++ t) = None) ->
  exec r (w ++ t) = exec r t.
Proof.
  intros A. induction w as [|x w IH]; intros H; [reflexivity|].
  cbn [app]. rewrite exec_skip; [|exact A|exact (H [] x w eq_refl)].
  apply IH. intros w1 y w2 ->. exact (H (x :: w1) y w2 eq_refl).
Qed.

(** *** Patterns that start with a captured run of a class *)

Lemma run_suffix (p : ascii -> bool) w w1 x w2 :
  forallb p w = true -> w = w1 ++ x :: w2 ->
  x :: w2 <> @nil ascii /\ forallb p (x :: w2) = true.
Proof.
  intros Hw ->. rewrite forallb_app in Hw.
  apply andb_true_iff in Hw as [_ Hw]. split; [discriminate|exact Hw].
Qed.

(** A run of [p] that the rest of the pattern does not follow is skipped
    by the search. *)
Lemma exec_skip_run ci n p r2 w t :
  forallb p w = true -> head_not p t = true -> rejects ci r2 p ->
  matches ci r2 t = [] ->
  exec (mkRegex false ci (Grp n (Plus p) ;; r2)) (w ++ t)
  = exec (mkRegex false ci (Grp n (Plus p) ;; r2)) t.
Proof.
  intros Hw Ht Hr Hend. apply exec_skip_all; [reflexivity|].
  intros w1 x w2 E. destruct (run_suffix p w w1 x w2 Hw E) as [Hne Hs].
  unfold match_here. cbn [icase body].
  change (x :: w2 ++ t) with ((x :: w2) ++ t).
  rewrite seq_grp_plus_munch by assumption. now rewrite Hend.
Qed.

(** Characters outside [p] are skipped by the search. *)
Lemma exec_skip_others ci n p r2 w t :
  forallb (fun x => negb (p x)) w = true ->
  exec (mkRegex false ci (Grp n (Plus p) ;; r2)) (w ++ t)
  = exec (mkRegex false ci (Grp n (Plus p) ;; r2)) t.
Proof.
  intros Hw. apply exec_skip_all; [reflexivity|].
  intros w1 x w2 E. subst w. rewrite forallb_app in Hw.
  apply andb_true_iff in Hw as [_ Hw]. cbn [forallb] in Hw.
  apply andb_true_iff in Hw as [Hx _].
  unfold match_here. cbn [icase body].
  now rewrite seq_grp_plus_fail.
Qed.

(** The run is found where the rest of the pattern follows it. *)
Lemma exec_run_here a ci n p r2 w t c rest :
  w <> [] -> forallb p w = true -> head_not p t = true -> rejects ci r2 p ->
  hd_error (matches ci r2 t) = Some (c, rest) ->
  exec (mkRegex a ci (Grp n (Plus p) ;; r2)) (w ++ t) = Some ((n, w) :: c).
Proof.
  intros Hne Hw Ht Hr Hm.
  apply (exec_here _ _ _ rest). unfold match_here. cbn [icase body].
  rewrite seq_grp_plus_munch by assumption.
  destruct (matches ci r2 t) as [|m l]; [discriminate Hm|].
  cbn [hd_error] in Hm. injection Hm as ->. reflexivity.
Qed.

(** What a pattern that starts with a captured run captures. *)
Lemma exec_run_capture a ci n p r2 s c :
  exec (mkRegex a ci (Grp n (Plus p) ;; r2)) s = Some c ->
  exists w c2, c = (n, w) :: c2 /\ w <> [] /\ forallb p w = true.
Proof.
  intros H. apply exec_found in H as (pre & s' & rest & -> & M).
  unfold match_here in M. cbn [icase body] in M. apply hd_error_In in M.
  apply In_seq in M as (c1 & s1 & c2 & M1 & M2 & ->).
  apply In_grp in M1 as (c0 & M1 & ->).
  apply In_plus in M1 as (-> & w & -> & Hne & Hw).
  rewrite firstn_app_exact. cbn [app]. eauto.
Qed.

(** ** Numbers read from a run of digits and dots *)

Lemma digits_val_from acc ds :
  0 <= acc -> 0 <= fold_left (fun a c => 10 * a + digit_val c) ds acc.
Proof.
  revert acc. induction ds as [|c ds IH]; intros acc Ha; [exact Ha|].
  cbn [fold_left]. apply IH. unfold digit_val. lia.
Qed.

Lemma digits_val_nonneg ds : 0 <= digits_val ds.
Proof. unfold digits_val. now apply digits_val_from. Qed.

Lemma digit_or_dot_head x :
  is_digit_or_dot x = true ->
  is_space x = false /\ is_char 45 x = false /\ is_char 43 x = false
  /\ ascii_eqb "I" x = false.
Proof.
  intros Hx.
  assert (H : forall x, implb (is_digit_or_dot x)
                          (negb (is_space x) && negb (is_char 45 x)
                           && negb (is_char 43 x) && negb (ascii_eqb "I" x))
                  = true).
  { apply ascii_forall. vm_compute. reflexivity. }
  specialize (H x). rewrite Hx in H. cbn [implb] in H.
  apply andb_true_iff in H as [H H4]. apply andb_true_iff in H as [H H3].
  apply andb_true_iff in H as [H1 H2].
  apply negb_true_iff in H1, H2, H3, H4. auto.
Qed.






(** *** [parseDuration] *)






(** *** Patterns that cannot start in a class *)

Lemma rejects_lit ci c w p :
  (forall x, p x = true -> chr_match ci c x = false) ->
  rejects ci (Lit (c :: w)) p.
Proof.
  intros H x t Hx. rewrite matches_Lit. cbn [lit_rest]. now rewrite (H x Hx).
Qed.

Lemma rejects_lit_seq ci c w r p :
  (forall x, p x = true -> chr_match ci c x = false) ->
  rejects ci (Lit (c :: w) ;; r) p.
Proof.
  intros H x t Hx. rewrite matches_seq_Lit. cbn [lit_rest].
  now rewrite (H x Hx).
Qed.

Lemma rejects_star ci q r p :
  (forall x, p x = true -> q x = false) ->
  rejects ci r p -> rejects ci (Star q ;; r) p.
Proof.
  intros H Hr x t Hx. rewrite matches_seq. cbn [matches star_cls].
  rewrite (H x Hx). cbn [map flat_map fst snd]. now rewrite (Hr x t Hx).
Qed.

Lemma rejects_plus ci q r p :
  (forall x, p x = true -> q x = false) -> rejects ci (Plus q ;; r) p.
Proof.
  intros H x t Hx. apply seq_plus_fail. cbn [head_not].
  now rewrite (H x Hx).
Qed.

Lemma rejects_grp ci n r1 r2 p :
  rejects ci (r1 ;; r2) p -> rejects ci (Grp n r1 ;; r2) p.
Proof. intros H x t Hx. apply matches_grp_seq_nil. now apply H. Qed.

(** [\s*unit] follows no digit and no dot. *)
Lemma rejects_ws_unit ci c w :
  is_digit_or_dot c = false ->
  rejects ci (ws_star ;; Lit (c :: w)) is_digit_or_dot.
Proof.
  intros Hc. apply rejects_star.
  - exact digit_or_dot_not_space.
  - apply rejects_lit. intros x Hx. now apply chr_not_digit_or_dot.
Qed.

(** *** Runs and the string functions *)

Lemma take_while_run p w t :
  forallb p w = true -> head_not p t = true -> take_while p (w ++ t) = w.
Proof.
  intros Hw Ht. induction w as [|x w IH].
  - destruct t as [|y t]; [reflexivity|]. cbn [head_not] in Ht.
    apply negb_true_iff in Ht. cbn. now rewrite Ht.
  - cbn [forallb] in Hw. apply andb_true_iff in Hw as [Hx Hw].
    cbn. rewrite Hx. f_equal. now apply IH.
Qed.

Lemma drop_while_run p w t :
  forallb p w = true -> head_not p t = true -> drop_while p (w ++ t) = t.
Proof.
  intros Hw Ht. induction w as [|x w IH].
  - destruct t as [|y t]; [reflexivity|]. cbn [head_not] in Ht.
    apply negb_true_iff in Ht. cbn. now rewrite Ht.
  - cbn [forallb] in Hw. apply andb_true_iff in Hw as [Hx Hw].
    cbn. rewrite Hx. now apply IH.
Qed.


(** A word whose first character does not occur in [s] is not in [s]. *)
Lemma includes_absent s c p :
  forallb (fun x => negb (ascii_eqb c x)) s = true ->
  includes s (c :: p) = false.
Proof.
  induction s as [|x s IH]; intros H; [reflexivity|].
  cbn [forallb] in H. apply andb_true_iff in H as [Hx Hs].
  apply negb_true_iff in Hx. cbn [includes starts_with]. rewrite Hx.
  cbn [andb orb]. now apply IH.
Qed.

Lemma forallb_impl {A} (p q : A -> bool) l :
  (forall x, p x = true -> q x = true) ->
  forallb p l = true -> forallb q l = true.
Proof.
  intros H. induction l as [|x l IH]; [reflexivity|]. cbn [forallb].
  intros E. apply andb_true_iff in E as [E1 E2].
  now rewrite (H x E1), IH.
Qed.

(** *** Numerals *)


Lemma take_while_all p w : forallb p w = true -> take_while p w = w.
Proof.
  intros H. rewrite <- (app_nil_r w) at 1. now apply take_while_run.
Qed.

Lemma drop_while_all p w : forallb p w = true -> drop_while p w = [].
Proof.
  intros H. rewrite <- (app_nil_r w). now apply drop_while_run.
Qed.


(** *** Rounding a sum of minutes and seconds *)








(** *** The duration patterns on a number followed by its unit *)

Lemma unit_head_not ci (p : ascii -> bool) c unit u rest :
  p c = false ->
  (forall x, chr_match ci c x = true -> p x = p c) ->
  Forall2 (fun c x => chr_match ci c x = true) (c :: unit) u ->
  head_not p (u ++ rest) = true.
Proof.
  intros Hc Hcls F. inversion F as [|? x ? u' Hx ?]; subst.
  cbn [app head_not]. now rewrite (Hcls x Hx), Hc.
Qed.

Lemma matches_ws_unit ci c unit w0 u rest :
  is_space c = false ->
  forallb is_space w0 = true ->
  Forall2 (fun c x => chr_match ci c x = true) (c :: unit) u ->
  matches ci (ws_star ;; Lit (c :: unit)) (w0 ++ u ++ rest) = [([], rest)].
Proof.
  intros Hc Hw F. unfold ws_star. rewrite seq_star_munch.
  - rewrite matches_Lit. now rewrite lit_rest_intro.
  - exact Hw.
  - apply (unit_head_not ci is_space c unit u rest); [exact Hc| |exact F].
    intros x Hx. now apply chr_match_class in Hx as (E & _).
  - apply rejects_lit. intros x Hx. now apply chr_not_space.
Qed.

Lemma ws_unit_head_not c unit ci w0 u rest :
  is_digit_or_dot c = false ->
  forallb is_space w0 = true ->
  Forall2 (fun c x => chr_match ci c x = true) (c :: unit) u ->
  head_not is_digit_or_dot (w0 ++ u ++ rest) = true.
Proof.
  intros Hc Hw F. destruct w0 as [|y w0].
  - cbn [app].
    apply (unit_head_not ci is_digit_or_dot c unit u rest);
      [exact Hc| |exact F].
    intros x Hx. now apply chr_match_class in Hx as (_ & _ & E).
  - cbn [forallb] in Hw. apply andb_true_iff in Hw as [Hy _].
    cbn [app head_not]. now rewrite (space_not_digit_or_dot y Hy).
Qed.

(** [/([\d.]+)\s*unit/i] finds a run of digits and dots that white space
    and the unit follow, and captures the run. *)
Lemma exec_number_unit a ci c unit d w0 u rest :
  is_space c = false -> is_digit_or_dot c = false ->
  d <> [] -> forallb is_digit_or_dot d = true ->
  forallb is_space w0 = true ->
  Forall2 (fun c x => chr_match ci c x = true) (c :: unit) u ->
  exec (mkRegex a ci (Grp 1 number ;; ws_star ;; Lit (c :: unit)))
       (d ++ w0 ++ u ++ rest)
  = Some [(1%nat, d)].
Proof.
  intros Hs Hc Hne Hd Hw F. unfold number.
  apply (exec_run_here a ci 1 is_digit_or_dot _ d _ [] rest);
    try assumption.
  - now apply (ws_unit_head_not c unit ci).
  - now apply rejects_ws_unit.
  - now rewrite matches_ws_unit.
Qed.



Lemma run_lacks c w :
  is_digit_or_dot c = false -> forallb is_digit_or_dot w = true ->
  forallb (fun x => negb (ascii_eqb c x)) w = true.
Proof.
  intros Hc. apply forallb_impl. intros x Hx.
  apply negb_true_iff. exact (chr_not_digit_or_dot false c x Hc Hx).
Qed.

Lemma parseDuration_text s :
  s <> [] ->
  parseDuration (Some s)
  = if isNaN (rawDuration s) || lt0 (rawDuration s) then of_Z 0
    else Math_round (rawDuration s).
Proof. destruct s; [congruence|reflexivity]. Qed.

Lemma capture_found w : w <> [] -> capture 1 (Some [(1%nat, w)]) = Some w.
Proof. destruct w; [congruence|reflexivity]. Qed.






(** ** A text on which the Free Ride pattern matches *)

Lemma head_not_sub (p q : ascii -> bool) t :
  (forall x, p x = true -> q x = true) ->
  head_not q t = true -> head_not p t = true.
Proof.
  intros H. destruct t as [|y t]; [reflexivity|]. cbn [head_not].
  intros Hq. apply negb_true_iff in Hq. apply negb_true_iff.
  destruct (p y) eqn:E; [|reflexivity]. now rewrite (H y E) in Hq.
Qed.

(** Under the [i] flag a text that reads as the word [c' :: w'] does not
    start with a word whose first letter differs from [c']. *)
Lemma lit_rest_other c w c' w' u rest :
  Forall2 (fun c x => chr_match true c x = true) (c' :: w') u ->
  chr_match true c c' = false ->
  lit_rest true (c :: w) (u ++ rest) = None.
Proof.
  intros F H. inversion F as [|? x ? u' Hx ?]; subst.
  cbn [app lit_rest]. now rewrite (chr_match_other c' c x Hx), H.
Qed.


Lemma forallb_false_split {A} (p : A -> bool) l :
  forallb p l = false ->
  exists l1 x l2, l = l1 ++ x :: l2 /\ forallb p l1 = true /\ p x = false.
Proof.
  induction l as [|y l IH]; [discriminate|]. cbn [forallb].
  destruct (p y) eqn:E.
  - cbn [andb]. intros H. destruct (IH H) as (l1 & x & l2 & -> & H1 & H2).
    exists (y :: l1), x, l2. cbn [forallb app]. now rewrite E.
  - intros _. now exists [], y, l.
Qed.


Lemma space_lacks c w :
  is_space c = false -> forallb is_space w = true ->
  forallb (fun x => negb (ascii_eqb c x)) w = true.
Proof.
  intros Hc. apply forallb_impl. intros x Hx.
  apply negb_true_iff. exact (chr_not_space false c x Hc Hx).
Qed.

(** A text that reads as the word [w] under the [i] flag holds no
    character that no letter of [w] matches. *)
Lemma word_lacks c w : forall u,
  Forall2 (fun c x => chr_match true c x = true) w u ->
  forallb (fun c0 => negb (chr_match true c c0)) w = true ->
  forallb (fun x => negb (ascii_eqb c x)) u = true.
Proof.
  induction w as [|c0 w IH]; intros u F H; inversion F as [|? x ? u' Hx F'];
    subst; [reflexivity|].
  cbn [forallb] in H |- *. apply andb_true_iff in H as [H0 H].
  rewrite (IH u' F' H), andb_true_r. apply negb_true_iff.
  apply negb_true_iff in H0.
  destruct (ascii_eqb c x) eqn:E; [|reflexivity].
  apply Ascii.eqb_eq in E. subst x.
  rewrite <- (chr_match_other c0 c c Hx) in H0.
  unfold chr_match, ascii_eqb in H0. now rewrite Ascii.eqb_refl in H0.
Qed.

Lemma word_not_digit_or_dot w : forall u,
  Forall2 (fun c x => chr_match true c x = true) w u ->
  forallb (fun c => negb (is_digit_or_dot c)) w = true ->
  forallb (fun x => negb (is_digit_or_dot x)) u = true.
Proof.
  induction w as [|c0 w IH]; intros u F H; inversion F as [|? x ? u' Hx F'];
    subst; [reflexivity|].
  cbn [forallb] in H |- *. apply andb_true_iff in H as [H0 H].
  rewrite (IH u' F' H), andb_true_r.
  apply chr_match_class in Hx as (_ & _ & E). now rewrite E.
Qed.

(** The seconds a number and its unit stand for do not depend on the
    white space between them. *)
Lemma rawDuration_number_unit d w0 u :
  d <> [] -> forallb is_digit_or_dot d = true ->
  forallb is_space w0 = true ->
  (Forall2 (fun c x => chr_match true c x = true) (txt "min") u ->
   rawDuration (d ++ w0 ++ u) = mul (parseFloat d) (of_Z 60))
  /\ (Forall2 (fun c x => chr_match true c x = true) (txt "sec") u ->
      rawDuration (d ++ w0 ++ u) = parseFloat d).
Proof.
  intros Hdne Hd Hw0.
  assert (Sp : forallb (fun x => negb (is_digit_or_dot x)) w0 = true).
  { revert Hw0. apply forallb_impl. intros x Hx.
    now rewrite (space_not_digit_or_dot x Hx). }
  split; intros Hu; unfold rawDuration.
  - assert (I : includes (d ++ w0 ++ u) (txt "sec") = false).
    { apply includes_absent. rewrite !forallb_app.
      rewrite (run_lacks "s" d), (space_lacks "s" w0),
        (word_lacks "s" (txt "min") u Hu); try assumption; reflexivity. }
    rewrite I, andb_false_r. cbv zeta.
    assert (E : exec re_min (d ++ w0 ++ u) = Some [(1%nat, d)]).
    { rewrite <- (app_nil_r u).
      apply (exec_number_unit false true "m" (txt "in") d w0 u []);
        assumption || reflexivity. }
    now rewrite E, capture_found.
  - assert (I : includes (d ++ w0 ++ u) (txt "min") = false).
    { apply includes_absent. rewrite !forallb_app.
      rewrite (run_lacks "m" d), (space_lacks "m" w0),
        (word_lacks "m" (txt "sec") u Hu); try assumption; reflexivity. }
    rewrite I. cbn [andb]. cbv zeta.
    assert (E1 : exec re_min (d ++ w0 ++ u) = None).
    { transitivity (exec re_min (w0 ++ u)).
      { unfold re_min, number. apply exec_skip_run.
        - exact Hd.
        - rewrite <- (app_nil_r u).
          apply (ws_unit_head_not "s" (txt "ec") true);
            assumption || reflexivity.
        - apply (rejects_ws_unit true "m" (txt "in")). reflexivity.
        - unfold ws_star, word. rewrite seq_star_munch.
          + assert (L : lit_rest true (txt "min") (u ++ []) = None)
              by (now apply (lit_rest_other "m" (txt "in") "s" (txt "ec"))).
            rewrite matches_Lit. rewrite <- (app_nil_r u). now rewrite L.
          + exact Hw0.
          + rewrite <- (app_nil_r u).
            apply (unit_head_not true is_space "s" (txt "ec") u []);
              [reflexivity| |exact Hu].
            intros x Hx. now apply chr_match_class in Hx as (E & _).
          + apply (rejects_lit true "m" (txt "in")).
            intros x Hx. now apply chr_not_space. }
      transitivity (exec re_min []); [|vm_compute; reflexivity].
      rewrite <- (app_nil_r (w0 ++ u)).
      unfold re_min, number. apply exec_skip_others.
      rewrite forallb_app, Sp.
      now rewrite (word_not_digit_or_dot (txt "sec") u Hu). }
    assert (E2 : exec re_sec (d ++ w0 ++ u) = Some [(1%nat, d)]).
    { rewrite <- (app_nil_r u).
      apply (exec_number_unit false true "s" (txt "ec") d w0 u []);
        assumption || reflexivity. }
    rewrite E1, E2, capture_found by assumption. reflexivity.
Qed.

Section FreeRideText.

Variables d w0 u w1 f tail : str.

Hypothesis Hdne : d <> [].
Hypothesis Hd : forallb is_digit_or_dot d = true.
Hypothesis Hw0 : forallb is_space w0 = true.
Hypothesis Hu :
  Forall2 (fun c x => chr_match true c x = true) (txt "min") u
  \/ Forall2 (fun c x => chr_match true c x = true) (txt "sec") u.
Hypothesis Hw1ne : w1 <> [].
Hypothesis Hw1 : forallb is_space w1 = true.
Hypothesis Hf : Forall2 (fun c x => chr_match true c x = true) (txt "free") f.

(** What follows the duration phrase, and what follows its number. *)
Let after_unit : str := w1 ++ f ++ tail.
Let after_number : str := w0 ++ u ++ after_unit.


Lemma unit_letter :
  exists c w, (c = "m"%char \/ c = "s"%char)
    /\ Forall2 (fun c x => chr_match true c x = true) (c :: w) u.
Proof.
  destruct Hu as [H|H]; [exists "m"%char, (txt "in")|exists "s"%char, (txt "ec")];
    auto.
Qed.

Lemma unit_head_not_space t : head_not is_space (u ++ t) = true.
Proof.
  destruct unit_letter as (c & w & Hc & F).
  apply (unit_head_not true is_space c w u t); [| |exact F].
  - destruct Hc as [-> | ->]; reflexivity.
  - intros x Hx. now apply chr_match_class in Hx as (E & _).
Qed.

Lemma after_number_head_not : head_not is_digit_or_dot after_number = true.
Proof.
  destruct unit_letter as (c & w & Hc & F). unfold after_number.
  apply (ws_unit_head_not c w true); [|exact Hw0|exact F].
  destruct Hc as [-> | ->]; reflexivity.
Qed.





(** The unit the text has, and the one it has not. *)
Lemma unit_rest t :
  (lit_rest true (txt "min") (u ++ t) = Some t
   /\ lit_rest true (txt "sec") (u ++ t) = None)
  \/ (lit_rest true (txt "sec") (u ++ t) = Some t
      /\ lit_rest true (txt "min") (u ++ t) = None).
Proof.
  destruct Hu as [H|H]; [left|right]; split;
    try (now apply lit_rest_intro).
  - now apply (lit_rest_other "s" (txt "ec") "m" (txt "in")).
  - now apply (lit_rest_other "m" (txt "in") "s" (txt "ec")).
Qed.

(** [\s*unit] at the white space after the number. *)
Lemma ws_unit_after_number c w :
  is_space c = false ->
  matches true (ws_star ;; Lit (c :: w)) after_number
  = match lit_rest true (c :: w) (u ++ after_unit) with
    | Some rest => [([], rest)]
    | None => []
    end.
Proof.
  intros Hc. unfold after_number, ws_star. rewrite seq_star_munch.
  - apply matches_Lit.
  - exact Hw0.
  - apply unit_head_not_space.
  - apply rejects_lit. intros x Hx. now apply chr_not_space.
Qed.

Lemma ws_unit_then_after_number c w r :
  is_space c = false ->
  matches true (ws_star ;; Lit (c :: w) ;; r) after_number
  = match lit_rest true (c :: w) (u ++ after_unit) with
    | Some rest => matches true r rest
    | None => []
    end.
Proof.
  intros Hc. unfold after_number, ws_star. rewrite seq_star_munch.
  - apply matches_seq_Lit.
  - exact Hw0.
  - apply unit_head_not_space.
  - apply rejects_lit_seq. intros x Hx. now apply chr_not_space.
Qed.


(** The second alternative, [\d+\s*sec]. *)
Lemma dur_seconds :
  matches true (digits ;; ws_star ;; word "sec") (d ++ after_number)
  = match lit_rest true (txt "sec") (u ++ after_unit) with
    | Some _ => if forallb is_digit d then [([], after_unit)] else []
    | None => []
    end.
Proof.
  assert (W : matches true (ws_star ;; word "sec") after_number
              = match lit_rest true (txt "sec") (u ++ after_unit) with
                | Some rest => [([], rest)]
                | None => []
                end)
    by (apply (ws_unit_after_number "s" (txt "ec")); reflexivity).
  assert (Rj : forall p, (forall x, p x = true -> is_digit_or_dot x = true) ->
               rejects true (ws_star ;; word "sec") p).
  { intros p Hp x t Hx. apply (rejects_ws_unit true "s" (txt "ec"));
      [reflexivity|now apply Hp]. }
  destruct (forallb is_digit d) eqn:Dd.
  - unfold digits. rewrite seq_plus_munch.
    + rewrite W. destruct (unit_rest after_unit) as [[_ E]|[E _]];
        now rewrite E.
    + exact Hdne.
    + exact Dd.
    + apply (head_not_sub is_digit is_digit_or_dot);
        [exact digit_is_digit_or_dot|apply after_number_head_not].
    + apply Rj. exact digit_is_digit_or_dot.
  - assert (E : matches true (digits ;; ws_star ;; word "sec")
                        (d ++ after_number) = []).
    { destruct (forallb_false_split is_digit d Dd)
        as (d1 & x & d2 & E & D1 & Dx).
      rewrite E in Hd |- *. rewrite forallb_app in Hd.
      apply andb_true_iff in Hd as [_ Hd2]. cbn [forallb] in Hd2.
      apply andb_true_iff in Hd2 as [Hx _].
      rewrite <- app_assoc. unfold digits.
      apply (seq_plus_none true is_digit is_digit).
      - auto.
      - exact D1.
      - cbn [app head_not]. now rewrite Dx.
      - apply Rj. exact digit_is_digit_or_dot.
      - cbn [app]. now apply (Rj is_digit_or_dot). }
    rewrite E. now destruct (lit_rest true (txt "sec") (u ++ after_unit)).
Qed.







Lemma interval_on_text : exec re_interval (d ++ after_number) = None.
Proof.
  apply exec_anchored_none; [reflexivity|].
  unfold match_here, re_interval, word, digits. cbn [icase body].
  rewrite matches_grp_seq_nil; [reflexivity|].
  apply (seq_plus_none true is_digit is_digit_or_dot).
  - exact digit_is_digit_or_dot.
  - exact Hd.
  - apply (head_not_sub is_digit is_digit_or_dot);
      [exact digit_is_digit_or_dot|apply after_number_head_not].
  - apply (rejects_lit_seq true "x" []).
    intros x Hx. now apply chr_not_digit_or_dot.
  - rewrite matches_seq_Lit. unfold after_number.
    change (txt "x") with ["x"%char].
    destruct w0 as [|y w0'].
    + cbn [app]. destruct unit_letter as (c & w & Hc & F).
      rewrite (lit_rest_other "x" [] c w u after_unit F); [reflexivity|].
      destruct Hc as [-> | ->]; reflexivity.
    + cbn [app txt list_ascii_of_string lit_rest].
      cbn [forallb] in Hw0. apply andb_true_iff in Hw0 as [Hy _].
      now rewrite (chr_not_space true "x" y).
Qed.



End FreeRideText.

(** *** Every text of the Free Ride shape is matched *)

Lemma matches_alt_seq ci r1 r2 r s :
  matches ci (Alt r1 r2 ;; r) s
  = matches ci (r1 ;; r) s ++ matches ci (r2 ;; r) s.
Proof. rewrite !matches_seq, matches_alt. apply flat_map_app. Qed.

Lemma rejects_alt_seq ci r1 r2 r p :
  rejects ci (r1 ;; r) p -> rejects ci (r2 ;; r) p ->
  rejects ci (Alt r1 r2 ;; r) p.
Proof.
  intros H1 H2 x t Hx. now rewrite matches_alt_seq, (H1 x t Hx), (H2 x t Hx).
Qed.

Lemma rejects_unit_group ci r p :
  (forall x, p x = true -> chr_match ci "m" x = false) ->
  (forall x, p x = true -> chr_match ci "s" x = false) ->
  rejects ci (Grp 2 (Alt (word "min") (word "sec")) ;; r) p.
Proof.
  intros Hm Hs. apply rejects_grp, rejects_alt_seq.
  - now apply (rejects_lit_seq ci "m" (txt "in")).
  - now apply (rejects_lit_seq ci "s" (txt "ec")).
Qed.


(** *** The text of a number holds no capital C *)

Lemma lacks_app c a b : lacks c (a ++ b) = lacks c a && lacks c b.
Proof. apply forallb_app. Qed.

Lemma lacks_cons c x s :
  lacks c (x :: s) = negb (ascii_eqb c x) && lacks c s.
Proof. reflexivity. Qed.

Lemma digits_lack_C s : forallb is_digit s = true -> lacks "C" s = true.
Proof.
  apply forallb_impl. intros x Hx. apply negb_true_iff.
  exact (chr_not_digit false "C" x eq_refl Hx).
Qed.

Lemma forallb_drop_while (p q : ascii -> bool) l :
  forallb p l = true -> forallb p (drop_while q l) = true.
Proof.
  induction l as [|x l IH]; intros H; [reflexivity|].
  cbn [drop_while]. destruct (q x); [|exact H].
  cbn [forallb] in H. apply andb_true_iff in H as [_ H]. now apply IH.
Qed.

Lemma strip_trailing_zeros_digits ds :
  forallb is_digit ds = true ->
  forallb is_digit (strip_trailing_zeros ds) = true.
Proof.
  intros H. unfold strip_trailing_zeros. apply forallb_rev.
  apply forallb_drop_while. now apply forallb_rev.
Qed.

Lemma lacks_app_true c a b :
  lacks c a = true -> lacks c b = true -> lacks c (a ++ b) = true.
Proof. intros Ha Hb. now rewrite lacks_app, Ha, Hb. Qed.

Lemma lacks_cons_true c x s :
  ascii_eqb c x = false -> lacks c s = true -> lacks c (x :: s) = true.
Proof. intros Hx Hs. now rewrite lacks_cons, Hx, Hs. Qed.

Lemma pos_to_string_lacks_C d : lacks "C" (pos_to_string d) = true.
Proof.
  unfold pos_to_string.
  set (all := digits_of (mant d)).
  set (s := strip_trailing_zeros all).
  assert (Hs : forallb is_digit s = true)
    by (apply strip_trailing_zeros_digits, digits_of_digits).
  assert (Ls : lacks "C" s = true) by now apply digits_lack_C.
  assert (Lz : forall k, lacks "C" (zeros k) = true)
    by (intros k; apply digits_lack_C, zeros_digits).
  assert (Ld : forall n, lacks "C" (digits_of n) = true)
    by (intros n; apply digits_lack_C, digits_of_digits).
  cbv zeta.
  destruct (_ && _); [now apply lacks_app_true|].
  destruct (_ && _).
  { apply lacks_app_true; [|apply lacks_app_true; [reflexivity|]].
    - apply digits_lack_C. now apply forallb_firstn.
    - apply digits_lack_C. now apply forallb_skipn. }
  destruct (_ && _).
  { apply lacks_app_true; [reflexivity|]. now apply lacks_app_true. }
  assert (Le : forall b : bool, forall n,
             lacks "C" ((if b then txt "e+" else txt "e-") ++ digits_of n)
             = true).
  { intros b n. apply lacks_app_true; [now destruct b|apply Ld]. }
  destruct s as [|c s']; [apply Le|].
  rewrite lacks_cons in Ls. apply andb_true_iff in Ls as [Lc Ls'].
  apply negb_true_iff in Lc.
  destruct s' as [|c' s''].
  - apply lacks_cons_true; [exact Lc|apply Le].
  - apply lacks_cons_true; [exact Lc|].
    apply lacks_app_true; [reflexivity|].
    apply lacks_app_true; [exact Ls'|apply Le].
Qed.

Lemma to_string_lacks_C x : lacks "C" (to_string x) = true.
Proof.
  destruct x as [|[|]|d]; try reflexivity. unfold to_string.
  destruct (mant d =? 0); [reflexivity|].
  destruct (mant d <? 0).
  - apply lacks_app_true; [reflexivity|apply pos_to_string_lacks_C].
  - apply pos_to_string_lacks_C.
Qed.

(** The attributes written for [{type: 'FreeRide', duration, flatRoad: 1}]
    do not hold the word Cadence. *)
Lemma freeRide_attributes_without_cadence d :
  includes (attr "Duration" (to_string d) ++ txt " "
            ++ attr "FlatRoad" (txt "1")) (txt "Cadence") = false.
Proof.
  apply (includes_absent _ "C" (txt "adence")). fold (lacks "C").
  unfold attr. apply lacks_app_true; [|reflexivity].
  do 3 (apply lacks_app_true; [reflexivity|]).
  apply lacks_app_true; [apply to_string_lacks_C|reflexivity].
Qed.

(** C10.  A FreeRide segment the classifier returns is exactly
    [{type, duration, flatRoad: 1}]: it has no cadence, also for a text
    with a cadence marker, so its element has the attributes Duration and
    FlatRoad, in which the word Cadence does not occur; for a FreeRide
    segment that does carry a cadence the serializer writes the Cadence
    attribute. *)
Theorem C10_classified_freeRide_has_no_cadence :
  (forall e seg,
      parseSegment e = Ok (Some seg) ->
      type seg = txt "FreeRide" ->
      (exists d, seg = FreeRide d /\ gt0 d = true)
      /\ cadence seg = Undefined
      /\ flatRoad seg = Num (of_Z 1)
      /\ (forall n xml i,
            emit n xml i seg
            = Ok (xml ++ element_line (boundary_tag n i seg)
                    (attr "Duration" (show (duration seg)) ++ txt " "
                     ++ attr "FlatRoad" (txt "1"))))
      /\ includes (attr "Duration" (show (duration seg)) ++ txt " "
                   ++ attr "FlatRoad" (txt "1")) (txt "Cadence") = false)
  /\ (cadence_of (text_of (mkElement None
                             (Some (txt "15min free ride @ 85rpm")) []))
      = Num (of_Z 85)
      /\ parseSegment (mkElement None
                         (Some (txt "15min free ride @ 85rpm")) [])
         = Ok (Some (FreeRide (of_Z 900))))
  /\ (forall n xml i d cad,
        truthy cad = true ->
        emit n xml i (FreeRide_with_cadence d cad)
        = Ok (xml ++ element_line
                (boundary_tag n i (FreeRide_with_cadence d cad))
                (attr "Duration" (to_string d) ++ txt " "
                 ++ attr "FlatRoad" (txt "1") ++ txt " "
                 ++ attr "Cadence" (show cad)))).
Proof.
  split; [|split].
  - intros e seg P T.
    destruct (parseSegment_kind e seg P) as [(d & -> & G)|[K|[K|K]]];
      try (rewrite K in T; vm_compute in T; discriminate T).
    split; [eauto|]. split; [reflexivity|]. split; [reflexivity|].
    split; [intros n xml i; now apply emit_known|].
    apply freeRide_attributes_without_cadence.
  - split; vm_compute; reflexivity.
  - intros n xml i d cad Hc. apply emit_known; [reflexivity|].
    unfold attributes. cbn [FreeRide_with_cadence type str_eqb].
    simpl str_eqb. cbv iota. unfold opt_attr.
    cbn [FreeRide_with_cadence cadence duration flatRoad]. rewrite Hc.
    reflexivity.
Qed.

Lemma C10_witness :
  parseSegment (mkElement None (Some (txt "15min free ride @ 85rpm")) [])
  = Ok (Some (FreeRide (of_Z 900)))
  /\ cadence (FreeRide (of_Z 900)) = Undefined.
Proof.
  split; [vm_compute; reflexivity|].
  exact (proj1 (proj2 (proj1 C10_classified_freeRide_has_no_cadence
     (mkElement None (Some (txt "15min free ride @ 85rpm")) [])
     (FreeRide (of_Z 900)) eq_refl eq_refl))).
Defined.




(** ** The cases of [tests/parser.test.js]

    The embedding agrees with what the repository's tests expect, except
    for the case "Intervals with only Off Cadence" (see C2). *)

Example test_parseDuration_valid :
  map (fun s => parseDuration (Some (txt s)))
      ["10min"; "1min"; "90sec"; "30sec"; "2.5min"; "0.5min"; "15.5sec";
       "15.4sec"; "7min 30sec"; "2min 15sec"; "1min 5sec"]%string
  = map of_Z [600; 60; 90; 30; 150; 30; 16; 15; 450; 135; 65].
Proof. vm_compute. reflexivity. Qed.

Example test_parseDuration_invalid :
  map parseDuration
      [Some (txt "0min"); Some (txt "0sec"); Some []; Some (txt "invalid string");
       Some (txt "10 m"); Some (txt "10"); None]
  = map of_Z [0; 0; 0; 0; 0; 0; 0].
Proof. vm_compute. reflexivity. Qed.

Example test_steady_state :
  parseSegment (mkElement None (Some (txt "10min @ 80% FTP")) [txt "80"])
  = Ok (Some (SteadyState (of_Z 600) (div100 (of_Z 80)) Null))
  /\ parseSegment (mkElement None (Some (txt "5min @ 85rpm, 75% FTP"))
                             [txt "75"])
     = Ok (Some (SteadyState (of_Z 300) (div100 (of_Z 75)) (Num (of_Z 85))))
  /\ parseSegment (mkElement None (Some (txt "90sec @ 90% FTP")) [txt "90"])
     = Ok (Some (SteadyState (of_Z 90) (div100 (of_Z 90)) Null))
  /\ parseSegment (mkElement None (Some (txt "5min @ 85rpm")) []) = Ok None
  /\ parseSegment (mkElement None (Some (txt "12min 65% FTP")) [txt "65"])
     = Ok (Some (SteadyState (of_Z 720) (div100 (of_Z 65)) Null)).
Proof. repeat split; vm_compute; reflexivity. Qed.

Example test_ramp :
  parseSegment (mkElement None (Some (txt "8min from 60 to 85% FTP"))
                          [txt "60"; txt "85"])
  = Ok (Some (Ramp (of_Z 480) (div100 (of_Z 60)) (div100 (of_Z 85)) Null))
  /\ parseSegment (mkElement None
                     (Some (txt "10min @ 90rpm, from 50 to 70% FTP"))
                     [txt "50"; txt "70"])
     = Ok (Some (Ramp (of_Z 600) (div100 (of_Z 50)) (div100 (of_Z 70))
                      (Num (of_Z 90))))
  /\ parseSegment (mkElement None (Some (txt "10min from to % FTP")) [])
     = Ok None
  /\ parseSegment (mkElement None (Some (txt "7min 30sec from 216 to 60W"))
                             [txt "90"; txt "25"])
     = Ok (Some (Ramp (of_Z 450) (div100 (of_Z 90)) (div100 (of_Z 25)) Null)).
Proof. repeat split; vm_compute; reflexivity. Qed.

Example test_intervals :
  parseSegment (mkElement None
                  (Some (txt "6x 3min @ 105% FTP,1min @ 50% FTP"))
                  [txt "105"; txt "50"])
  = Ok (Some (IntervalsT (of_Z 6) (of_Z 180) (div100 (of_Z 105)) (of_Z 60)
                         (div100 (of_Z 50)) Null Null))
  /\ parseSegment (mkElement None
                     (Some (txt "2x 30sec @ 110rpm, 110% FTP, 30sec @ 85rpm, 55% FTP"))
                     [txt "110"; txt "55"])
     = Ok (Some (IntervalsT (of_Z 2) (of_Z 30) (div100 (of_Z 110)) (of_Z 30)
                            (div100 (of_Z 55)) (Num (of_Z 110))
                            (Num (of_Z 85))))
  /\ parseSegment (mkElement None
                     (Some (txt "4x 1min @ 100rpm, 100% FTP, 2min @ 60% FTP"))
                     [txt "100"; txt "60"])
     = Ok (Some (IntervalsT (of_Z 4) (of_Z 60) (div100 (of_Z 100)) (of_Z 120)
                            (div100 (of_Z 60)) (Num (of_Z 100)) Null))
  /\ parseSegment (mkElement None (Some (txt "6x 3min @ ,1min @")) [])
     = Ok None
  /\ parseSegment (mkElement None
                     (Some (txt "6x 3min @ 105% FTP, @ 50% FTP"))
                     [txt "105"; txt "50"])
     = Ok None
  /\ parseSegment (mkElement None
                     (Some (txt "5x 2min 30sec @ 105rpm, 276W, 3min @ 85rpm, 132W"))
                     [txt "115"; txt "55"])
     = Ok (Some (IntervalsT (of_Z 5) (of_Z 150) (div100 (of_Z 115))
                            (of_Z 180) (div100 (of_Z 55)) (Num (of_Z 105))
                            (Num (of_Z 85)))).
Proof. repeat split; vm_compute; reflexivity. Qed.

Example test_unparsed :
  parseSegment (mkElement None (Some (txt "Just some random text")) [])
  = Ok None
  /\ parseSegment (mkElement None (Some []) []) = Ok None.
Proof. split; vm_compute; reflexivity. Qed.

Example test_generateZWO_single_ramp :
  generateZWO (txt "Single Ramp") (txt "undefined")
    [Ramp (of_Z 600) (div100 (of_Z 50)) (div100 (of_Z 70)) (Num (of_Z 90))]
  = Ok (header (txt "Single Ramp") (txt "undefined")
        ++ txt "        <Warmup Duration=" ++ [dq] ++ txt "600" ++ [dq]
        ++ txt " PowerLow=" ++ [dq] ++ txt "0.50" ++ [dq]
        ++ txt " PowerHigh=" ++ [dq] ++ txt "0.70" ++ [dq]
        ++ txt " Cadence=" ++ [dq] ++ txt "90" ++ [dq] ++ txt " />" ++ [nl]
        ++ footer).
Proof. vm_compute. reflexivity. Qed.

Example test_generateZWO_two_segments :
  generateZWO (txt "Two Segments") (txt "undefined")
    [SteadyState (of_Z 600) (div100 (of_Z 80)) Null;
     IntervalsT (of_Z 6) (of_Z 180) (div100 (of_Z 105)) (of_Z 60)
                (div100 (of_Z 50)) Null Null]
  = Ok (header (txt "Two Segments") (txt "undefined")
        ++ element_line (txt "Warmup")
             (attr "Duration" (txt "600") ++ txt " "
              ++ attr "Power" (txt "0.80"))
        ++ element_line (txt "Cooldown")
             (attr "Repeat" (txt "6") ++ txt " "
              ++ attr "OnDuration" (txt "180") ++ txt " "
              ++ attr "OnPower" (txt "1.05") ++ txt " "
              ++ attr "OffDuration" (txt "60") ++ txt " "
              ++ attr "OffPower" (txt "0.50"))
        ++ footer).
Proof. vm_compute. reflexivity. Qed.

Example test_generateZWO_unknown_type :
  generateZWO (txt "Unknown Test") (txt "undefined")
    [mkSegment (txt "Unknown") (Num (of_Z 120)) Undefined Undefined Undefined
               (Num (of_Z 70)) Undefined Undefined Undefined Undefined
               Undefined Undefined Undefined Undefined]
  = Ok (header (txt "Unknown Test") (txt "undefined")
        ++ element_line (txt "Warmup")
             (attr "Duration" (txt "120") ++ txt " "
              ++ attr "Power" (txt "0.50") ++ txt " "
              ++ attr "Cadence" (txt "70"))
        ++ footer).
Proof. vm_compute. reflexivity. Qed.

(** * The download button and the rest of the classifier *)

(** ** The file name *)

Lemma cls_i_name_class x :
  cls_i name_class x = filename_char x || is_space x.
Proof.
  apply eqb_prop. revert x. apply ascii_forall. vm_compute. reflexivity.
Qed.

Lemma replace_all_cls ci p rep s :
  replace_all (mkRegex false ci (Cls p)) rep 0 s
  = flat_map (fun c => if p c then rep else [c]) s.
Proof.
  induction s as [|x s IH]; [reflexivity|].
  cbn [replace_all flat_map]. unfold match_here. cbn [icase body matches].
  destruct (p x) eqn:E; cbn [hd_error].
  - replace (length (x :: s) - length s)%nat with 1%nat
      by (change (length (x :: s)) with (S (length s)); lia).
    now rewrite IH.
  - now rewrite IH.
Qed.

Lemma replace_unsafe s :
  replace_all re_unsafe (txt "_") 0 s
  = map (fun c => if is_space c then c else sanitize c) s.
Proof.
  unfold re_unsafe. rewrite replace_all_cls.
  induction s as [|x s IH]; [reflexivity|].
  cbn [flat_map map]. rewrite IH, cls_i_name_class. unfold sanitize.
  destruct (filename_char x), (is_space x); reflexivity.
Qed.

Lemma hd_star_cls p w t :
  forallb p w = true -> head_not p t = true ->
  hd_error (star_cls p (w ++ t)) = Some t.
Proof.
  intros Hw Ht. induction w as [|x w IH].
  - destruct t as [|y t]; [reflexivity|]. cbn in Ht |- *.
    destruct (p y); [discriminate|reflexivity].
  - cbn in Hw |- *. apply andb_prop in Hw as [Hx Hw]. rewrite Hx.
    specialize (IH Hw). destruct (star_cls p (w ++ t)); [discriminate|].
    exact IH.
Qed.

Lemma replace_all_skip r rep w t :
  replace_all r rep (length w) (w ++ t) = replace_all r rep 0 t.
Proof.
  induction w as [|x w IH]; [reflexivity|]. exact IH.
Qed.

Lemma replace_spaces_keep rep a :
  no_space a = true -> forall t,
  replace_all re_spaces rep 0 (a ++ t) = a ++ replace_all re_spaces rep 0 t.
Proof.
  intros Ha t. induction a as [|x a IH]; [reflexivity|].
  cbn in Ha. apply andb_prop in Ha as [Hx Ha].
  apply negb_true_iff in Hx.
  cbn [app replace_all]. unfold match_here. cbn [icase body re_spaces].
  unfold ws_plus. cbn [matches]. rewrite Hx. cbn [hd_error].
  now rewrite IH.
Qed.

Lemma replace_spaces_run rep w t :
  w <> [] -> forallb is_space w = true -> head_not is_space t = true ->
  replace_all re_spaces rep 0 (w ++ t) = rep ++ replace_all re_spaces rep 0 t.
Proof.
  intros Hne Hw Ht. destruct w as [|x w]; [congruence|].
  cbn in Hw. apply andb_prop in Hw as [Hx Hw].
  cbn [app replace_all]. unfold match_here. cbn [icase body re_spaces].
  unfold ws_plus. cbn [matches]. rewrite Hx.
  rewrite hd_error_map, (hd_star_cls _ _ _ Hw Ht). cbn [option_map].
  replace (length (x :: w ++ t) - length t)%nat with (S (length w))
    by (change (length (x :: w ++ t)) with (S (length (w ++ t)));
        rewrite length_app; lia).
  now rewrite replace_all_skip.
Qed.

Lemma replace_spaces_nil rep : replace_all re_spaces rep 0 [] = [].
Proof. reflexivity. Qed.

Lemma match_spaces_length x s c rest :
  match_here re_spaces (x :: s) = Some (c, rest) ->
  is_space x = true
  /\ exists k, (length (x :: s) - length rest)%nat = S k.
Proof.
  unfold match_here. cbn [icase body re_spaces]. unfold ws_plus.
  cbn [matches]. destruct (is_space x); [|discriminate].
  intros H. apply hd_error_In in H. apply in_map_iff in H as [r [E H]].
  inversion E; subst r. apply star_cls_In in H as [w [-> _]].
  split; [reflexivity|]. exists (length w).
  change (length (x :: w ++ rest)) with (S (length (w ++ rest))).
  rewrite length_app. lia.
Qed.

Lemma match_spaces_none x s :
  is_space x = false -> match_here re_spaces (x :: s) = None.
Proof.
  intros H. unfold match_here. cbn [icase body re_spaces]. unfold ws_plus.
  cbn [matches]. now rewrite H.
Qed.

Lemma replace_spaces_chars (q : ascii -> bool) rep s :
  forallb q rep = true ->
  forallb (fun c => is_space c || q c) s = true ->
  forall k, forallb q (replace_all re_spaces rep k s) = true.
Proof.
  intros Hrep. induction s as [|x s IH]; intros Hs k.
  - destruct k; reflexivity.
  - cbn in Hs. apply andb_prop in Hs as [Hx Hs].
    destruct k as [|k]; [|exact (IH Hs k)].
    cbn [replace_all].
    destruct (match_here re_spaces (x :: s)) as [[c rest]|] eqn:E.
    + apply match_spaces_length in E as [_ [j ->]].
      rewrite forallb_app, Hrep. exact (IH Hs j).
    + destruct (is_space x) eqn:Ex.
      * unfold match_here in E. cbn [icase body re_spaces] in E.
        unfold ws_plus in E. cbn [matches] in E. rewrite Ex in E.
        rewrite hd_error_map in E.
        destruct (star_cls is_space s) eqn:Es; [|discriminate].
        destruct s as [|y s']; [discriminate|]. cbn in Es.
        destruct (is_space y); [|discriminate].
        now destruct (star_cls is_space s').
      * cbn [forallb]. cbn in Hx. rewrite Hx. exact (IH Hs 0%nat).
Qed.

Lemma replace_spaces_length rep s :
  (length rep <= 1)%nat ->
  forall k, (length (replace_all re_spaces rep k s) <= length s)%nat.
Proof.
  intros Hrep. induction s as [|x s IH]; intros k.
  - destruct k; cbn; lia.
  - destruct k as [|k]; [|specialize (IH k); cbn [replace_all length]; lia].
    cbn [replace_all].
    destruct (match_here re_spaces (x :: s)) as [[c rest]|] eqn:E.
    + apply match_spaces_length in E as [_ [j ->]].
      rewrite length_app. specialize (IH j). cbn [length]. lia.
    + specialize (IH 0%nat). cbn [length]. lia.
Qed.

Lemma replace_spaces_nonempty x s :
  replace_all re_spaces (txt "_") 0 (x :: s) <> [].
Proof.
  cbn [replace_all].
  destruct (match_here re_spaces (x :: s)) as [[c rest]|] eqn:E.
  - apply match_spaces_length in E as [_ [j ->]]. discriminate.
  - discriminate.
Qed.

Lemma sanitize_filename_char c : filename_char (sanitize c) = true.
Proof.
  unfold sanitize. destruct (filename_char c) eqn:E; [exact E|reflexivity].
Qed.

Lemma filename_char_not_space c : filename_char c = true -> is_space c = false.
Proof.
  apply implb_false. revert c. apply ascii_forall. vm_compute. reflexivity.
Qed.

Lemma map_sanitize_no_space s :
  no_space s = true ->
  map (fun c => if is_space c then c else sanitize c) s = map sanitize s.
Proof.
  induction s as [|x s IH]; [reflexivity|]. cbn. intros H.
  apply andb_prop in H as [Hx H]. apply negb_true_iff in Hx.
  now rewrite Hx, IH.
Qed.

Lemma map_sanitize_safe s :
  forallb filename_char s = true -> map sanitize s = s.
Proof.
  induction s as [|x s IH]; [reflexivity|]. cbn. intros H.
  apply andb_prop in H as [Hx H]. unfold sanitize at 1. now rewrite Hx, IH.
Qed.

Lemma no_space_map_sanitize s : no_space (map sanitize s) = true.
Proof.
  unfold no_space.
  induction s as [|x s IH]; [reflexivity|]. cbn [map forallb].
  rewrite IH, andb_true_r.
  apply negb_true_iff, filename_char_not_space, sanitize_filename_char.
Qed.

Lemma replace_spaces_same rep s :
  no_space s = true -> replace_all re_spaces rep 0 s = s.
Proof.
  intros H. rewrite <- (app_nil_r s) at 1.
  rewrite (replace_spaces_keep rep s H []). cbn. apply app_nil_r.
Qed.

(** X1 (file name, characters): whatever the workout name, the file name is
    made of letters, digits, [_], [-] and [.] only, so it holds no white
    space and no path separator; it ends in [.zwo], is no longer than the
    name plus that extension, and its stem is empty only for the empty
    name. *)
Theorem X1_file_name_characters :
  forall name,
    forallb filename_char (safeFilename name) = true
    /\ (length (safeFilename name) <= length name + 4)%nat
    /\ exists stem,
         safeFilename name = stem ++ txt ".zwo"
         /\ (length stem =? 0)%nat = (length name =? 0)%nat.
Proof.
  intros name. unfold safeFilename. rewrite replace_unsafe.
  set (s := map (fun c => if is_space c then c else sanitize c) name).
  assert (Hs : forallb (fun c => is_space c || filename_char c) s = true).
  { subst s. induction name as [|x l IH]; [reflexivity|]. cbn.
    rewrite IH, andb_true_r. destruct (is_space x) eqn:Ex.
    - now rewrite Ex.
    - rewrite sanitize_filename_char. apply orb_true_r. }
  assert (Hl : length s = length name) by (subst s; apply length_map).
  split; [|split].
  - rewrite forallb_app, (replace_spaces_chars filename_char); auto.
  - rewrite length_app.
    pose proof (replace_spaces_length (txt "_") s (le_n 1) 0).
    change (length (txt ".zwo")) with 4%nat. lia.
  - eexists; split; [reflexivity|].
    destruct name as [|x l]; [reflexivity|].
    subst s. cbn [map].
    pose proof (replace_spaces_nonempty
                  (if is_space x then x else sanitize x)
                  (map (fun c => if is_space c then c else sanitize c) l)) as N.
    destruct (replace_all _ _ _ _); [congruence|reflexivity].
Qed.

(** X2 (file name, names without white space): in a workout name without
    white space every character other than a letter, a digit, [_], [-] and
    [.] becomes one underscore and the others stay as they are, so the stem
    has the length of the name; a name made of those characters only is
    kept as it is. *)
Theorem X2_file_name_without_spaces :
  forall name,
    no_space name = true ->
    safeFilename name = map sanitize name ++ txt ".zwo"
    /\ (forallb filename_char name = true ->
        safeFilename name = name ++ txt ".zwo").
Proof.
  intros name H.
  assert (E : safeFilename name = map sanitize name ++ txt ".zwo").
  { unfold safeFilename.
    rewrite replace_unsafe, map_sanitize_no_space by exact H.
    now rewrite replace_spaces_same by apply no_space_map_sanitize. }
  split; [exact E|]. intros S. now rewrite E, map_sanitize_safe.
Qed.

Lemma X2_witness :
  no_space (txt "FTP-Test/2x20(v1.5)") = true
  /\ safeFilename (txt "FTP-Test/2x20(v1.5)") = txt "FTP-Test_2x20_v1.5_.zwo".
Proof.
  split; [reflexivity|].
  rewrite (proj1 (X2_file_name_without_spaces (txt "FTP-Test/2x20(v1.5)")
                    eq_refl)).
  reflexivity.
Defined.

Lemma map_spaces w :
  forallb is_space w = true ->
  map (fun c => if is_space c then c else sanitize c) w = w.
Proof.
  induction w as [|x w IH]; [reflexivity|]. cbn. intros H.
  apply andb_prop in H as [Hx H]. now rewrite Hx, IH.
Qed.

Lemma head_not_map_space b :
  head_not is_space b = true ->
  head_not is_space (map (fun c => if is_space c then c else sanitize c) b)
  = true.
Proof.
  destruct b as [|y b]; [reflexivity|]. cbn. intros H.
  apply negb_true_iff in H. rewrite H.
  apply negb_true_iff, filename_char_not_space, sanitize_filename_char.
Qed.

(** X3 (file name, white space): a run of white space in the workout name,
    however long, becomes a single underscore: for a part [a] without white
    space, a non-empty run [w] of white space and a rest [b] that does not
    start with white space, the file name of [a w b] is [a] with its
    characters replaced one by one, one underscore, and the file name of
    [b]. *)
Theorem X3_file_name_space_runs :
  forall a w b,
    no_space a = true ->
    w <> [] -> forallb is_space w = true ->
    head_not is_space b = true ->
    safeFilename (a ++ w ++ b) = map sanitize a ++ txt "_" ++ safeFilename b.
Proof.
  intros a w b Ha Hne Hw Hb. unfold safeFilename.
  rewrite !replace_unsafe, !map_app, (map_spaces w Hw).
  rewrite (map_sanitize_no_space a Ha).
  rewrite replace_spaces_keep by apply no_space_map_sanitize.
  rewrite replace_spaces_run; auto using head_not_map_space.
  now rewrite <- !app_assoc.
Qed.

Lemma X3_witness :
  safeFilename (txt "Sweet&Sour" ++ [" "; "009"; " "]%char ++ txt "Long Ride")
  = txt "Sweet_Sour_Long_Ride.zwo".
Proof.
  rewrite (X3_file_name_space_runs (txt "Sweet&Sour") [" "; "009"; " "]%char
             (txt "Long Ride") eq_refl ltac:(discriminate) eq_refl eq_refl).
  reflexivity.
Defined.

(** ** The workout name and the text of a fragment *)

Lemma head_not_drop_while p s : head_not p (drop_while p s) = true.
Proof.
  induction s as [|x s IH]; [reflexivity|]. cbn.
  destruct (p x) eqn:E; [exact IH|]. cbn. now rewrite E.
Qed.

Lemma head_not_app p s t :
  s <> [] -> head_not p s = true -> head_not p (s ++ t) = true.
Proof. destruct s; [congruence|intros _ H; exact H]. Qed.

Lemma trim_blank w : forallb is_space w = true -> trim w = [].
Proof.
  intros H. unfold trim. now rewrite (drop_while_all is_space w H).
Qed.

Lemma trim_exact w1 m w2 :
  forallb is_space w1 = true -> forallb is_space w2 = true ->
  m <> [] -> head_not is_space m = true -> head_not is_space (rev m) = true ->
  trim (w1 ++ m ++ w2) = m.
Proof.
  intros H1 H2 Hne Hm Hr. unfold trim.
  rewrite (drop_while_run is_space w1 (m ++ w2) H1)
    by now apply head_not_app.
  rewrite rev_app_distr.
  rewrite (drop_while_run is_space (rev w2) (rev m));
    auto using forallb_rev.
  apply rev_involutive.
Qed.

Lemma trim_trimmed s :
  head_not is_space (trim s) = true /\ head_not is_space (rev (trim s)) = true.
Proof.
  unfold trim. rewrite rev_involutive. split; [|apply head_not_drop_while].
  pose proof (head_not_drop_while is_space s) as H.
  destruct (drop_while is_space s) as [|y D]; [reflexivity|].
  cbn in H. apply negb_true_iff in H. cbn [rev].
  assert (E : forall l, drop_while is_space (l ++ [y])
                        = drop_while is_space l ++ [y]).
  { induction l as [|x l IH]; cbn; [now rewrite H|].
    destruct (is_space x); [exact IH|reflexivity]. }
  rewrite E, rev_app_distr. cbn. now rewrite H.
Qed.

(** X4 (workout name): the name is never empty and carries no white space
    at either end; it is "Zwift Workout" when the page has no
    [h4.flaticon-bike] heading, when the heading has no [innerText], and when
    that text is blank, and the trimmed text of the heading otherwise. *)
Theorem X4_workout_name :
  (forall heading,
      getWorkoutName heading <> []
      /\ head_not is_space (getWorkoutName heading) = true
      /\ head_not is_space (rev (getWorkoutName heading)) = true)
  /\ getWorkoutName None = txt "Zwift Workout"
  /\ (forall tc sp,
        getWorkoutName (Some (mkElement None tc sp)) = txt "Zwift Workout")
  /\ (forall w tc sp,
        forallb is_space w = true ->
        getWorkoutName (Some (mkElement (Some w) tc sp)) = txt "Zwift Workout")
  /\ (forall w1 m w2 tc sp,
        forallb is_space w1 = true -> forallb is_space w2 = true ->
        m <> [] -> head_not is_space m = true ->
        head_not is_space (rev m) = true ->
        getWorkoutName (Some (mkElement (Some (w1 ++ m ++ w2)) tc sp)) = m).
Proof.
  split; [|split; [reflexivity|split; [reflexivity|split]]].
  - intros [h|]; [|repeat split; discriminate].
    unfold getWorkoutName. destruct (innerText h) as [t|];
      [|repeat split; discriminate].
    cbn [option_map or_str]. destruct (trim_trimmed t) as [A B].
    destruct (trim t) as [|c s]; [repeat split; discriminate|].
    repeat split; [discriminate|exact A|exact B].
  - intros w tc sp H. unfold getWorkoutName. cbn [innerText option_map].
    now rewrite trim_blank.
  - intros w1 m w2 tc sp H1 H2 Hne Hm Hr. unfold getWorkoutName.
    cbn [innerText option_map]. rewrite trim_exact by assumption.
    destruct m; [congruence|reflexivity].
Qed.

Lemma X4_witness :
  getWorkoutName
    (Some (mkElement (Some ([" "; "010"]%char ++ txt "Ham & Eggs" ++ txt "  "))
                     None []))
  = txt "Ham & Eggs"
  /\ getWorkoutName (Some (mkElement (Some (txt "   ")) None []))
     = txt "Zwift Workout".
Proof.
  split.
  - apply (proj2 (proj2 (proj2 (proj2 X4_workout_name)))); try reflexivity.
    discriminate.
  - now apply (proj1 (proj2 (proj2 (proj2 X4_workout_name)))).
Defined.

Lemma text_of_inner t tc sp :
  t <> [] -> text_of (mkElement (Some t) tc sp) = trim t.
Proof. destruct t; [congruence|reflexivity]. Qed.

Lemma parseSegment_text e1 e2 :
  text_of e1 = text_of e2 -> spans e1 = spans e2 ->
  parseSegment e1 = parseSegment e2.
Proof. unfold parseSegment. now intros -> ->. Qed.

(** X5 (text of a fragment): the classifier reads the [innerText] of the
    element when it is not empty, whatever its [textContent]; it reads the
    [textContent] when there is no [innerText] or an empty one; and white
    space around the text does not matter: a fragment is classified as its
    trimmed text is. *)
Theorem X5_fragment_text :
  forall w1 m w2 tc sp,
    forallb is_space w1 = true -> forallb is_space w2 = true ->
    m <> [] -> head_not is_space m = true ->
    head_not is_space (rev m) = true ->
    parseSegment (mkElement (Some (w1 ++ m ++ w2)) tc sp)
    = parseSegment (mkElement (Some m) None sp)
    /\ parseSegment (mkElement None (Some (w1 ++ m ++ w2)) sp)
       = parseSegment (mkElement (Some m) None sp)
    /\ parseSegment (mkElement (Some []) (Some (w1 ++ m ++ w2)) sp)
       = parseSegment (mkElement (Some m) None sp).
Proof.
  intros w1 m w2 tc sp H1 H2 Hne Hm Hr.
  assert (N : w1 ++ m ++ w2 <> []).
  { destruct w1; [destruct m; [congruence|discriminate]|discriminate]. }
  assert (T : text_of (mkElement (Some m) None sp) = m).
  { rewrite text_of_inner by exact Hne.
    rewrite <- (app_nil_r m) at 1.
    now apply (trim_exact [] m []). }
  assert (E : forall i t, or_str i (or_str t []) = w1 ++ m ++ w2 ->
                          parseSegment (mkElement i t sp)
                          = parseSegment (mkElement (Some m) None sp)).
  { intros i t Ei. apply parseSegment_text; [|reflexivity].
    rewrite T. unfold text_of. cbn [innerText textContent].
    rewrite Ei. now apply trim_exact. }
  repeat split; apply E; cbn [or_str];
    destruct (w1 ++ m ++ w2); congruence.
Qed.

Lemma X5_witness :
  parseSegment (mkElement (Some (txt "  10min @ 80% FTP" ++ ["010"%char]))
                          (Some (txt "other")) [txt "80"])
  = parseSegment (mkElement (Some (txt "10min @ 80% FTP")) None [txt "80"]).
Proof.
  exact (proj1 (X5_fragment_text (txt "  ") (txt "10min @ 80% FTP")
                  ["010"%char] (Some (txt "other")) [txt "80"]
                  eq_refl eq_refl ltac:(discriminate) eq_refl eq_refl)).
Defined.

(** ** What the classifier returns *)



Lemma parseInt_digits w :
  w <> [] -> forallb is_digit w = true ->
  parseInt w = of_Z (digits_val w) /\ 0 <= digits_val w.
Proof.
  intros Hne Hw. split; [|apply digits_val_nonneg].
  destruct w as [|x w]; [congruence|].
  assert (Hx : is_digit x = true) by (cbn in Hw; now apply andb_prop in Hw).
  destruct (digit_or_dot_head x (digit_is_digit_or_dot x Hx))
    as (S & M & P & _).
  unfold parseInt. cbn [drop_while]. rewrite S. cbn [read_sign].
  rewrite M, P. rewrite (take_while_all is_digit (x :: w) Hw). reflexivity.
Qed.

Lemma count_digits w :
  w <> [] -> forallb is_digit w = true ->
  count (Num (parseInt w)) = true.
Proof.
  intros Hne Hw. destruct (parseInt_digits w Hne Hw) as [-> H].
  cbn. now apply Z.leb_le.
Qed.

Lemma group_text_head n w c : group_text n ((n, w) :: c) = w.
Proof. unfold group_text. cbn. now rewrite Nat.eqb_refl. Qed.

(** The first group of a pattern that starts with it is a run of digits. *)
Lemma count_captured a ci r2 s c :
  exec (mkRegex a ci (Grp 1 digits ;; r2)) s = Some c ->
  count (Num (parseInt (group_text 1 c))) = true.
Proof.
  intros H. apply exec_run_capture in H as (w & c2 & -> & Hne & Hw).
  rewrite group_text_head. now apply count_digits.
Qed.

Lemma cadence_of_count text : count_or_null (cadence_of text) = true.
Proof.
  unfold cadence_of. destruct (exec re_rpm text) as [m|] eqn:E; [|reflexivity].
  apply count_captured in E. unfold count_or_null.
  destruct (parseInt _); exact E.
Qed.

Lemma onCadence_count text c :
  exec re_onCadence text = Some c ->
  count (Num (parseInt (group_text 1 c))) = true.
Proof.
  intros H. apply exec_found in H as (pre & s & rest & _ & H).
  apply hd_error_In in H. cbn [icase body re_onCadence] in H.
  apply In_seq in H as (c1 & s1 & c2 & H1 & H2 & ->).
  apply In_Lit in H1 as [-> _].
  apply In_seq in H2 as (c3 & s2 & c4 & H3 & H4 & ->).
  apply In_plus in H3 as [-> _].
  apply In_seq in H4 as (c5 & s3 & c6 & H5 & _ & ->).
  apply In_grp in H5 as (c7 & H7 & ->).
  apply In_plus in H7 as (-> & w & -> & Hne & Hw).
  cbn [app]. rewrite group_text_head, firstn_app_exact.
  now apply count_digits.
Qed.

Lemma rule_ramp_inv text sp cad seg :
  rule_ramp text sp cad = Ok (Some seg) ->
  exists m v0 v1,
    rampMatch text = Some m /\ sp = [v0; v1]
    /\ seg = Ramp (parseDuration (group 1 m)) (div100 (parseFloat v0))
                  (div100 (parseFloat v1)) cad
    /\ gt0 (parseDuration (group 1 m)) = true.
Proof.
  unfold rule_ramp. destruct (rampMatch text) as [m|]; [|discriminate].
  destruct (length sp =? 2)%nat eqn:L; [|discriminate].
  apply length_2 in L as (v0 & v1 & ->).
  cbn [span_value nth_error bind]. cbv zeta.
  destruct (gt0 _ && _ && _) eqn:C; [|discriminate].
  apply andb_true_iff in C as [C _]. apply andb_true_iff in C as [G _].
  intros H. injection H as <-. exists m, v0, v1. auto.
Qed.

Lemma rule_steady_inv text sp cad seg :
  rule_steady text sp cad = Ok (Some seg) ->
  exists m v0,
    exec re_steady text = Some m /\ sp = [v0]
    /\ seg = SteadyState (parseDuration (group 1 m)) (div100 (parseFloat v0))
                         cad
    /\ gt0 (parseDuration (group 1 m)) = true.
Proof.
  unfold rule_steady. destruct (exec re_steady text) as [m|]; [|discriminate].
  destruct (length sp =? 1)%nat eqn:L; [|discriminate].
  apply length_1 in L as (v0 & ->).
  cbn [span_value nth_error bind]. cbv zeta.
  destruct (gt0 _ && _) eqn:C; [|discriminate].
  apply andb_true_iff in C as [G _].
  intros H. injection H as <-. exists m, v0. auto.
Qed.

Lemma rule_fallback_inv text sp cad seg :
  rule_fallback text sp cad = Ok (Some seg) ->
  exists m v0,
    exec re_duration text = Some m /\ sp = [v0]
    /\ seg = SteadyState (parseDuration (group 1 m)) (div100 (parseFloat v0))
                         cad
    /\ gt0 (parseDuration (group 1 m)) = true.
Proof.
  unfold rule_fallback.
  destruct (length sp =? 1)%nat eqn:L; [|discriminate].
  destruct (exec re_duration text) as [m|]; [|discriminate].
  apply length_1 in L as (v0 & ->).
  cbn [span_value nth_error bind]. cbv zeta.
  destruct (gt0 _ && _) eqn:C; [|discriminate].
  apply andb_true_iff in C as [G _].
  intros H. injection H as <-. exists m, v0. auto.
Qed.

Lemma rule_intervals_inv text sp seg :
  rule_intervals text sp = Ok (Some seg) ->
  exists m v0 v1 d2 c1 c2,
    exec re_interval text = Some m /\ sp = [v0; v1]
    /\ seg = IntervalsT (parseInt (group_text 1 m))
                        (parseDuration (group 2 m))
                        (div100 (parseFloat v0)) d2
                        (div100 (parseFloat v1)) c1 c2
    /\ gt0 (parseDuration (group 2 m)) = true
    /\ gt0 d2 = true /\ (exists input, d2 = parseDuration input)
    /\ count_or_null c1 = true /\ count_or_null c2 = true.
Proof.
  unfold rule_intervals.
  destruct (exec re_interval text) as [m|]; [|discriminate].
  destruct (length sp =? 2)%nat eqn:L; [|discriminate].
  apply length_2 in L as (v0 & v1 & ->).
  cbn [span_value nth_error bind]. cbv zeta.
  destruct (negb _ && _ && _ && _ && _) eqn:C; [|discriminate].
  apply andb_true_iff in C as [C C5]. apply andb_true_iff in C as [C C4].
  apply andb_true_iff in C as [C C3]. apply andb_true_iff in C as [C1 C2].
  intros H. injection H as <-.
  do 6 eexists. repeat split; try reflexivity; try assumption.
  - destruct (off_text text) as [o|]; [|now exists None].
    destruct (exec re_offDuration o); [eauto|now exists None].
  - destruct (exec re_onCadence text) as [c|] eqn:E; [|reflexivity].
    apply onCadence_count in E. unfold count_or_null.
    destruct (parseInt _); exact E.
  - destruct (off_text text) as [o|]; [|reflexivity].
    apply (cadence_of_count o).
Qed.

(** What [parseSegment] returned, and from what. *)
Lemma parseSegment_inv e seg :
  parseSegment e = Ok (Some seg) ->
  (exists m,
      exec re_freeRide (text_of e) = Some m
      /\ seg = FreeRide (parseDuration
                           (Some (group_text 1 m ++ group_text 2 m)))
      /\ gt0 (parseDuration (Some (group_text 1 m ++ group_text 2 m))) = true)
  \/ (exists m v0 v1,
        rampMatch (text_of e) = Some m /\ spans e = [v0; v1]
        /\ seg = Ramp (parseDuration (group 1 m)) (div100 (parseFloat v0))
                      (div100 (parseFloat v1)) (cadence_of (text_of e))
        /\ gt0 (parseDuration (group 1 m)) = true)
  \/ (exists m v0,
        (exec re_steady (text_of e) = Some m
         \/ exec re_duration (text_of e) = Some m)
        /\ spans e = [v0]
        /\ seg = SteadyState (parseDuration (group 1 m))
                             (div100 (parseFloat v0)) (cadence_of (text_of e))
        /\ gt0 (parseDuration (group 1 m)) = true)
  \/ (exists m v0 v1 d2 c1 c2,
        exec re_interval (text_of e) = Some m /\ spans e = [v0; v1]
        /\ seg = IntervalsT (parseInt (group_text 1 m))
                            (parseDuration (group 2 m))
                            (div100 (parseFloat v0)) d2
                            (div100 (parseFloat v1)) c1 c2
        /\ gt0 (parseDuration (group 2 m)) = true
        /\ gt0 d2 = true /\ (exists input, d2 = parseDuration input)
        /\ count_or_null c1 = true /\ count_or_null c2 = true).
Proof.
  intros H.
  destruct (parseSegment_cases e)
    as [(s & E & P)|(_ & [(s & E & P)|(_ & [(s & E & P)|
        (_ & [(s & E & P)|(_ & P)])])])];
    rewrite P in H.
  - injection H as <-. left. unfold rule_freeRide in E.
    destruct (exec re_freeRide (text_of e)) as [m|]; [|discriminate].
    cbv zeta in E. destruct (gt0 _) eqn:G; [|discriminate].
    injection E as <-. eauto.
  - injection H as <-. right; left. now apply rule_ramp_inv.
  - injection H as <-. right; right; left.
    apply rule_steady_inv in E as (m & v0 & ? & ? & ? & ?). eauto 8.
  - injection H as <-. right; right; right. now apply rule_intervals_inv.
  - right; right; left.
    apply rule_fallback_inv in H as (m & v0 & ? & ? & ? & ?). eauto 8.
Qed.

(** X6 (annotations decide the kind): a fragment with one
    [span[data-value]] is classified as FreeRide or SteadyState only, one
    with two as FreeRide, Ramp or IntervalsT only, and with none or with
    three or more only the Free Ride rule can return a segment. *)
Theorem X6_spans_decide_the_kind :
  forall e seg,
    parseSegment e = Ok (Some seg) ->
    match length (spans e) with
    | 1%nat => type seg = txt "FreeRide" \/ type seg = txt "SteadyState"
    | 2%nat => type seg = txt "FreeRide" \/ type seg = txt "Ramp"
               \/ type seg = txt "IntervalsT"
    | _ => type seg = txt "FreeRide"
    end.
Proof.
  intros e seg H.
  destruct (parseSegment_inv e seg H)
    as [(m & _ & -> & _)|[(m & v0 & v1 & _ & -> & -> & _)|
        [(m & v0 & _ & -> & -> & _)|
         (m & v0 & v1 & d2 & c1 & c2 & _ & -> & -> & _)]]];
    cbn [length type FreeRide Ramp SteadyState IntervalsT]; auto.
  destruct (length (spans e)) as [|[|[|n]]]; auto.
Qed.

Lemma X6_witness :
  type (Ramp (of_Z 480) (div100 (of_Z 60)) (div100 (of_Z 85)) Null)
  = txt "FreeRide"
  \/ type (Ramp (of_Z 480) (div100 (of_Z 60)) (div100 (of_Z 85)) Null)
     = txt "Ramp"
  \/ type (Ramp (of_Z 480) (div100 (of_Z 60)) (div100 (of_Z 85)) Null)
     = txt "IntervalsT".
Proof.
  exact (X6_spans_decide_the_kind
           (mkElement None (Some (txt "8min from 60 to 85% FTP"))
                      [txt "60"; txt "85"])
           (Ramp (of_Z 480) (div100 (of_Z 60)) (div100 (of_Z 85)) Null)
           eq_refl).
Defined.



(** ** The click handler *)

Lemma parse_step_fold els : forall acc n,
  fold_left parse_step els (acc, n)
  = (acc ++ classified els, (n + unparsed els)%nat).
Proof.
  induction els as [|el els IH]; intros acc n.
  - cbn. now rewrite app_nil_r, Nat.add_0_r.
  - cbn [fold_left]. unfold classified, unparsed in *. cbn [flat_map filter].
    unfold parse_step at 2.
    destruct (parseSegment el) as [[seg|]|]; rewrite IH; cbn [length].
    + now rewrite <- app_assoc.
    + f_equal. lia.
    + f_equal. lia.
Qed.

Lemma classified_length els :
  (length (classified els) + unparsed els = length els)%nat.
Proof.
  unfold classified, unparsed.
  induction els as [|el els IH]; [reflexivity|]. cbn [flat_map filter].
  destruct (parseSegment el) as [[seg|]|]; cbn [length app]; lia.
Qed.

Lemma classified_In els seg :
  In seg (classified els)
  <-> exists el, In el els /\ parseSegment el = Ok (Some seg).
Proof.
  unfold classified. rewrite in_flat_map. split.
  - intros (el & I & H). exists el. split; [exact I|].
    destruct (parseSegment el) as [[s|]|]; cbn in H; try contradiction.
    destruct H as [->|[]]. reflexivity.
  - intros (el & I & H). exists el. split; [exact I|]. rewrite H. now left.
Qed.

(** X8 (the loop over the elements): the handler keeps, in the order of the
    page, the segment of every [.textbar] element the classifier returns
    one for, and counts every other element as a warning; so kept segments
    and warnings add up to the number of elements, and the segments of a
    page in two parts are those of the first part followed by those of the
    second. *)
Theorem X8_parse_elements_partition :
  forall els els',
    parse_elements els = (classified els, unparsed els)
    /\ (length (fst (parse_elements els)) + snd (parse_elements els)
        = length els)%nat
    /\ fst (parse_elements (els ++ els'))
       = fst (parse_elements els) ++ fst (parse_elements els')
    /\ snd (parse_elements (els ++ els'))
       = (snd (parse_elements els) + snd (parse_elements els'))%nat
    /\ (forall seg, In seg (fst (parse_elements els)) <->
                    exists el, In el els /\ parseSegment el = Ok (Some seg)).
Proof.
  intros els els'.
  assert (E : forall l, parse_elements l = (classified l, unparsed l)).
  { intros l. unfold parse_elements. now rewrite parse_step_fold. }
  rewrite !E. cbn [fst snd].
  split; [reflexivity|]. split; [apply classified_length|].
  unfold classified, unparsed.
  rewrite flat_map_app, filter_app, length_app.
  repeat split; try apply classified_In.
Qed.

Lemma classified_serializable e seg :
  parseSegment e = Ok (Some seg) ->
  last_resort seg = false /\ exists a, attributes seg = Ok a.
Proof.
  intros H.
  destruct (parseSegment_inv e seg H)
    as [(m & _ & -> & _)|[(m & v0 & v1 & _ & _ & -> & _)|
        [(m & v0 & _ & _ & -> & _)|
         (m & v0 & v1 & d2 & c1 & c2 & _ & _ & -> & _)]]];
    (split; [reflexivity|eexists; reflexivity]).
Qed.

Lemma body_lines_ok n segs : forall i,
  Forall (fun seg => exists a, attributes seg = Ok a) segs ->
  exists b, body_lines n i segs = Ok b.
Proof.
  induction segs as [|seg rest IH]; intros i HF; [now exists []|].
  inversion HF as [|? ? [a Ha] Hrest]; subst.
  destruct (IH (S i) Hrest) as [b Hb].
  cbn [body_lines]. rewrite Ha, Hb. cbn [bind]. eauto.
Qed.

Lemma classified_document name href els :
  exists b,
    body_lines (length (classified els)) 0 (classified els) = Ok b
    /\ generateZWO name href (classified els)
       = Ok (header name href ++ b ++ footer).
Proof.
  assert (F : Forall (fun seg => last_resort seg = false
                                 /\ exists a, attributes seg = Ok a)
                     (classified els)).
  { apply Forall_forall. intros seg I.
    apply classified_In in I as (el & _ & H).
    now apply classified_serializable in H. }
  apply Forall_and_inv in F as [F1 F2].
  destruct (body_lines_ok (length (classified els)) _ 0%nat F2) as [b Hb].
  exists b. split; [exact Hb|].
  rewrite generateZWO_serialize by exact F1.
  unfold serialize. now rewrite Hb.
Qed.

(** X9 (classified segments always serialize): for the segments the
    classifier returns for the elements of a page, whatever the workout name
    and the address, [generateZWO] does not raise: it returns the skeleton
    around one element per segment, tagged by position, with the attributes
    of the segment's kind. *)
Theorem X9_classified_segments_serialize :
  forall name href els,
    exists b,
      body_lines (length (classified els)) 0 (classified els) = Ok b
      /\ generateZWO name href (fst (parse_elements els))
         = Ok (header name href ++ b ++ footer).
Proof.
  intros name href els. unfold parse_elements.
  rewrite parse_step_fold. cbn [fst app].
  apply classified_document.
Qed.

(** X10 (the click): a click on the download button does exactly one of
    four things.  It clicks the FTP button when that button reads ENTER
    FTP; it alerts that there are no segments when the page has no
    [.textbar] element; it alerts that nothing could be parsed when the
    classifier returns no segment for any of them; otherwise it downloads
    one file, named after the workout name, whose content is the document
    of the classified segments, after an alert with the number of elements
    skipped when there are any.  The alert for an error while generating
    the document is never shown. *)
Theorem X10_click_outcome :
  forall reformat p,
    exists b,
      body_lines (length (classified (textbars p))) 0
                 (classified (textbars p)) = Ok b
      /\ on_click reformat p
         = if asks_for_ftp (ftpButton p) then [ClickFtp]
           else if (length (textbars p) =? 0)%nat then [AlertNoSegments]
           else if (length (classified (textbars p)) =? 0)%nat
                then [AlertNothingParsed]
           else (if (0 <? unparsed (textbars p))%nat
                 then [AlertSkipped (unparsed (textbars p))] else [])
                ++ [Download
                      (safeFilename (getWorkoutName (heading p)))
                      (reformat
                         (header (getWorkoutName (heading p)) (href p)
                          ++ b ++ footer))].
Proof.
  intros reformat p.
  destruct (classified_document (getWorkoutName (heading p)) (href p)
              (textbars p)) as (b & Hb & G).
  exists b. split; [exact Hb|]. unfold on_click.
  destruct (asks_for_ftp (ftpButton p)); [reflexivity|].
  destruct (textbars p) as [|el els] eqn:T; [reflexivity|].
  cbn [length Nat.eqb]. unfold parse_elements. rewrite parse_step_fold.
  cbn [app Nat.add].
  destruct (classified (el :: els)) as [|s l]; [reflexivity|].
  cbn [length Nat.eqb]. cbv zeta. now rewrite G.
Qed.

(** ** When the serializer raises *)





(** ** Duration phrases under the patterns *)

Lemma spelled_reads w : forall u,
  spelled w u = true -> Forall2 (fun c x => chr_match true c x = true) w u.
Proof.
  induction w as [|c w IH]; intros [|x u] H; try discriminate.
  - constructor.
  - cbn in H. apply andb_prop in H as [H1 H2]. constructor; auto.
Qed.

Lemma a_run_inv p w : a_run p w = true -> w <> [] /\ forallb p w = true.
Proof.
  unfold a_run. intros H. apply andb_prop in H as [H1 H2].
  split; [|exact H2]. now destruct w.
Qed.

Lemma digit_not_space x : is_digit x = true -> is_space x = false.
Proof. intros H. now apply digit_or_dot_not_space, digit_is_digit_or_dot. Qed.

Lemma run_head_not (p q : ascii -> bool) w t :
  (forall x, p x = true -> q x = false) ->
  w <> [] -> forallb p w = true -> head_not q (w ++ t) = true.
Proof.
  intros Hpq Hne Hw. destruct w as [|x w]; [congruence|].
  cbn in Hw |- *. apply andb_prop in Hw as [Hx _].
  now rewrite (Hpq x Hx).
Qed.

Lemma take_drop_while p s : s = take_while p s ++ drop_while p s.
Proof.
  induction s as [|x s IH]; [reflexivity|]. cbn.
  destruct (p x); [cbn; now rewrite <- IH|reflexivity].
Qed.

Lemma take_while_forallb p s : forallb p (take_while p s) = true.
Proof.
  induction s as [|x s IH]; [reflexivity|]. cbn.
  destruct (p x) eqn:E; [cbn; now rewrite E|reflexivity].
Qed.

(** Where no whole number follows the white space, the seconds of a
    duration phrase are not there. *)
Lemma no_seconds_part t r :
  head_not is_digit (drop_while is_space t) = true ->
  matches true (ws_plus ;; digits ;; r) t = [].
Proof.
  intros H. rewrite (take_drop_while is_space t).
  pose proof (take_while_forallb is_space t) as Hw.
  pose proof (head_not_drop_while is_space t) as Hs.
  destruct (take_while is_space t) as [|x w] eqn:E.
  - cbn [app]. unfold ws_plus. now apply seq_plus_fail.
  - unfold ws_plus. rewrite seq_plus_munch; try assumption.
    + unfold digits. now apply seq_plus_fail.
    + discriminate.
    + unfold digits. apply rejects_plus. exact space_not_digit.
Qed.

Section Phrases.

Variables d w0 u t : str.

Hypothesis Hdne : d <> [].
Hypothesis Hd : forallb is_digit_or_dot d = true.
Hypothesis Hw0 : forallb is_space w0 = true.
Hypothesis Hu : reads_as "min" u \/ reads_as "sec" u.

(** The first alternative of the duration phrase up to its unit. *)
Lemma alt_minutes r :
  matches true (number ;; ws_star ;; word "min" ;; r) (d ++ w0 ++ u ++ t)
  = match lit_rest true (txt "min") (u ++ t) with
    | Some rest => matches true r rest
    | None => []
    end.
Proof.
  unfold number. rewrite seq_plus_munch.
  - exact (ws_unit_then_after_number w0 u [] [] t Hw0 Hu
             "m" (txt "in") r eq_refl).
  - exact Hdne.
  - exact Hd.
  - exact (after_number_head_not w0 u [] [] t Hw0 Hu).
  - unfold ws_star, word. apply rejects_star.
    + exact digit_or_dot_not_space.
    + apply (rejects_lit_seq true "m" (txt "in")).
      intros x Hx. now apply chr_not_digit_or_dot.
Qed.

(** The second alternative. *)
Lemma alt_seconds :
  matches true (digits ;; ws_star ;; word "sec") (d ++ w0 ++ u ++ t)
  = match lit_rest true (txt "sec") (u ++ t) with
    | Some _ => if forallb is_digit d then [([], t)] else []
    | None => []
    end.
Proof. exact (dur_seconds d w0 u [] [] t Hdne Hd Hw0 Hu). Qed.

End Phrases.

Lemma min_not_sec u t :
  reads_as "min" u -> lit_rest true (txt "sec") (u ++ t) = None.
Proof.
  intros Hu.
  exact (lit_rest_other "s" (txt "ec") "m" (txt "in") u t Hu eq_refl).
Qed.

Lemma sec_not_min u t :
  reads_as "sec" u -> lit_rest true (txt "min") (u ++ t) = None.
Proof.
  intros Hu.
  exact (lit_rest_other "m" (txt "in") "s" (txt "ec") u t Hu eq_refl).
Qed.

(** The seconds of a duration phrase. *)
Lemma seconds_part w1 s u2 t :
  w1 <> [] -> forallb is_space w1 = true ->
  s <> [] -> forallb is_digit s = true -> reads_as "sec" u2 ->
  matches true (ws_plus ;; digits ;; word "sec") (w1 ++ s ++ u2 ++ t)
  = [([], t)].
Proof.
  intros N1 H1 Ns Hs Hu. unfold ws_plus. rewrite seq_plus_munch; try assumption.
  - unfold digits. rewrite seq_plus_munch; try assumption.
    + unfold word. rewrite matches_Lit.
      now rewrite (lit_rest_intro true (txt "sec") u2 t Hu).
    + apply (unit_head_not true is_digit "s" (txt "ec") u2 t);
        [reflexivity| |exact Hu].
      intros x Hx. now apply chr_match_class in Hx as (_ & E & _).
    + apply (rejects_lit true "s" (txt "ec")).
      intros x Hx. now apply chr_not_digit.
  - apply (run_head_not is_digit is_space); auto using digit_not_space.
  - unfold digits. apply rejects_plus. exact space_not_digit.
Qed.

(** Every way the duration pattern matches at a duration phrase: up to
    the end of the phrase first and, for minutes and seconds, up to the
    minutes next. *)
Lemma dur_matches p t :
  phrase_ok p = true ->
  matches true dur (phrase_text p ++ t)
  = match p with
    | Minutes _ _ _ =>
        matches true (ws_plus ;; digits ;; word "sec") t ++ [([], t)]
    | MinutesSeconds d w0 u w1 s u2 => [([], t); ([], w1 ++ s ++ u2 ++ t)]
    | Seconds _ _ _ => [([], t)]
    end.
Proof.
  intros H. unfold dur. rewrite matches_alt.
  destruct p as [d w0 u|d w0 u w1 s u2|s w0 u];
    cbn [phrase_text phrase_ok] in *.
  - apply andb_prop in H as [H Hu]. apply andb_prop in H as [Hd Hw0].
    apply a_run_inv in Hd as [Hdne Hd]. apply spelled_reads in Hu.
    rewrite <- !app_assoc.
    rewrite alt_minutes, alt_seconds by auto.
    rewrite (min_not_sec u t Hu), (lit_rest_intro true (txt "min") u t Hu).
    now rewrite matches_opt, app_nil_r.
  - apply andb_prop in H as [H Hu2]. apply andb_prop in H as [H Hs].
    apply andb_prop in H as [H Hw1]. apply andb_prop in H as [H Hu].
    apply andb_prop in H as [Hd Hw0].
    apply a_run_inv in Hd as [Hdne Hd]. apply a_run_inv in Hw1 as [N1 Hw1].
    apply a_run_inv in Hs as [Ns Hs].
    apply spelled_reads in Hu, Hu2.
    rewrite <- !app_assoc.
    rewrite alt_minutes, alt_seconds by auto.
    rewrite (min_not_sec u _ Hu), (lit_rest_intro true (txt "min") u _ Hu).
    rewrite matches_opt, seconds_part by assumption.
    reflexivity.
  - apply andb_prop in H as [H Hu]. apply andb_prop in H as [Hs Hw0].
    apply a_run_inv in Hs as [Ns Hs]. apply spelled_reads in Hu.
    assert (Hd : forallb is_digit_or_dot s = true)
      by (apply (forallb_impl is_digit); auto using digit_is_digit_or_dot).
    rewrite <- !app_assoc.
    rewrite alt_minutes, alt_seconds by auto.
    rewrite (sec_not_min u t Hu), (lit_rest_intro true (txt "sec") u t Hu).
    now rewrite Hs.
Qed.

(** White space and a word. *)
Lemma ws_word w1 X c w r :
  w1 <> [] -> forallb is_space w1 = true -> head_not is_space X = true ->
  is_space c = false ->
  matches true (ws_plus ;; Lit (c :: w) ;; r) (w1 ++ X)
  = match lit_rest true (c :: w) X with
    | Some rest => matches true r rest
    | None => []
    end.
Proof.
  intros N1 H1 HX Hc. unfold ws_plus. rewrite seq_plus_munch; try assumption.
  - apply matches_seq_Lit.
  - apply rejects_lit_seq. intros x Hx. now apply chr_not_space.
Qed.

(** A word that does not start with a digit does not match at a whole
    number. *)
Lemma ws_word_at_number w1 s t c w r :
  forallb is_space w1 = true -> s <> [] -> forallb is_digit s = true ->
  is_space c = false -> is_digit c = false ->
  matches true (ws_plus ;; Lit (c :: w) ;; r) (w1 ++ s ++ t) = [].
Proof.
  intros H1 Ns Hs Hc Hd.
  assert (HX : head_not is_space (s ++ t) = true)
    by (apply (run_head_not is_digit is_space); auto using digit_not_space).
  destruct w1 as [|y w1].
  - unfold ws_plus. now apply seq_plus_fail.
  - rewrite ws_word; try assumption; [|discriminate].
    destruct s as [|x s]; [congruence|]. cbn [forallb] in Hs.
    apply andb_prop in Hs as [Hx _]. cbn [app lit_rest].
    now rewrite (chr_not_digit true c x Hd Hx).
Qed.

(** The duration phrase as the first group, then white space and a
    word: the group is the whole phrase. *)
Lemma grp_dur_word p w1 X c w r :
  phrase_ok p = true ->
  forallb is_space w1 = true ->
  head_not is_space X = true -> head_not is_digit X = true ->
  is_space c = false -> is_digit c = false ->
  matches true (Grp 1 dur ;; ws_plus ;; Lit (c :: w) ;; r)
          (phrase_text p ++ w1 ++ X)
  = map (fun m : caps * str => ((1%nat, phrase_text p) :: fst m, snd m))
        (matches true (ws_plus ;; Lit (c :: w) ;; r) (w1 ++ X)).
Proof.
  intros Hp H1 HX HD Hc Hcd.
  rewrite matches_seq, matches_grp, (dur_matches p _ Hp).
  assert (S : matches true (ws_plus ;; digits ;; word "sec") (w1 ++ X) = []).
  { apply no_seconds_part. now rewrite (drop_while_run is_space w1 X). }
  destruct p as [d w0 u|d w0 u w1' s u2|s w0 u].
  - rewrite S. cbn [app map flat_map fst snd].
    now rewrite firstn_app_exact, app_nil_r.
  - cbn [phrase_ok] in Hp.
    apply andb_prop in Hp as [Hp _]. apply andb_prop in Hp as [Hp Hs].
    apply andb_prop in Hp as [_ Hw1].
    apply a_run_inv in Hw1 as [_ Hw1]. apply a_run_inv in Hs as [Ns Hs].
    cbn [app map flat_map fst snd].
    rewrite (ws_word_at_number w1' s (u2 ++ w1 ++ X)); try assumption.
    now rewrite firstn_app_exact, app_nil_r.
  - cbn [app map flat_map fst snd].
    now rewrite firstn_app_exact, app_nil_r.
Qed.

(** The duration phrase at the head of a text. *)
Lemma exec_duration_phrase p t :
  phrase_ok p = true ->
  head_not is_digit (drop_while is_space t) = true ->
  exec re_duration (phrase_text p ++ t) = Some [(1%nat, phrase_text p)].
Proof.
  intros Hp Ht. unfold exec, match_here, re_duration.
  cbn [anchored icase body].
  rewrite matches_grp, (dur_matches p _ Hp).
  destruct p; try rewrite (no_seconds_part t _ Ht);
    cbn [app map hd_error fst snd]; now rewrite firstn_app_exact.
Qed.

Lemma hd_ws_plus x s :
  is_space x = true ->
  exists rest, hd_error (matches true ws_plus (x :: s)) = Some ([], rest).
Proof.
  intros Hx. unfold ws_plus. cbn [matches]. rewrite Hx, hd_error_map.
  destruct (star_cls is_space s) as [|r l] eqn:E.
  - destruct s as [|y s]; [discriminate|]. cbn in E.
    destruct (is_space y); [|discriminate].
    now destruct (star_cls is_space s).
  - now exists r.
Qed.

Lemma hd_ws_plus_run w t :
  w <> [] -> forallb is_space w = true ->
  exists rest, hd_error (matches true ws_plus (w ++ t)) = Some ([], rest).
Proof.
  intros N H. destruct w as [|x w]; [congruence|]. cbn in H.
  apply andb_prop in H as [Hx _]. now apply hd_ws_plus.
Qed.

(** A pattern anchored at the duration phrase, with white space and a
    word after it, on a text where white space and that word follow the
    phrase. *)
Lemma exec_dur_word p w1 X c w r rest cs rest' :
  phrase_ok p = true ->
  w1 <> [] -> forallb is_space w1 = true ->
  is_space c = false -> is_digit c = false ->
  lit_rest true (c :: w) X = Some rest ->
  hd_error (matches true r rest) = Some (cs, rest') ->
  exec (mkRegex true true (Grp 1 dur ;; ws_plus ;; Lit (c :: w) ;; r))
       (phrase_text p ++ w1 ++ X)
  = Some ((1%nat, phrase_text p) :: cs).
Proof.
  intros Hp N1 H1 Hc Hcd HL Hr.
  assert (HX : head_not is_space X = true /\ head_not is_digit X = true).
  { destruct X as [|x X]; cbn [lit_rest head_not] in HL |- *; [discriminate|].
    destruct (chr_match true c x) eqn:E; [|discriminate].
    apply chr_match_class in E as (Es & Ed & _). now rewrite Es, Ed, Hc, Hcd. }
  destruct HX as [HXs HXd].
  unfold exec, match_here. cbn [anchored icase body].
  rewrite grp_dur_word, ws_word, HL by assumption.
  rewrite hd_error_map, Hr. reflexivity.
Qed.

Lemma exec_dur_word_none p w1 X c w r :
  phrase_ok p = true ->
  forallb is_space w1 = true ->
  head_not is_space X = true -> head_not is_digit X = true ->
  is_space c = false -> is_digit c = false ->
  lit_rest true (c :: w) X = None ->
  exec (mkRegex true true (Grp 1 dur ;; ws_plus ;; Lit (c :: w) ;; r))
       (phrase_text p ++ w1 ++ X)
  = None.
Proof.
  intros Hp H1 HXs HXd Hc Hcd HL.
  unfold exec, match_here. cbn [anchored icase body].
  rewrite grp_dur_word by assumption.
  destruct w1 as [|y w1].
  - unfold ws_plus. now rewrite seq_plus_fail.
  - rewrite ws_word, HL by (assumption || discriminate). reflexivity.
Qed.

Lemma unit_alt u t :
  reads_as "min" u \/ reads_as "sec" u ->
  matches true (Alt (word "min") (word "sec")) (u ++ t) = [([], t)].
Proof.
  intros Hu. rewrite matches_alt. unfold word. rewrite !matches_Lit.
  destruct Hu as [H|H].
  - now rewrite (lit_rest_intro true (txt "min") u _ H), (min_not_sec u t H).
  - now rewrite (lit_rest_intro true (txt "sec") u _ H), (sec_not_min u t H).
Qed.

(** The Free Ride pattern wants "free" after the unit. *)
Lemma freeRide_none d w0 u w1 X :
  d <> [] -> forallb is_digit_or_dot d = true ->
  forallb is_space w0 = true ->
  reads_as "min" u \/ reads_as "sec" u ->
  forallb is_space w1 = true -> head_not is_space X = true ->
  lit_rest true (txt "free") X = None ->
  exec re_freeRide (d ++ w0 ++ u ++ w1 ++ X) = None.
Proof.
  intros Hdne Hd Hw0 Hu Hw1 HX HL.
  apply exec_anchored_none; [reflexivity|].
  unfold match_here, re_freeRide. cbn [icase body]. unfold number.
  assert (Y : matches true (ws_plus ;; word "free" ;; ws_plus ;; word "ride")
                      (w1 ++ X) = []).
  { destruct w1 as [|y w1].
    - unfold ws_plus. now apply seq_plus_fail.
    - unfold word at 1.
      rewrite (ws_word (y :: w1) X "f" (txt "ree"))
        by (reflexivity || assumption || discriminate).
      change ("f"%char :: txt "ree") with (txt "free"). now rewrite HL. }
  rewrite seq_grp_plus_munch; try assumption.
  - unfold ws_star. rewrite seq_star_munch; try assumption.
    + rewrite matches_seq, matches_grp, (unit_alt u _ Hu).
      cbn [map flat_map fst snd app]. now rewrite Y.
    + now apply unit_head_not_space.
    + apply rejects_unit_group; intros x Hx; now apply chr_not_space.
  - exact (after_number_head_not w0 u [] [] (w1 ++ X) Hw0 Hu).
  - unfold ws_star. apply rejects_star.
    + exact digit_or_dot_not_space.
    + apply rejects_unit_group; intros x Hx;
        now apply chr_not_digit_or_dot.
Qed.

Lemma digits_digit_or_dot s :
  forallb is_digit s = true -> forallb is_digit_or_dot s = true.
Proof. apply forallb_impl. exact digit_is_digit_or_dot. Qed.

(** A duration phrase starts with a number, white space and a unit. *)
Lemma phrase_head p t :
  phrase_ok p = true ->
  exists d w0 u t',
    phrase_text p ++ t = d ++ w0 ++ u ++ t'
    /\ d <> [] /\ forallb is_digit_or_dot d = true
    /\ forallb is_space w0 = true
    /\ (reads_as "min" u \/ reads_as "sec" u)
    /\ (t' = t
        \/ exists w s r, t' = w ++ s ++ r /\ forallb is_space w = true
                         /\ s <> [] /\ forallb is_digit s = true).
Proof.
  intros H. destruct p as [d w0 u|d w0 u w1 s u2|s w0 u];
    cbn [phrase_text phrase_ok] in *.
  - apply andb_prop in H as [H Hu]. apply andb_prop in H as [Hd Hw0].
    apply a_run_inv in Hd as [Hdne Hd]. apply spelled_reads in Hu.
    exists d, w0, u, t. rewrite <- !app_assoc. auto 10.
  - apply andb_prop in H as [H Hu2]. apply andb_prop in H as [H Hs].
    apply andb_prop in H as [H Hw1]. apply andb_prop in H as [H Hu].
    apply andb_prop in H as [Hd Hw0].
    apply a_run_inv in Hd as [Hdne Hd]. apply a_run_inv in Hw1 as [N1 Hw1].
    apply a_run_inv in Hs as [Ns Hs]. apply spelled_reads in Hu.
    exists d, w0, u, (w1 ++ s ++ u2 ++ t). rewrite <- !app_assoc.
    repeat split; auto. right. exists w1, s, (u2 ++ t). auto.
  - apply andb_prop in H as [H Hu]. apply andb_prop in H as [Hs Hw0].
    apply a_run_inv in Hs as [Ns Hs]. apply spelled_reads in Hu.
    exists s, w0, u, t. rewrite <- !app_assoc.
    auto 10 using digits_digit_or_dot.
Qed.

Lemma lit_rest_at_digit c w s r :
  is_digit c = false -> s <> [] -> forallb is_digit s = true ->
  lit_rest true (c :: w) (s ++ r) = None.
Proof.
  intros Hc Ns Hs. destruct s as [|x s]; [congruence|]. cbn [forallb] in Hs.
  apply andb_prop in Hs as [Hx _]. cbn [app lit_rest].
  now rewrite (chr_not_digit true c x Hc Hx).
Qed.

Lemma freeRide_none_phrase p w1 X :
  phrase_ok p = true ->
  forallb is_space w1 = true -> head_not is_space X = true ->
  lit_rest true (txt "free") X = None ->
  exec re_freeRide (phrase_text p ++ w1 ++ X) = None.
Proof.
  intros Hp Hw1 HX HL.
  destruct (phrase_head p (w1 ++ X) Hp)
    as (d & w0 & u & t' & -> & Hdne & Hd & Hw0 & Hu & [->|T]).
  - now apply freeRide_none.
  - destruct T as (w & s & r & -> & Hw & Ns & Hs).
    apply freeRide_none; try assumption.
    + apply (run_head_not is_digit is_space); auto using digit_not_space.
    + now apply (lit_rest_at_digit "f" (txt "ree")).
Qed.

Lemma interval_none_phrase p t :
  phrase_ok p = true -> exec re_interval (phrase_text p ++ t) = None.
Proof.
  intros Hp.
  destruct (phrase_head p t Hp)
    as (d & w0 & u & t' & -> & Hdne & Hd & Hw0 & Hu & _).
  exact (interval_on_text d w0 u [] [] t' Hd Hw0 Hu).
Qed.

(** ** The Steady State and Ramp rules *)

Lemma rule_ramp_one_span text v cad : rule_ramp text [v] cad = Ok None.
Proof. unfold rule_ramp. now destruct (rampMatch text). Qed.

Lemma rule_intervals_one_span text v : rule_intervals text [v] = Ok None.
Proof. unfold rule_intervals. now destruct (exec re_interval text). Qed.

Lemma rule_steady_two_spans text v0 v1 cad :
  rule_steady text [v0; v1] cad = Ok None.
Proof. unfold rule_steady. now destruct (exec re_steady text). Qed.

(** The patterns on the text of a steady fragment. *)
Lemma steady_text_patterns p w1 w2 tail :
  phrase_ok p = true ->
  a_run is_space w1 = true -> a_run is_space w2 = true ->
  rule_freeRide (phrase_text p ++ w1 ++ txt "@" ++ w2 ++ tail) = None
  /\ exec re_steady (phrase_text p ++ w1 ++ txt "@" ++ w2 ++ tail)
     = Some [(1%nat, phrase_text p)]
  /\ exec re_duration (phrase_text p ++ w1 ++ txt "@" ++ w2 ++ tail)
     = Some [(1%nat, phrase_text p)].
Proof.
  intros Hp Hw1 Hw2.
  apply a_run_inv in Hw1 as [N1 Hw1]. apply a_run_inv in Hw2 as [N2 Hw2].
  destruct (hd_ws_plus_run w2 tail N2 Hw2) as [rest' Hr].
  split; [|split].
  - unfold rule_freeRide.
    now rewrite (freeRide_none_phrase p w1 (txt "@" ++ w2 ++ tail) Hp Hw1).
  - exact (exec_dur_word p w1 (txt "@" ++ w2 ++ tail) "@" [] ws_plus
             (w2 ++ tail) [] rest' Hp N1 Hw1 eq_refl eq_refl eq_refl Hr).
  - apply exec_duration_phrase; [exact Hp|].
    now rewrite (drop_while_run is_space w1 (txt "@" ++ w2 ++ tail)).
Qed.

(** X12 (the Steady State rule): a fragment with one annotation whose text
    is a duration phrase, white space, "@", white space and anything is
    classified as SteadyState with the duration of the phrase, the
    annotation's value divided by 100 as power and the cadence found in the
    text, when the duration is above zero and the value is a number; it is
    not classified otherwise.  The phrase is a number and "min", optionally
    followed by a whole number and "sec", or a whole number and "sec", in
    any case of letters. *)
Theorem X12_steady_state_rule :
  forall e p w1 w2 tail v,
    phrase_ok p = true ->
    a_run is_space w1 = true -> a_run is_space w2 = true ->
    text_of e = phrase_text p ++ w1 ++ txt "@" ++ w2 ++ tail ->
    spans e = [v] ->
    parseSegment e
    = if gt0 (parseDuration (Some (phrase_text p)))
         && negb (isNaN (parseFloat v))
      then Ok (Some (SteadyState (parseDuration (Some (phrase_text p)))
                                 (div100 (parseFloat v))
                                 (cadence_of (text_of e))))
      else Ok None.
Proof.
  intros e p w1 w2 tail v Hp Hw1 Hw2 Ht Hs.
  destruct (steady_text_patterns p w1 w2 tail Hp Hw1 Hw2) as (F & S & D).
  rewrite <- Ht in F, S, D.
  unfold parseSegment. rewrite F, Hs, rule_ramp_one_span.
  rewrite rule_intervals_one_span.
  unfold rule_steady, rule_fallback. rewrite S, D.
  cbn [length Nat.eqb group span_value nth_error bind or_next]. cbv zeta.
  rewrite isNaN_div100.
  now destruct (gt0 _ && _).
Qed.

Lemma X12_witness :
  parseSegment (mkElement None (Some (txt "7min  30sec @ 85rpm, 75% FTP"))
                          [txt "75.5"])
  = Ok (Some (SteadyState (of_Z 450) (div100 (Fin (mkDec 755 (-1))))
                          (Num (of_Z 85)))).
Proof.
  rewrite (X12_steady_state_rule
             (mkElement None (Some (txt "7min  30sec @ 85rpm, 75% FTP"))
                        [txt "75.5"])
             (MinutesSeconds (txt "7") [] (txt "min") (txt "  ") (txt "30")
                             (txt "sec"))
             (txt " ") (txt " ") (txt "85rpm, 75% FTP") (txt "75.5")
             eq_refl eq_refl eq_refl eq_refl eq_refl).
  reflexivity.
Defined.

Lemma from_not_free F t :
  reads_as "from" F -> lit_rest true (txt "free") (F ++ t) = None.
Proof.
  intros Hf.
  inversion Hf as [|? f1 ? t1 H1 F1]; subst.
  inversion F1 as [|? f2 ? t2 H2 F2]; subst.
  inversion F2 as [|? f3 ? t3 H3 F3]; subst.
  cbn [txt list_ascii_of_string app lit_rest]. rewrite H1, H2.
  now rewrite (chr_match_other "o" "e" f3 H3).
Qed.

Lemma word_head_not (p : ascii -> bool) c w u t :
  p c = false ->
  Forall2 (fun c x => chr_match true c x = true) (c :: w) u ->
  head_not is_space (u ++ t) = negb (is_space c)
  /\ head_not is_digit (u ++ t) = negb (is_digit c).
Proof.
  intros _ F. inversion F as [|? x ? u' Hx F']; subst. cbn.
  apply chr_match_class in Hx as (Es & Ed & _). now rewrite Es, Ed.
Qed.

(** The Ramp pattern with a cadence, after the duration phrase. *)
Lemma cadenced_tail w2 n r w3 F w tail :
  w2 <> [] -> forallb is_space w2 = true ->
  n <> [] -> forallb is_digit n = true ->
  reads_as "rpm," r ->
  w3 <> [] -> forallb is_space w3 = true ->
  reads_as "from" F ->
  matches true (ws_plus ;; digits ;; word "rpm," ;; ws_plus ;; word "from"
                ;; ws_plus)
          (w2 ++ n ++ r ++ w3 ++ F ++ w ++ tail)
  = matches true ws_plus (w ++ tail).
Proof.
  intros N2 H2 Nn Hn Hr N3 H3 HF.
  unfold ws_plus at 1. rewrite seq_plus_munch; try assumption.
  - unfold digits. rewrite seq_plus_munch; try assumption.
    + unfold word at 1. rewrite matches_seq_Lit.
      rewrite (lit_rest_intro true (txt "rpm,") r _ Hr).
      unfold word.
      rewrite (ws_word w3 (F ++ w ++ tail) "f" (txt "rom")); try assumption.
      * change ("f"%char :: txt "rom") with (txt "from").
        now rewrite (lit_rest_intro true (txt "from") F _ HF).
      * now destruct (word_head_not is_space "f" (txt "rom") F (w ++ tail)
                        eq_refl HF) as [-> _].
      * reflexivity.
    + now destruct (word_head_not is_digit "r" (txt "pm,") r
                      (w3 ++ F ++ w ++ tail) eq_refl Hr) as [_ ->].
    + apply (rejects_lit_seq true "r" (txt "pm,")).
      intros x Hx. now apply chr_not_digit.
  - apply (run_head_not is_digit is_space); auto using digit_not_space.
  - unfold digits. apply rejects_plus. exact space_not_digit.
Qed.

(** The two Ramp patterns on the text of a ramp. *)
Lemma rampMatch_phrase p l F w tail :
  phrase_ok p = true -> lead_ok l = true ->
  reads_as "from" F -> w <> [] -> forallb is_space w = true ->
  rampMatch (phrase_text p ++ lead_text l ++ F ++ w ++ tail)
  = Some [(1%nat, phrase_text p)].
Proof.
  intros Hp Hl HF Nw Hw.
  destruct (hd_ws_plus_run w tail Nw Hw) as [rest' Hr].
  destruct (word_head_not is_space "f" (txt "rom") F (w ++ tail) eq_refl HF)
    as [Fs Fd].
  unfold rampMatch.
  destruct l as [w1|w1 w2 n r w3]; cbn [lead_text lead_ok] in *.
  - apply a_run_inv in Hl as [N1 H1].
    assert (E : exec re_rampCadence (phrase_text p ++ w1 ++ F ++ w ++ tail)
                = None).
    { exact (exec_dur_word_none p w1 (F ++ w ++ tail) "@" []
               (ws_plus ;; digits ;; word "rpm," ;; ws_plus ;; word "from"
                ;; ws_plus)
               Hp H1 Fs Fd eq_refl eq_refl
               (lit_rest_other "@" [] "f" (txt "rom") F _ HF eq_refl)). }
    rewrite E.
    exact (exec_dur_word p w1 (F ++ w ++ tail) "f" (txt "rom") ws_plus
             (w ++ tail) [] rest' Hp N1 H1 eq_refl eq_refl
             (lit_rest_intro true (txt "from") F _ HF) Hr).
  - apply andb_prop in Hl as [Hl H3]. apply andb_prop in Hl as [Hl Hr'].
    apply andb_prop in Hl as [Hl Hn]. apply andb_prop in Hl as [H1 H2].
    apply a_run_inv in H1 as [N1 H1]. apply a_run_inv in H2 as [N2 H2].
    apply a_run_inv in H3 as [N3 H3]. apply a_run_inv in Hn as [Nn Hn].
    apply spelled_reads in Hr'.
    rewrite <- !app_assoc.
    assert (E : exec re_rampCadence
                  (phrase_text p ++ w1 ++ txt "@" ++ w2 ++ n ++ r ++ w3 ++ F
                   ++ w ++ tail)
                = Some [(1%nat, phrase_text p)]).
    { apply (exec_dur_word p w1
               (txt "@" ++ w2 ++ n ++ r ++ w3 ++ F ++ w ++ tail) "@" []
               (ws_plus ;; digits ;; word "rpm," ;; ws_plus ;; word "from"
                ;; ws_plus)
               (w2 ++ n ++ r ++ w3 ++ F ++ w ++ tail) [] rest'
               Hp N1 H1 eq_refl eq_refl eq_refl).
      now rewrite cadenced_tail. }
    now rewrite E.
Qed.

Lemma lead_head l X :
  lead_ok l = true ->
  head_not is_space X = true ->
  exists w1 X',
    lead_text l ++ X = w1 ++ X' /\ forallb is_space w1 = true
    /\ head_not is_space X' = true
    /\ (X' = X \/ exists t, X' = txt "@" ++ t).
Proof.
  intros Hl HX. destruct l as [w1|w1 w2 n r w3]; cbn [lead_text lead_ok] in *.
  - apply a_run_inv in Hl as [_ H1]. exists w1, X. auto.
  - apply andb_prop in Hl as [Hl _]. apply andb_prop in Hl as [Hl _].
    apply andb_prop in Hl as [Hl _]. apply andb_prop in Hl as [H1 _].
    apply a_run_inv in H1 as [_ H1].
    exists w1, (txt "@" ++ w2 ++ n ++ r ++ w3 ++ X).
    rewrite <- !app_assoc. repeat split; eauto.
Qed.

(** X13 (the Ramp rule): a fragment with two annotations whose text is a
    duration phrase, then white space (or white space, "@", white space, a
    whole number, "rpm," and white space), then "from", white space and
    anything, is classified as Ramp with the duration of the phrase, the two
    values divided by 100 as powerLow and powerHigh and the cadence found in
    the text, when the duration is above zero and both values are numbers;
    it is not classified otherwise. *)
Theorem X13_ramp_rule :
  forall e p l F w tail v0 v1,
    phrase_ok p = true -> lead_ok l = true ->
    spelled (txt "from") F = true -> a_run is_space w = true ->
    text_of e = phrase_text p ++ lead_text l ++ F ++ w ++ tail ->
    spans e = [v0; v1] ->
    parseSegment e
    = if gt0 (parseDuration (Some (phrase_text p)))
         && negb (isNaN (parseFloat v0)) && negb (isNaN (parseFloat v1))
      then Ok (Some (Ramp (parseDuration (Some (phrase_text p)))
                          (div100 (parseFloat v0)) (div100 (parseFloat v1))
                          (cadence_of (text_of e))))
      else Ok None.
Proof.
  intros e p l F w tail v0 v1 Hp Hl HF Hw Ht Hs.
  apply spelled_reads in HF. apply a_run_inv in Hw as [Nw Hw].
  destruct (word_head_not is_space "f" (txt "rom") F (w ++ tail) eq_refl HF)
    as [Fs _].
  assert (R : rule_freeRide (text_of e) = None).
  { unfold rule_freeRide. rewrite Ht.
    destruct (lead_head l (F ++ w ++ tail) Hl Fs)
      as (w1 & X' & -> & H1 & HX' & [->|[t ->]]).
    - now rewrite (freeRide_none_phrase p w1 _ Hp H1 Fs (from_not_free F _ HF)).
    - now rewrite (freeRide_none_phrase p w1 (txt "@" ++ t) Hp H1
                     eq_refl eq_refl). }
  assert (M : rampMatch (text_of e) = Some [(1%nat, phrase_text p)])
    by (rewrite Ht; now apply rampMatch_phrase).
  assert (I : exec re_interval (text_of e) = None)
    by (rewrite Ht; now apply interval_none_phrase).
  unfold parseSegment. rewrite R, Hs, rule_steady_two_spans.
  unfold rule_ramp, rule_intervals, rule_fallback. rewrite M, I.
  cbn [length Nat.eqb group span_value nth_error bind or_next try_catch].
  cbv zeta. rewrite !isNaN_div100.
  now destruct (gt0 _ && _ && _).
Qed.

Lemma X13_witness :
  parseSegment (mkElement None
                  (Some (txt "10min @ 90rpm, from 50 to 70% FTP"))
                  [txt "50"; txt "70"])
  = Ok (Some (Ramp (of_Z 600) (div100 (of_Z 50)) (div100 (of_Z 70))
                   (Num (of_Z 90)))).
Proof.
  rewrite (X13_ramp_rule
             (mkElement None (Some (txt "10min @ 90rpm, from 50 to 70% FTP"))
                        [txt "50"; txt "70"])
             (Minutes (txt "10") [] (txt "min"))
             (Cadenced (txt " ") (txt " ") (txt "90") (txt "rpm,") (txt " "))
             (txt "from") (txt " ") (txt "50 to 70% FTP")
             (txt "50") (txt "70")
             eq_refl eq_refl eq_refl eq_refl eq_refl eq_refl).
  reflexivity.
Defined.

(** ** Texts no rule takes *)

Lemma no_pattern_unparsed e :
  exec re_freeRide (text_of e) = None ->
  rampMatch (text_of e) = None ->
  exec re_steady (text_of e) = None ->
  exec re_interval (text_of e) = None ->
  exec re_duration (text_of e) = None ->
  parseSegment e = Ok None.
Proof.
  intros F R S I D. unfold parseSegment.
  unfold rule_freeRide, rule_ramp, rule_steady, rule_intervals, rule_fallback.
  rewrite F, R, S, I, D. cbn [or_next].
  now destruct (length (spans e) =? 1)%nat.
Qed.

Lemma dur_fail s : head_not is_digit_or_dot s = true -> matches true dur s = [].
Proof.
  intros H. unfold dur, number, digits. rewrite matches_alt.
  rewrite !seq_plus_fail; [reflexivity| |exact H].
  apply (head_not_sub is_digit is_digit_or_dot);
    [exact digit_is_digit_or_dot|exact H].
Qed.

Lemma grp_dur_nil n r s :
  matches true dur s = [] -> matches true (Grp n dur ;; r) s = [].
Proof. intros H. now rewrite matches_seq, matches_grp, H. Qed.

(** Every pattern of the classifier starts with the duration phrase or
    with the number of repetitions: none matches where [dur] does not and
    no whole number followed by "x" stands. *)
Lemma no_duration_unparsed e :
  matches true dur (text_of e) = [] ->
  matches true (Grp 1 number ;; ws_star ;;
                Grp 2 (Alt (word "min") (word "sec")) ;;
                ws_plus ;; word "free" ;; ws_plus ;; word "ride")
          (text_of e) = [] ->
  matches true (Grp 1 digits ;; word "x" ;; ws_plus ;; Grp 2 dur ;;
                ws_plus ;; word "@") (text_of e) = [] ->
  parseSegment e = Ok None.
Proof.
  intros D F I. apply no_pattern_unparsed.
  - apply exec_anchored_none; [reflexivity|]. unfold match_here.
    cbn [icase body re_freeRide]. now rewrite F.
  - unfold rampMatch.
    rewrite (exec_anchored_none re_rampCadence), (exec_anchored_none re_ramp);
      try reflexivity; unfold match_here;
      cbn [icase body re_ramp re_rampCadence]; now rewrite grp_dur_nil.
  - apply exec_anchored_none; [reflexivity|]. unfold match_here.
    cbn [icase body re_steady]. now rewrite grp_dur_nil.
  - apply exec_anchored_none; [reflexivity|]. unfold match_here.
    cbn [icase body re_interval]. now rewrite I.
  - apply exec_anchored_none; [reflexivity|]. unfold match_here.
    cbn [icase body re_duration]. now rewrite matches_grp, D.
Qed.

(** X14 (a number must lead): a fragment whose text, once trimmed, does not
    start with a digit or a dot, the empty text included, is not
    classified, whatever its annotations. *)
Theorem X14_number_must_lead :
  forall e,
    head_not is_digit_or_dot (text_of e) = true -> parseSegment e = Ok None.
Proof.
  intros e H. apply no_duration_unparsed.
  - now apply dur_fail.
  - unfold number. now apply seq_grp_plus_fail.
  - unfold digits. apply seq_grp_plus_fail.
    apply (head_not_sub is_digit is_digit_or_dot);
      [exact digit_is_digit_or_dot|exact H].
Qed.

Lemma X14_witness :
  parseSegment (mkElement (Some (txt "  Rest 10min @ 50% FTP")) None
                          [txt "50"])
  = Ok None.
Proof. now apply X14_number_must_lead. Defined.

Lemma head_not_after_spaces (q : ascii -> bool) w0 t :
  (forall x, is_space x = true -> q x = false) ->
  forallb is_space w0 = true -> head_not q t = true ->
  head_not q (w0 ++ t) = true.
Proof.
  intros Hq Hw Ht. destruct w0 as [|x w0]; [exact Ht|]. cbn in Hw |- *.
  apply andb_prop in Hw as [Hx _]. now rewrite (Hq x Hx).
Qed.

Lemma lit_rest_head_not c w t :
  head_not (chr_match true c) t = true -> lit_rest true (c :: w) t = None.
Proof.
  destruct t as [|x t]; [reflexivity|]. cbn. intros H.
  apply negb_true_iff in H. now rewrite H.
Qed.

Lemma unit_start_inv t :
  head_not unit_start t = true ->
  head_not is_space t = true /\ head_not is_digit_or_dot t = true
  /\ head_not (chr_match true "m") t = true
  /\ head_not (chr_match true "s") t = true
  /\ head_not (chr_match true "x") t = true.
Proof.
  destruct t as [|c t]; [now repeat split|]. unfold unit_start. cbn.
  intros H. apply negb_true_iff in H.
  apply orb_false_iff in H as [H Hx]. apply orb_false_iff in H as [H Hs].
  apply orb_false_iff in H as [H Hm]. apply orb_false_iff in H as [Hw Hd].
  now rewrite Hw, Hd, Hm, Hs, Hx.
Qed.

Section OtherUnit.

Variables d w0 t : str.

Hypothesis Hdne : d <> [].
Hypothesis Hd : forallb is_digit_or_dot d = true.
Hypothesis Hw0 : forallb is_space w0 = true.
Hypothesis Hs : head_not is_space t = true.
Hypothesis Hdd : head_not is_digit_or_dot t = true.
Hypothesis Hm : head_not (chr_match true "m") t = true.
Hypothesis Hsec : head_not (chr_match true "s") t = true.

Lemma after_number_no_digit : head_not is_digit_or_dot (w0 ++ t) = true.
Proof.
  apply head_not_after_spaces;
    [exact space_not_digit_or_dot|exact Hw0|exact Hdd].
Qed.

(** [\s*unit] after the number, for a unit the text has not. *)
Lemma ws_unit_none c w r :
  is_space c = false ->
  head_not (chr_match true c) t = true ->
  matches true (ws_star ;; Lit (c :: w) ;; r) (w0 ++ t) = [].
Proof.
  intros Hc Hh. unfold ws_star. rewrite seq_star_munch.
  - now rewrite matches_seq_Lit, lit_rest_head_not.
  - exact Hw0.
  - exact Hs.
  - apply rejects_lit_seq. intros x Hx. now apply chr_not_space.
Qed.

Lemma dur_other_unit : matches true dur (d ++ w0 ++ t) = [].
Proof.
  unfold dur. rewrite matches_alt.
  assert (A1 : matches true (number ;; ws_star ;; word "min" ;;
                             Opt (ws_plus ;; digits ;; word "sec"))
                       (d ++ w0 ++ t) = []).
  { unfold number. rewrite seq_plus_munch.
    - unfold word. now apply (ws_unit_none "m" (txt "in")).
    - exact Hdne.
    - exact Hd.
    - apply after_number_no_digit.
    - unfold ws_star, word. apply rejects_star.
      + exact digit_or_dot_not_space.
      + apply (rejects_lit_seq true "m" (txt "in")).
        intros x Hx'. now apply chr_not_digit_or_dot. }
  assert (W : matches true (ws_star ;; word "sec") (w0 ++ t) = []).
  { unfold ws_star, word. rewrite seq_star_munch; try assumption.
    - now rewrite matches_Lit, (lit_rest_head_not "s" (txt "ec")).
    - apply (rejects_lit true "s" (txt "ec")).
      intros x Hx'. now apply chr_not_space. }
  assert (Rj : forall p, (forall x, p x = true -> is_digit_or_dot x = true) ->
               rejects true (ws_star ;; word "sec") p).
  { intros p Hp x t' Hx'. apply (rejects_ws_unit true "s" (txt "ec"));
      [reflexivity|now apply Hp]. }
  rewrite A1. cbn [app].
  destruct (forallb is_digit d) eqn:Dd.
  - unfold digits. rewrite seq_plus_munch; try assumption.
    + apply (head_not_sub is_digit is_digit_or_dot);
        [exact digit_is_digit_or_dot|apply after_number_no_digit].
    + apply Rj. exact digit_is_digit_or_dot.
  - destruct (forallb_false_split is_digit d Dd)
      as (d1 & x & d2 & E & D1 & Dx).
    pose proof Hd as Hd'. rewrite E in Hd' |- *. rewrite forallb_app in Hd'.
    apply andb_true_iff in Hd' as [_ Hd2]. cbn [forallb] in Hd2.
    apply andb_true_iff in Hd2 as [Hx' _].
    rewrite <- app_assoc. unfold digits.
    apply (seq_plus_none true is_digit is_digit).
    + auto.
    + exact D1.
    + cbn [app head_not]. now rewrite Dx.
    + apply Rj. exact digit_is_digit_or_dot.
    + cbn [app]. now apply (Rj is_digit_or_dot).
Qed.

Lemma freeRide_other_unit :
  matches true (Grp 1 number ;; ws_star ;;
                Grp 2 (Alt (word "min") (word "sec")) ;;
                ws_plus ;; word "free" ;; ws_plus ;; word "ride")
          (d ++ w0 ++ t) = [].
Proof.
  unfold number. rewrite seq_grp_plus_munch; try assumption.
  - unfold ws_star. rewrite seq_star_munch; try assumption.
    + rewrite matches_seq, matches_grp, matches_alt. unfold word.
      rewrite !matches_Lit.
      now rewrite (lit_rest_head_not "m" (txt "in")),
                  (lit_rest_head_not "s" (txt "ec")).
    + apply rejects_unit_group; intros x Hx'; now apply chr_not_space.
  - apply after_number_no_digit.
  - unfold ws_star. apply rejects_star.
    + exact digit_or_dot_not_space.
    + apply rejects_unit_group; intros x Hx';
        now apply chr_not_digit_or_dot.
Qed.

Lemma interval_other_unit :
  head_not (chr_match true "x") t = true ->
  matches true (Grp 1 digits ;; word "x" ;; ws_plus ;; Grp 2 dur ;;
                ws_plus ;; word "@") (d ++ w0 ++ t) = [].
Proof.
  intros Hx. unfold digits, word. rewrite matches_grp_seq_nil; [reflexivity|].
  apply (seq_plus_none true is_digit is_digit_or_dot).
  - exact digit_is_digit_or_dot.
  - exact Hd.
  - apply (head_not_sub is_digit is_digit_or_dot);
      [exact digit_is_digit_or_dot|apply after_number_no_digit].
  - apply (rejects_lit_seq true "x" []).
    intros x Hx'. now apply chr_not_digit_or_dot.
  - rewrite matches_seq_Lit. change (txt "x") with ["x"%char].
    rewrite lit_rest_head_not; [reflexivity|].
    apply head_not_after_spaces; [|exact Hw0|exact Hx].
    intros x Hx'. now apply chr_not_space.
Qed.

End OtherUnit.

(** X15 (only minutes and seconds): a fragment whose text is a number,
    optional white space and then nothing or a character other than a
    digit, a dot and the letters m, s and x is not classified, whatever its
    annotations: a duration in hours, for one. *)
Theorem X15_only_minutes_and_seconds :
  forall e d w0 t,
    a_run is_digit_or_dot d = true -> forallb is_space w0 = true ->
    head_not unit_start t = true ->
    text_of e = d ++ w0 ++ t ->
    parseSegment e = Ok None.
Proof.
  intros e d w0 t Hd Hw0 Ht He. apply a_run_inv in Hd as [Hdne Hd].
  destruct (unit_start_inv t Ht) as (Hs & Hdd & Hm & Hsec & Hx).
  apply no_duration_unparsed; rewrite He.
  - now apply dur_other_unit.
  - now apply freeRide_other_unit.
  - now apply interval_other_unit.
Qed.

Lemma X15_witness :
  parseSegment (mkElement (Some (txt "1hr 30min @ 60% FTP")) None [txt "60"])
  = Ok None.
Proof.
  exact (X15_only_minutes_and_seconds
           (mkElement (Some (txt "1hr 30min @ 60% FTP")) None [txt "60"])
           (txt "1") [] (txt "hr 30min @ 60% FTP")
           eq_refl eq_refl eq_refl eq_refl).
Defined.

(** ** Intervals without an "off" half *)

Lemma lt_match x : chr_match true "<" x = ascii_eqb "<" x.
Proof.
  apply eqb_prop. revert x. apply ascii_forall. vm_compute. reflexivity.
Qed.

Lemma nl_match x : chr_match true nl x = ascii_eqb nl x.
Proof.
  apply eqb_prop. revert x. apply ascii_forall. vm_compute. reflexivity.
Qed.

Lemma match_br_none x s :
  ascii_eqb "<" x = false -> ascii_eqb nl x = false ->
  match_here re_br (x :: s) = None.
Proof.
  intros H1 H2. unfold match_here, re_br. cbn [icase body].
  rewrite matches_alt. unfold word at 1. rewrite matches_seq_Lit.
  cbn [txt list_ascii_of_string lit_rest matches].
  now rewrite lt_match, H1, nl_match, H2.
Qed.

Lemma replace_br_same rep s :
  lacks "<" s = true -> lacks nl s = true ->
  replace_all re_br rep 0 s = s.
Proof.
  unfold lacks. induction s as [|x s IH]; [reflexivity|].
  cbn [forallb]. intros H1 H2.
  apply andb_prop in H1 as [X1 H1]. apply andb_prop in H2 as [X2 H2].
  apply negb_true_iff in X1, X2.
  cbn [replace_all]. rewrite match_br_none by assumption.
  now rewrite IH.
Qed.

Lemma match_comma_none x s :
  ascii_eqb "," x = false -> match_here re_comma (x :: s) = None.
Proof.
  intros H. unfold match_here, re_comma. cbn [icase body].
  unfold word. rewrite matches_seq_Lit.
  cbn [txt list_ascii_of_string lit_rest chr_match]. now rewrite H.
Qed.

Lemma split_go_comma_none s : forall cur,
  lacks "," s = true -> split_go re_comma 0 cur s = [rev cur ++ s].
Proof.
  unfold lacks. induction s as [|x s IH]; intros cur H.
  - cbn. now rewrite app_nil_r.
  - cbn [forallb] in H. apply andb_prop in H as [X H].
    apply negb_true_iff in X.
    cbn [split_go]. rewrite match_comma_none by assumption.
    rewrite IH by assumption. cbn [rev]. now rewrite <- app_assoc.
Qed.

Lemma split_comma_none s : lacks "," s = true -> split re_comma s = [s].
Proof.
  intros H. destruct s as [|x s]; [reflexivity|].
  unfold split. now rewrite split_go_comma_none.
Qed.

Lemma off_text_none text :
  lacks "," text = true -> lacks nl text = true -> lacks "<" text = true ->
  off_text text = None.
Proof.
  intros H1 H2 H3. unfold off_text.
  now rewrite replace_br_same, split_comma_none.
Qed.

Lemma rule_intervals_no_off text sp :
  off_text text = None -> rule_intervals text sp = Ok None.
Proof.
  intros H. unfold rule_intervals. rewrite H.
  destruct (exec re_interval text) as [m|]; [|reflexivity].
  destruct (length sp =? 2)%nat eqn:L; [|reflexivity].
  apply length_2 in L as (v0 & v1 & ->).
  cbn [span_value nth_error bind]. cbv zeta.
  change (gt0 (of_Z 0)) with false.
  now rewrite andb_false_r.
Qed.

(** X16 (intervals need an "off" half): a fragment whose text holds no
    comma, no line break and no "<" is never classified as IntervalsT: the
    Intervals rule finds no text for the "off" half, so the off duration is
    0 and the rule returns nothing. *)
Theorem X16_intervals_need_off_half :
  forall e,
    lacks "," (text_of e) = true -> lacks nl (text_of e) = true ->
    lacks "<" (text_of e) = true ->
    rule_intervals (text_of e) (spans e) = Ok None
    /\ forall seg, parseSegment e = Ok (Some seg) ->
                   type seg <> txt "IntervalsT".
Proof.
  intros e H1 H2 H3.
  assert (R : rule_intervals (text_of e) (spans e) = Ok None)
    by now apply rule_intervals_no_off, off_text_none.
  split; [exact R|]. intros seg H.
  destruct (parseSegment_cases e)
    as [(s & E & P)|(_ & [(s & E & P)|(_ & [(s & E & P)|
        (_ & [(s & E & P)|(_ & P)])])])];
    rewrite P in H.
  - injection H as <-. apply rule_freeRide_returns in E as (d & -> & _).
    discriminate.
  - injection H as <-.
    apply rule_ramp_inv in E as (m & v0 & v1 & _ & _ & -> & _). discriminate.
  - injection H as <-.
    apply rule_steady_inv in E as (m & v0 & _ & _ & -> & _). discriminate.
  - rewrite R in E. discriminate.
  - apply rule_fallback_inv in H as (m & v0 & _ & _ & -> & _). discriminate.
Qed.

Lemma X16_witness :
  rule_intervals (txt "6x 3min @ 105% FTP 1min @ 50% FTP")
                 [txt "105"; txt "50"] = Ok None
  /\ parseSegment (mkElement None
                     (Some (txt "6x 3min @ 105% FTP 1min @ 50% FTP"))
                     [txt "105"; txt "50"])
     = Ok None.
Proof.
  split.
  - exact (proj1 (X16_intervals_need_off_half
                    (mkElement None
                       (Some (txt "6x 3min @ 105% FTP 1min @ 50% FTP"))
                       [txt "105"; txt "50"]) eq_refl eq_refl eq_refl)).
  - reflexivity.
Defined.

(** ** Minutes and seconds in [parseDuration] *)

(** X17 (seconds need lower-case units): [parseDuration] adds the seconds
    to the minutes only when the text holds both "min" and "sec" in lower
    case, although it finds the units in any case: for a phrase of minutes
    and seconds that does not hold both in lower case it returns the
    duration of the minutes alone. *)
Theorem X17_seconds_need_lower_case :
  forall d w0 u w1 s u2,
    phrase_ok (MinutesSeconds d w0 u w1 s u2) = true ->
    includes (phrase_text (MinutesSeconds d w0 u w1 s u2)) (txt "min")
    && includes (phrase_text (MinutesSeconds d w0 u w1 s u2)) (txt "sec")
    = false ->
    parseDuration (Some (phrase_text (MinutesSeconds d w0 u w1 s u2)))
    = parseDuration (Some (d ++ u)).
Proof.
  intros d w0 u w1 s u2 H I. cbn [phrase_text phrase_ok] in *.
  apply andb_prop in H as [H _]. apply andb_prop in H as [H _].
  apply andb_prop in H as [H _]. apply andb_prop in H as [H Hu].
  apply andb_prop in H as [Hd Hw0].
  apply a_run_inv in Hd as [Hdne Hd]. apply spelled_reads in Hu.
  rewrite !parseDuration_text
    by (intros E; apply app_eq_nil in E as [E _]; contradiction).
  assert (R : rawDuration (d ++ w0 ++ u ++ w1 ++ s ++ u2)
              = mul (parseFloat d) (of_Z 60)).
  { assert (M : exec re_min (d ++ w0 ++ u ++ w1 ++ s ++ u2)
                = Some [(1%nat, d)])
      by exact (exec_number_unit false true "m" (txt "in") d w0 u
                  (w1 ++ s ++ u2) eq_refl eq_refl Hdne Hd Hw0 Hu).
    unfold rawDuration. rewrite I, M. now rewrite capture_found. }
  rewrite R.
  destruct (rawDuration_number_unit d [] u Hdne Hd eq_refl) as [B _].
  cbn [app] in B. now rewrite (B Hu).
Qed.

Lemma X17_witness :
  parseDuration (Some (txt "7MIN 30SEC")) = of_Z 420
  /\ parseDuration (Some (txt "7min 30sec")) = of_Z 450.
Proof.
  split; [|reflexivity].
  exact (eq_trans
           (X17_seconds_need_lower_case (txt "7") [] (txt "MIN") (txt " ")
              (txt "30") (txt "SEC") eq_refl eq_refl)
           eq_refl).
Defined.

(** ** Where the numbers of a segment come from *)











(** ** The last-resort default of the serializer *)

Lemma starts_with_length p : forall s,
  starts_with p s = true -> (length p <= length s)%nat.
Proof.
  induction p as [|x p IH]; intros [|y s] H; cbn in *;
    try lia; try discriminate.
  apply andb_prop in H as [_ H]. specialize (IH s H). lia.
Qed.

Lemma starts_with_app p : forall s t,
  starts_with p s = true -> starts_with p (s ++ t) = true.
Proof.
  induction p as [|x p IH]; intros [|y s] t H; cbn in *;
    try reflexivity; try discriminate.
  apply andb_prop in H as [H1 H2]. now rewrite H1, IH.
Qed.

Lemma starts_with_app_false p : forall s t,
  starts_with p s = false -> (length p <= length s)%nat ->
  starts_with p (s ++ t) = false.
Proof.
  induction p as [|x p IH]; intros [|y s] t H L; cbn in *;
    try discriminate; try lia.
  destruct (ascii_eqb x y); [|reflexivity]. cbn in *.
  apply IH; [exact H|lia].
Qed.

Lemma includes_length s : forall p,
  includes s p = true -> (length p <= length s)%nat.
Proof.
  induction s as [|c s IH]; intros p H; cbn [includes] in H.
  - rewrite orb_false_r in H. now apply starts_with_length.
  - apply orb_prop in H as [H|H].
    + now apply starts_with_length.
    + specialize (IH p H). cbn [length]. lia.
Qed.

(** [replace] changes the first occurrence: text appended after it stays
    as it is. *)
Lemma replace_first_app s p r t :
  includes s p = true ->
  replace_first (s ++ t) p r = replace_first s p r ++ t.
Proof.
  induction s as [|c s IH]; intros H.
  - cbn [includes] in H. rewrite orb_false_r in H.
    destruct p; [|discriminate].
    destruct t; cbn; now rewrite ?app_nil_r.
  - change ((c :: s) ++ t) with (c :: s ++ t). cbn [replace_first].
    change (c :: s ++ t) with ((c :: s) ++ t).
    destruct (starts_with p (c :: s)) eqn:S.
    + rewrite (starts_with_app p (c :: s) t S).
      rewrite skipn_app.
      replace (length p - length (c :: s))%nat with 0%nat
        by (apply starts_with_length in S; lia).
      cbn [skipn]. now rewrite <- app_assoc.
    + cbn [includes] in H. rewrite S in H. cbn [orb] in H.
      rewrite starts_with_app_false;
        [|exact S|apply includes_length in H; cbn [length]; lia].
      cbn [app]. now rewrite IH.
Qed.

Lemma last_resort_dispatch n i seg :
  last_resort seg = true ->
  str_eqb (original_type n i seg) (txt "Ramp") = false
  /\ str_eqb (original_type n i seg) (txt "SteadyState") = false
  /\ str_eqb (original_type n i seg) (txt "IntervalsT") = false
  /\ str_eqb (original_type n i seg) (txt "FreeRide") = false
  /\ truthy (duration seg) = false.
Proof.
  unfold last_resort, known_kind. intros H.
  apply andb_prop in H as [K D]. apply negb_true_iff in K, D.
  apply orb_false_iff in K as [K K4]. apply orb_false_iff in K as [K K3].
  apply orb_false_iff in K as [K1 K2].
  rewrite (original_type_dispatch n i seg (txt "Ramp")) by reflexivity.
  rewrite (original_type_dispatch n i seg (txt "SteadyState")) by reflexivity.
  rewrite (original_type_dispatch n i seg (txt "IntervalsT")) by reflexivity.
  rewrite (original_type_dispatch n i seg (txt "FreeRide")) by reflexivity.
  auto.
Qed.

(** X19 (the last-resort default rewrites the first opening tag of the
    document): for a segment of no known kind and without a duration, the
    serializer replaces ["<tag "] by ["<SteadyState "] in the whole
    document built so far, the element just opened included.  When the
    document already holds ["<tag "] before that element -- in the workout
    name, in the address, or as an earlier element of the same unknown
    kind -- it is that earlier place that is rewritten, and the new element
    keeps its unknown tag. *)
Theorem X19_default_rewrites_first_tag :
  forall n xml i seg,
    last_resort seg = true ->
    includes xml (txt "<" ++ tag_at n i seg ++ txt " ") = true ->
    emit n xml i seg
    = Ok (replace_first xml (txt "<" ++ tag_at n i seg ++ txt " ")
                        (txt "<SteadyState ")
          ++ txt "        <" ++ tag_at n i seg ++ txt " "
          ++ attr "Duration" (txt "60") ++ txt " "
          ++ attr "Power" (txt "0.50") ++ txt " />" ++ [nl]).
Proof.
  intros n xml i seg L I.
  destruct (last_resort_dispatch n i seg L) as (K1 & K2 & K3 & K4 & D).
  unfold emit. rewrite K1, K2, K3, K4, D. cbn [bind].
  rewrite (replace_first_app xml _ _ _ I).
  now rewrite <- !app_assoc.
Qed.

Lemma X19_witness :
  emit 4 (txt "<name>W</name> <Rest x />") 2 (object (txt "Rest"))
  = Ok (txt "<name>W</name> <SteadyState x />"
        ++ element_line (txt "Rest")
             (attr "Duration" (txt "60") ++ txt " "
              ++ attr "Power" (txt "0.50"))).
Proof.
  exact (eq_trans
           (X19_default_rewrites_first_tag 4 (txt "<name>W</name> <Rest x />")
              2 (object (txt "Rest")) eq_refl eq_refl)
           eq_refl).
Defined.

(** Two segments of the same unknown kind, the second without a duration:
    the element of the first is renamed, that of the second is not. *)
Example generateZWO_unknown_kind_twice :
  generateZWO (txt "W") (txt "h")
    [FreeRide (of_Z 300);
     mkSegment (txt "Rest") (Num (of_Z 120)) Undefined Undefined Undefined
               Undefined Undefined Undefined Undefined Undefined Undefined
               Undefined Undefined Undefined;
     object (txt "Rest");
     FreeRide (of_Z 300)]
  = Ok (header (txt "W") (txt "h")
        ++ element_line (txt "Warmup")
             (attr "Duration" (txt "300") ++ txt " "
              ++ attr "FlatRoad" (txt "1"))
        ++ element_line (txt "SteadyState")
             (attr "Duration" (txt "120") ++ txt " "
              ++ attr "Power" (txt "0.50"))
        ++ element_line (txt "Rest")
             (attr "Duration" (txt "60") ++ txt " "
              ++ attr "Power" (txt "0.50"))
        ++ element_line (txt "Cooldown")
             (attr "Duration" (txt "300") ++ txt " "
              ++ attr "FlatRoad" (txt "1"))
        ++ footer).
Proof. reflexivity. Qed.

(** ** The Intervals rule *)













(** ** From a fragment to its element *)

















(** ** The cadence of a fragment *)










